(** * Collective-communication schedule generators (tm_gen)

    A shallow embedding of the four connection-matrix generators of
    [sim/datacenter/p6_inc/tm_gen]:

    - [gen_allreduce_extended.py]       (hierarchical multi-ring)   : [Ring]
    - [gen_allreduce_tree_extended.py]  (tree)                      : [Tree]
    - [gen_allreduce_supernode.py]      (star / supernode)          : [Supernode]
    - [gen_allreduce_inc_ded_pod.py]    (INC, pod aggregated)       : [Inc]

    Python integers are [Z]; a script that raises (ZeroDivisionError,
    IndexError, KeyError) is a generator that returns [None].  The output
    file is part of the generator state: every [print(..., file=f)] appends
    one line to it.  The global random generator of Python's [random]
    module is an interface ([Random]); its state at start-up is an argument
    of every generator. *)

From stdpp Require Import base option list list_numbers sorting gmap strings pretty.
From Stdlib Require Import ZArith Lia Relations.

Local Open Scope Z_scope.

(** ** Python primitives *)

(** [range(n)] and [range(a, b)]. *)
Definition py_range (n : Z) : list Z := seqZ 0 n.
Definition py_range2 (a b : Z) : list Z := seqZ a (b - a).

(** [l[i]]: a negative index counts from the end, anything else out of
    range raises IndexError. *)
Definition py_index {A} (l : list A) (i : Z) : option A :=
  if decide (0 ≤ i) then l !! Z.to_nat i
  else if decide (- Z.of_nat (length l) ≤ i) then l !! Z.to_nat (Z.of_nat (length l) + i)
  else None.

(** [a // b] and [a % b]: floor division and its remainder, which raise
    ZeroDivisionError on [b = 0]. *)
Definition py_floordiv (a b : Z) : option Z :=
  if decide (b = 0) then None else Some (a `div` b).
Definition py_mod (a b : Z) : option Z :=
  if decide (b = 0) then None else Some (a `mod` b).

(** A [for] loop over [xs] whose body may raise. *)
Fixpoint for_each {S A} (body : A → S → option S) (xs : list A) (s : S) : option S :=
  match xs with
  | [] => Some s
  | x :: xs' => s' ← body x s; for_each body xs' s'
  end.

(** ** The random generator

    [seed a] is the state after [random.seed(a)]; [randbelow g n] is one
    draw of [Random._randbelow(n)] from state [g]. *)
Class Random := {
  rng : Type;
  seed : Z → rng;
  randbelow : rng → nat → nat * rng;
}.

(** [x[i], x[j] = x[j], x[i]] *)
Definition swap {A} (x : list A) (i j : nat) : list A :=
  match x !! i, x !! j with
  | Some a, Some b => <[j:=a]> (<[i:=b]> x)
  | _, _ => x
  end.

(** [random.shuffle]:
    [for i in reversed(range(1, len(x))): j = randbelow(i + 1); swap]. *)
Fixpoint shuffle_from `{Random} (i : nat) (x : list Z) (g : rng) : list Z * rng :=
  match i with
  | O => (x, g)
  | S i' =>
      let '(j, g') := randbelow g (S (S i')) in
      shuffle_from i' (swap x (S i') j) g'
  end.

Definition shuffle `{Random} (x : list Z) (g : rng) : list Z * rng :=
  shuffle_from (length x - 1)%nat x g.

(** A generator that replays a given sequence of draws: the state is the
    list of the results the next calls of [randbelow] return. *)
Definition replay_randbelow (tape : list nat) (n : nat) : nat * list nat :=
  match tape with
  | [] => (0%nat, [])
  | j :: tape' => (j, tape')
  end.

Definition Replay : Random :=
  {| rng := list nat; seed := λ _, []; randbelow := replay_randbelow |}.

(** ** Schedules *)

Inductive start_cond :=
  | Start0                      (* [start 0] *)
  | Trigger (t : Z)             (* [trigger <t>] *)
  | TriggerNone.                (* [trigger None]: the gate variable was still None *)

Inductive agg_dir := UP | DOWN.

(** [semantics agg_op SUM agg_dir <d> fid <f> rid <r> cid <c>] *)
Record semantics := {
  sem_dir : agg_dir;
  sem_fid : Z;
  sem_rid : Z;
  sem_cid : Z;
}.

Record flow := {
  src : Z;
  dst : Z;
  fl_id : Z;
  start : start_cond;
  size : Z;
  send_done_trigger : option Z;
  sem : option semantics;
}.

Inductive line :=
  | LNodes (n : Z)              (* [Nodes <n>] *)
  | LConnections (c : Z)        (* [Connections <c>] *)
  | LTriggers (t : Z)           (* [Triggers <t>] *)
  | LComment (s : string)       (* [# ...] *)
  | LBlank
  | LFlow (f : flow)
  | LTrigger (t : Z).           (* [trigger id <t> oneshot] *)

Global Instance start_cond_eq_dec : EqDecision start_cond.
Proof. solve_decision. Defined.
Global Instance agg_dir_eq_dec : EqDecision agg_dir.
Proof. solve_decision. Defined.
Global Instance semantics_eq_dec : EqDecision semantics.
Proof. solve_decision. Defined.
Global Instance flow_eq_dec : EqDecision flow.
Proof. solve_decision. Defined.
Global Instance line_eq_dec : EqDecision line.
Proof. solve_decision. Defined.

(** The text of a line, as the f-strings build it. *)
Definition render_start (s : start_cond) : string :=
  match s with
  | Start0 => "start 0"
  | Trigger t => "trigger " +:+ pretty t
  | TriggerNone => "trigger None"
  end.

Definition render_sem (s : semantics) : string :=
  " semantics agg_op SUM agg_dir " +:+
  (match sem_dir s with UP => "UP" | DOWN => "DOWN" end) +:+
  " fid " +:+ pretty (sem_fid s) +:+ " rid " +:+ pretty (sem_rid s) +:+
  " cid " +:+ pretty (sem_cid s).

Definition render_flow (f : flow) : string :=
  pretty (src f) +:+ "->" +:+ pretty (dst f) +:+ " id " +:+ pretty (fl_id f) +:+ " " +:+
  render_start (start f) +:+ " size " +:+ pretty (size f) +:+
  (match sem f with Some s => render_sem s | None => "" end) +:+
  (match send_done_trigger f with Some t => " send_done_trigger " +:+ pretty t | None => "" end).

Definition render_line (l : line) : string :=
  match l with
  | LNodes n => "Nodes " +:+ pretty n
  | LConnections c => "Connections " +:+ pretty c
  | LTriggers t => "Triggers " +:+ pretty t
  | LComment s => "# " +:+ s
  | LBlank => ""
  | LFlow f => render_flow f
  | LTrigger t => "trigger id " +:+ pretty t +:+ " oneshot"
  end.

Definition newline : string := String (Ascii.ascii_of_nat 10) EmptyString.

(** The bytes of the file. *)
Definition render (ls : list line) : string :=
  foldr (λ l acc, render_line l +:+ newline +:+ acc) EmptyString ls.

(** The flow records, the trigger declarations and the two header counts
    of a file. *)
Definition flows_of (ls : list line) : list flow :=
  omap (λ l, match l with LFlow f => Some f | _ => None end) ls.
Definition declared_triggers (ls : list line) : list Z :=
  omap (λ l, match l with LTrigger t => Some t | _ => None end) ls.
Definition connections_header (ls : list line) : list Z :=
  omap (λ l, match l with LConnections c => Some c | _ => None end) ls.
Definition triggers_header (ls : list line) : list Z :=
  omap (λ l, match l with LTriggers t => Some t | _ => None end) ls.

(** ** Generator state: the file written so far and the counters *)

Record state := {
  file : list line;
  flow_id : Z;       (* [id] ([flow_id] in the INC script) *)
  trig_id : Z;
  connections : Z;
}.

(** [print(out, file=f)] *)
Definition print (l : line) (st : state) : state :=
  {| file := file st ++ [l]; flow_id := flow_id st; trig_id := trig_id st;
     connections := connections st |}.
(** [id += 1] *)
Definition incr_id (st : state) : state :=
  {| file := file st; flow_id := flow_id st + 1; trig_id := trig_id st;
     connections := connections st |}.
(** [trig_id += 1] *)
Definition incr_trig (st : state) : state :=
  {| file := file st; flow_id := flow_id st; trig_id := trig_id st + 1;
     connections := connections st |}.
(** [connections += 1] *)
Definition incr_conn (st : state) : state :=
  {| file := file st; flow_id := flow_id st; trig_id := trig_id st;
     connections := connections st + 1 |}.

(** [f = open(filename, "w"); print("Nodes", nodes, file=f)] with
    [id = 0], [trig_id = 1] and the given [connections]. *)
Definition open_file (nodes conns : Z) : state :=
  {| file := [LNodes nodes]; flow_id := 0; trig_id := 1; connections := conns |}.

(** [for t in range(1, trig_id + 1): print(f"trigger id {t} oneshot", file=f)] *)
Definition trigger_section (st : state) : state :=
  foldl (λ st t, print (LTrigger t) st) st (py_range2 1 (trig_id st + 1)).

(** The same loop with [trigger_count += 1] in its body, from
    [trigger_count = 0]. *)
Definition counted_trigger_section (st : state) : state * Z :=
  foldl (λ '(st, trigger_count) t, (print (LTrigger t) st, trigger_count + 1))
        (st, 0) (py_range2 1 (trig_id st + 1)).

(** [lines.insert(1, f"Connections {c}\nTriggers {t}\n")] on the lines
    read back from the file. *)
Definition insert_header (c t : Z) (ls : list line) : list line :=
  take 1 ls ++ [LConnections c; LTriggers t] ++ drop 1 ls.

(** A flow line without [semantics]. *)
Definition plain_flow (a b i : Z) (s : start_cond) (sz : Z) (done : option Z) : line :=
  LFlow {| src := a; dst := b; fl_id := i; start := s; size := sz;
           send_done_trigger := done; sem := None |}.

(** The lines added to the file between two states of a run. *)
Definition added (before after : state) : list line :=
  drop (length (file before)) (file after).

(** ** gen_allreduce_extended.py *)
Module Ring.

(** Body of [for d in range(1, groupsize)] (phase 1). *)
Definition step (groupsize flowsize : Z) (groupsrcs : list Z) (s d : Z) (st : state)
    : option state :=
  let st := incr_id st in
  isrc ← py_mod (s + d - 1) groupsize;
  idst ← py_mod (s + d) groupsize;
  a ← py_index groupsrcs isrc;
  b ← py_index groupsrcs idst;
  let '(gate, st) :=
    if decide (d = 1) then (Start0, st) else (Trigger (trig_id st), incr_trig st) in
  let done := if decide (d ≠ groupsize - 1) then Some (trig_id st) else None in
  Some (incr_conn (print (plain_flow a b (flow_id st) gate flowsize done) st)).

(** [[srcs[group * groupsize + n] for n in range(groupsize)]] *)
Definition group_members (srcs : list Z) (groupsize group : Z) : option (list Z) :=
  mapM (λ n, py_index srcs (group * groupsize + n)) (py_range groupsize).

(** [if locality == 1: groupsrcs.sort()] *)
Definition local_order (locality : Z) (groupsrcs : list Z) : list Z :=
  if decide (locality = 1) then merge_sort Z.le groupsrcs else groupsrcs.

(** Body of [for group in range(groups)] (phase 1); the second component
    is [group_end_triggers]. *)
Definition phase1_group (srcs : list Z) (groupsize flowsize locality : Z)
    (group : Z) (sg : state * list Z) : option (state * list Z) :=
  let '(st, group_end_triggers) := sg in
  groupsrcs ← group_members srcs groupsize group;
  let groupsrcs := local_order locality groupsrcs in
  st ← for_each (λ s, for_each (step groupsize flowsize groupsrcs s) (py_range2 1 groupsize))
                (py_range groupsize) st;
  Some (st, group_end_triggers ++ [trig_id st - 1]).

(** Body of [for g in range(groups)] (phase 2); the second component is
    [leader_triggers]. *)
Definition phase2_group (srcs : list Z) (groups groupsize flowsize : Z)
    (group_end_triggers : list Z) (g : Z) (sl : state * list Z) : option (state * list Z) :=
  let '(st, leader_triggers) := sl in
  leader ← py_index srcs (g * groupsize);
  m ← py_mod (g + 1) groups;
  next_leader ← py_index srcs (m * groupsize);
  let st := incr_trig st in
  let st := incr_id st in
  gate ← py_index group_end_triggers g;
  let st := print (plain_flow leader next_leader (flow_id st) (Trigger gate)
                     (flowsize `div` 10) (Some (trig_id st))) st in
  Some (incr_conn st, leader_triggers ++ [trig_id st]).

(** Body of [for s in range(groupsize - 1)] (phase 3); the second
    component is [leader_done_trigger]. *)
Definition phase3_step (groupsrcs : list Z) (groupsize flowsize : Z)
    (s : Z) (sl : state * Z) : option (state * Z) :=
  let '(st, leader_done_trigger) := sl in
  let st := incr_id st in
  a ← py_index groupsrcs s;
  b ← py_index groupsrcs (s + 1);
  let '(done, st, next_trigger) :=
    if decide (s < groupsize - 2)
    then let st := incr_trig st in (Some (trig_id st), st, trig_id st)
    else (None, st, leader_done_trigger) in
  let st := incr_conn st in
  Some (print (plain_flow a b (flow_id st) (Trigger leader_done_trigger) flowsize done) st,
        next_trigger).

(** Body of [for g in range(groups)] (phase 3). *)
Definition phase3_group (srcs leader_triggers : list Z) (groupsize flowsize : Z)
    (g : Z) (st : state) : option state :=
  groupsrcs ← group_members srcs groupsize g;
  leader ← py_index groupsrcs 0;
  leader_done_trigger ← py_index leader_triggers g;
  fst <$> for_each (phase3_step groupsrcs groupsize flowsize) (py_range (groupsize - 1))
                   (st, leader_done_trigger).

(** [srcs = list(range(nodes)); if randseed != 0: seed(randseed)] and then,
    whatever the seed, [shuffle(srcs)]. *)
Definition node_order `{Random} (g : rng) (nodes randseed : Z) : list Z :=
  let srcs := py_range nodes in
  let g := if decide (randseed ≠ 0) then seed randseed else g in
  fst (shuffle srcs g).

(** The states after phase 1, phase 2 and phase 3. *)
Definition phases `{Random} (g : rng) (nodes conns groupsize flowsize locality randseed : Z)
    : option (state * state * state) :=
  let srcs := node_order g nodes randseed in
  groups ← py_floordiv conns groupsize;
  let st := open_file nodes 0 in
  '(st1, group_end_triggers) ←
    for_each (phase1_group srcs groupsize flowsize locality) (py_range groups) (st, []);
  '(st2, leader_triggers) ←
    for_each (phase2_group srcs groups groupsize flowsize group_end_triggers)
             (py_range groups) (st1, []);
  st3 ← for_each (phase3_group srcs leader_triggers groupsize flowsize) (py_range groups) st2;
  Some (st1, st2, st3).

(** The flows each of the three phases wrote. *)
Definition phase_flows `{Random} (g : rng) (nodes conns groupsize flowsize locality randseed : Z)
    : option (list flow * list flow * list flow) :=
  '(st1, st2, st3) ← phases g nodes conns groupsize flowsize locality randseed;
  Some (flows_of (added (open_file nodes 0) st1), flows_of (added st1 st2),
        flows_of (added st2 st3)).

(** The whole script: the lines of the file it leaves. *)
Definition gen `{Random} (g : rng) (nodes conns groupsize flowsize locality randseed : Z)
    : option (list line) :=
  '(_, _, st) ← phases g nodes conns groupsize flowsize locality randseed;
  let '(st, trigger_count) := counted_trigger_section st in
  Some (insert_header (connections st) trigger_count (file st)).

End Ring.

(** ** gen_allreduce_tree_extended.py *)
Module Tree.

(** Body of [for i in range(1, nodes)]: [children[parent].append(i)] raises
    KeyError when [parent] is no key of [children]. *)
Definition link (branch_factor : Z) (i : Z) (cp : gmap Z (list Z) * gmap Z Z)
    : option (gmap Z (list Z) * gmap Z Z) :=
  let '(children, parents) := cp in
  parent ← py_floordiv (i - 1) branch_factor;
  let parents := <[i := parent]> parents in
  kids ← children !! parent;
  Some (<[parent := kids ++ [i]]> children, parents).

(** The [children] and [parents] dictionaries. *)
Definition build (nodes branch_factor : Z) : option (gmap Z (list Z) * gmap Z Z) :=
  let children := foldl (λ ch i, <[i := []]> ch) ∅ (py_range nodes) in
  for_each (link branch_factor) (py_range2 1 nodes) (children, ∅).

(** Body of [for i in range(nodes - 1, 0, -1)]. *)
Definition up_step (parents : gmap Z Z) (flowsize : Z) (i : Z) (st : state) : option state :=
  d ← parents !! i;
  let st := incr_id st in
  let st := print (plain_flow i d (flow_id st) Start0 flowsize (Some (trig_id st))) st in
  Some (incr_trig st).

(** Body of [for child in children[parent]]. *)
Definition down_step (nodes flowsize : Z) (kids : list Z) (parent child : Z) (st : state)
    : option state :=
  let st := incr_id st in
  let gate := Trigger (trig_id st - (nodes - 1)) in
  last_kid ← py_index kids (-1);
  if decide (child ≠ last_kid)
  then Some (print (plain_flow parent child (flow_id st) gate flowsize (Some (trig_id st)))
               (incr_trig st))
  else Some (print (plain_flow parent child (flow_id st) gate flowsize None) st).

(** Body of [for parent in range(nodes)]. *)
Definition down_parent (children : gmap Z (list Z)) (nodes flowsize : Z) (parent : Z)
    (st : state) : option state :=
  kids ← children !! parent;
  for_each (down_step nodes flowsize kids parent) kids st.

(** The states after the header, the upward phase and the downward phase. *)
Definition phases (nodes branch_factor flowsize : Z) : option (state * state * state) :=
  let st := open_file nodes ((nodes - 1) * 2) in
  '(children, parents) ← build nodes branch_factor;
  let triggers := (nodes - 1) * 2 in
  let st := print (LConnections (connections st)) st in
  let st0 := print (LTriggers triggers) st in
  let st := print (LComment "Phase 1: Upward Reduction") st0 in
  st1 ← for_each (up_step parents flowsize) (reverse (py_range2 1 nodes)) st;
  let st := print (LComment "Phase 2: Downward Broadcast") st1 in
  st2 ← for_each (down_parent children nodes flowsize) (py_range nodes) st;
  Some (st0, st1, st2).

(** The whole script; [seed(randseed)] is its only use of the random
    generator. *)
Definition gen `{Random} (g : rng) (nodes branch_factor flowsize randseed : Z)
    : option (list line) :=
  let g := if decide (randseed ≠ 0) then seed randseed else g in
  '(_, _, st) ← phases nodes branch_factor flowsize;
  let st := print (LComment "Trigger Section") st in
  Some (file (trigger_section st)).

End Tree.

(** [enumerate(l)] *)
Definition py_enumerate {A} (l : list A) : list (Z * A) :=
  zip (py_range (Z.of_nat (length l))) l.

(** [f"trigger {t}"] for a variable that holds a trigger or None. *)
Definition gate_of (t : option Z) : start_cond :=
  match t with Some t => Trigger t | None => TriggerNone end.

(** ** gen_allreduce_supernode.py *)
Module Supernode.

(** Body of [for i, node in enumerate(regular_nodes)] (phase 1); the second
    component is [phase1_send_done_triggers]. *)
Definition phase1_step (supernode_id flowsize iteration : Z) (next_iteration_trigger : option Z)
    (p : Z * Z) (sl : state * list Z) : option (state * list Z) :=
  let '(i, node) := p in
  let '(st, phase1_send_done_triggers) := sl in
  let st := incr_id st in
  let gate :=
    if decide (iteration = 0 ∧ i = 0) then Start0
    else if decide (iteration > 0 ∧ i = 0) then gate_of next_iteration_trigger
    else if decide (iteration = 0) then Start0
    else gate_of next_iteration_trigger in
  let st := incr_trig st in
  let st := print (plain_flow node supernode_id (flow_id st) gate flowsize (Some (trig_id st))) st in
  Some (incr_conn st, phase1_send_done_triggers ++ [trig_id st]).

(** Body of [for i, dest in enumerate(regular_nodes)] (phase 2); the second
    component is [phase2_trigger]. *)
Definition phase2_step (supernode_id flowsize iteration iterations : Z) (n_regular : Z)
    (p : Z * Z) (sl : state * option Z) : option (state * option Z) :=
  let '(i, dest) := p in
  let '(st, phase2_trigger) := sl in
  let st := incr_id st in
  let gate := gate_of phase2_trigger in
  let '(done, st, phase2_trigger) :=
    if decide (i < n_regular - 1)
    then let st := incr_trig st in (Some (trig_id st), st, Some (trig_id st))
    else if decide (iteration < iterations - 1)
    then let st := incr_trig st in (Some (trig_id st), st, Some (trig_id st))
    else (None, st, None) in
  let st := print (plain_flow supernode_id dest (flow_id st) gate flowsize done) st in
  Some (incr_conn st, phase2_trigger).

(** Body of [for iteration in range(iterations)]; the second component is
    [next_iteration_trigger]. *)
Definition iteration_body (regular_nodes : list Z) (supernode_id flowsize iterations : Z)
    (iteration : Z) (sn : state * option Z) : option (state * option Z) :=
  let '(st, next_iteration_trigger) := sn in
  '(st, phase1_send_done_triggers) ←
    for_each (phase1_step supernode_id flowsize iteration next_iteration_trigger)
             (py_enumerate regular_nodes) (st, []);
  phase2_start_trigger ← py_index phase1_send_done_triggers (-1);
  for_each (phase2_step supernode_id flowsize iteration iterations
              (Z.of_nat (length regular_nodes)))
           (py_enumerate regular_nodes) (st, Some phase2_start_trigger).

(** [regular_nodes = list(range(supernode_id))], shuffled when
    [randseed != 0]. *)
Definition node_order `{Random} (g : rng) (nodes randseed : Z) : list Z :=
  let regular_nodes := py_range (nodes - 1) in
  if decide (randseed ≠ 0) then fst (shuffle regular_nodes (seed randseed))
  else regular_nodes.

(** The state after the iterations. *)
Definition body `{Random} (g : rng) (nodes flowsize iterations randseed : Z) : option state :=
  let supernode_id := nodes - 1 in
  let regular_nodes := node_order g nodes randseed in
  fst <$> for_each (iteration_body regular_nodes supernode_id flowsize iterations)
                   (py_range iterations) (open_file nodes 0, None).

(** The whole script. *)
Definition gen `{Random} (g : rng) (nodes flowsize iterations randseed : Z)
    : option (list line) :=
  st ← body g nodes flowsize iterations randseed;
  let '(st, trigger_count) := counted_trigger_section st in
  Some (insert_header (connections st) trigger_count (file st)).

End Supernode.

(** [l[i] = v], which raises IndexError out of range. *)
Definition py_setitem {A} (l : list A) (i : Z) (v : A) : option (list A) :=
  if decide (0 ≤ i) then
    if decide (i < Z.of_nat (length l)) then Some (<[Z.to_nat i := v]> l) else None
  else if decide (- Z.of_nat (length l) ≤ i)
  then Some (<[Z.to_nat (Z.of_nat (length l) + i) := v]> l)
  else None.

(** ** gen_allreduce_inc_ded_pod.py *)
Module Inc.

Definition nodes_per_pod (k : Z) : Z := (k * k) `div` 4.

(** [agg_nodes = list(range(AGG_POD_START, AGG_POD_END + 1))] with
    [AGG_POD = 0]. *)
Definition agg_nodes (k : Z) : list Z :=
  let POD_SIZE := nodes_per_pod k in
  let AGG_POD := 0 in
  let AGG_POD_START := AGG_POD * POD_SIZE in
  let AGG_POD_END := AGG_POD_START + POD_SIZE - 1 in
  py_range2 AGG_POD_START (AGG_POD_END + 1).

Definition start_or_trigger_str (start_tr : option Z) : start_cond :=
  match start_tr with
  | None => Start0
  | Some t => if decide (t = 0) then Start0 else Trigger t
  end.

Definition chunk_to_agg_node (k : Z) (cid : Z) : option Z :=
  m ← py_mod cid (Z.of_nat (length (agg_nodes k)));
  py_index (agg_nodes k) m.

(** A flow line with its [semantics] fields. *)
Definition inc_flow (a b i : Z) (s : start_cond) (sz : Z) (d : agg_dir) (fid rid cid : Z)
    (done : Z) : line :=
  LFlow {| src := a; dst := b; fl_id := i; start := s; size := sz;
           send_done_trigger := Some done;
           sem := Some {| sem_dir := d; sem_fid := fid; sem_rid := rid; sem_cid := cid |} |}.

(** Body of [for src in hosts] (uplink); the second component is
    [last_upload_trig]. *)
Definition up_step (flowsize fid rid c dst_agg : Z) (chunk_start_trigger : option Z)
    (src : Z) (sl : state * option Z) : option (state * option Z) :=
  let '(st, last_upload_trig) := sl in
  if decide (src = dst_agg) then Some (st, last_upload_trig)
  else
    let st := incr_id st in
    let st := incr_trig st in
    let st := print (inc_flow src dst_agg (flow_id st) (start_or_trigger_str chunk_start_trigger)
                       flowsize UP fid rid c (trig_id st)) st in
    Some (incr_conn st, Some (trig_id st)).

(** Body of [for dst in hosts] (downlink); the second component is
    [last_down_trig]. *)
Definition down_step (flowsize fid rid c dst_agg last_upload_trig : Z)
    (dst : Z) (sl : state * option Z) : option (state * option Z) :=
  let '(st, last_down_trig) := sl in
  if decide (dst = dst_agg) then Some (st, last_down_trig)
  else
    let st := incr_id st in
    let st := incr_trig st in
    let st := print (inc_flow dst_agg dst (flow_id st) (Trigger last_upload_trig)
                       flowsize DOWN fid rid c (trig_id st)) st in
    Some (incr_conn st, Some (trig_id st)).

(** [if last_..._trig is None: trig_id += 1; last_..._trig = trig_id] *)
Definition or_synthetic (sl : state * option Z) : state * Z :=
  match sl with
  | (st, Some t) => (st, t)
  | (st, None) => let st := incr_trig st in (st, trig_id st)
  end.

(** The loop state of the script: the file and counters,
    [last_downlink_trigger] and [iteration_start_trigger]. *)
Record vars := {
  st : state;
  last_downlink_trigger : list Z;
  iteration_start_trigger : option Z;
}.

(** Body of [for c in range(chunks)]. *)
Definition chunk_body (hosts : list Z) (k flowsize fid window rid : Z) (c : Z) (v : vars)
    : option vars :=
  chunk_start_trigger ←
    (if decide (c < window) then Some (iteration_start_trigger v)
     else
       prev_t ← py_index (last_downlink_trigger v) (c - window);
       Some (if decide (prev_t ≠ -1) then Some prev_t else iteration_start_trigger v));
  dst_agg ← chunk_to_agg_node k c;
  up ← for_each (up_step flowsize fid rid c dst_agg chunk_start_trigger) hosts (st v, None);
  let '(s, last_upload_trig) := or_synthetic up in
  down ← for_each (down_step flowsize fid rid c dst_agg last_upload_trig) hosts (s, None);
  let '(s, last_down_trig) := or_synthetic down in
  ldt ← py_setitem (last_downlink_trigger v) c last_down_trig;
  Some {| st := s; last_downlink_trigger := ldt;
          iteration_start_trigger := iteration_start_trigger v |}.

(** Body of [for it in range(iterations)]. *)
Definition iteration_body (hosts : list Z) (k flowsize chunks fid window : Z) (it : Z)
    (v : vars) : option vars :=
  let rid := it + 1 in
  let s := print LBlank (st v) in
  let s := print (LComment ("--- ITERATION " +:+ pretty rid +:+ " ---")) s in
  v ← for_each (chunk_body hosts k flowsize fid window rid) (py_range chunks)
        {| st := s; last_downlink_trigger := last_downlink_trigger v;
           iteration_start_trigger := iteration_start_trigger v |};
  t ← py_index (last_downlink_trigger v) (chunks - 1);
  Some {| st := st v; last_downlink_trigger := last_downlink_trigger v;
          iteration_start_trigger := Some t |}.

(** The state after the iterations. *)
Definition body (nodes k flowsize chunks fid iterations window : Z) : option vars :=
  let hosts := py_range nodes in
  for_each (iteration_body hosts k flowsize chunks fid window) (py_range iterations)
    {| st := open_file nodes 0;
       last_downlink_trigger := replicate (Z.to_nat chunks) (-1);
       iteration_start_trigger := None |}.

(** The whole script; [seed(randseed)] is its only use of the random
    generator. *)
Definition gen `{Random} (g : rng) (nodes k flowsize chunks fid iterations window randseed : Z)
    : option (list line) :=
  let g := if decide (randseed ≠ 0) then seed randseed else g in
  v ← body nodes k flowsize chunks fid iterations window;
  let s := print LBlank (st v) in
  let s := print (LComment "--- TRIGGERS ---") s in
  let s := trigger_section s in
  Some (insert_header (connections s) (trig_id s) (file s)).

End Inc.

(** ** Properties of schedules *)

(** The trigger a flow waits for, if any. *)
Definition gate (f : flow) : option Z :=
  match start f with Trigger t => Some t | _ => None end.

(** [gates fs x y]: the completion trigger of flow [x] is the start gate
    of flow [y]. *)
Definition gates (fs : list flow) (x y : flow) : Prop :=
  x ∈ fs ∧ y ∈ fs ∧ ∃ t, send_done_trigger x = Some t ∧ start y = Trigger t.

(** The dependency graph has no cycle. *)
Definition acyclic (fs : list flow) : Prop := ∀ x, ¬ tc (gates fs) x x.

(** Trigger [t] is declared, and no flow attaches it or waits for it. *)
Definition unused_trigger (ls : list line) (t : Z) : Prop :=
  t ∈ declared_triggers ls ∧
  ∀ f, f ∈ flows_of ls → send_done_trigger f ≠ Some t ∧ start f ≠ Trigger t.

(** All triggers of the flows lie in [lo, hi], and a flow's gate is below
    its completion trigger. *)
Definition flow_ok (lo hi : Z) (f : flow) : Prop :=
  (∀ t, send_done_trigger f = Some t → lo ≤ t ≤ hi) ∧
  (∀ g, start f = Trigger g →
        lo ≤ g ≤ hi ∧ ∀ t, send_done_trigger f = Some t → g < t).

Definition flows_ok (lo hi : Z) (fs : list flow) : Prop := ∀ f, f ∈ fs → flow_ok lo hi f.

(** The generated files. *)
Definition ring_generated `{Random} (out : list line) : Prop :=
  ∃ g nodes conns groupsize flowsize locality randseed,
    Ring.gen g nodes conns groupsize flowsize locality randseed = Some out.
Definition tree_generated `{Random} (out : list line) : Prop :=
  ∃ g nodes branch_factor flowsize randseed,
    Tree.gen g nodes branch_factor flowsize randseed = Some out.
Definition supernode_generated `{Random} (out : list line) : Prop :=
  ∃ g nodes flowsize iterations randseed,
    Supernode.gen g nodes flowsize iterations randseed = Some out.
Definition inc_generated `{Random} (out : list line) : Prop :=
  ∃ g nodes k flowsize chunks fid iterations window randseed,
    Inc.gen g nodes k flowsize chunks fid iterations window randseed = Some out.
Definition generated `{Random} (out : list line) : Prop :=
  ring_generated out ∨ tree_generated out ∨ supernode_generated out ∨ inc_generated out.

(** ** Loop invariants *)

(** Tree: the triggers of the flows written so far are below [trig_id]
    (the script increments the counter after it attaches a trigger). *)
Definition tree_ok (st : state) : Prop :=
  flows_ok 1 (trig_id st - 1) (flows_of (file st)).

(** Ring, Supernode, Inc: the triggers of the flows written so far lie in
    [lo, trig_id]. *)
Definition file_ok (lo : Z) (st : state) : Prop :=
  1 ≤ trig_id st ∧ flows_ok lo (trig_id st) (flows_of (file st)).

(** The same bounds for a variable that holds a trigger or None, and for a
    list of triggers. *)
Definition opt_in (lo hi : Z) (o : option Z) : Prop := ∀ t, o = Some t → lo ≤ t ≤ hi.
Definition all_in (lo hi : Z) (l : list Z) : Prop := ∀ t, t ∈ l → lo ≤ t ≤ hi.

(** Entries of [last_downlink_trigger]: the initial [-1] or a trigger. *)
Definition slots_in (hi : Z) (l : list Z) : Prop := ∀ t, t ∈ l → t = -1 ∨ 2 ≤ t ≤ hi.

(** Inc: the bounds on the file, on [last_downlink_trigger] and on
    [iteration_start_trigger]. *)
Definition inc_ok (v : Inc.vars) : Prop :=
  file_ok 2 (Inc.st v) ∧
  slots_in (trig_id (Inc.st v)) (Inc.last_downlink_trigger v) ∧
  opt_in 2 (trig_id (Inc.st v)) (Inc.iteration_start_trigger v).

(** Example runs: the files the scripts write with the random generator
    replaying the given draws. *)
Definition ran (o : option (list line)) : list line := default [] o.

Definition tree_4_2 : list line := ran (Tree.gen (H:=Replay) [] 4 2 1000 0).
Definition supernode_5_1 : list line := ran (Supernode.gen (H:=Replay) [] 5 1000 1 0).
Definition inc_3_2 : list line := ran (Inc.gen (H:=Replay) [] 3 2 1000 1 7 1 1 0).

(** The triggers of a flow line: its id, its start condition and its
    completion trigger. *)
Definition wiring (f : flow) : Z * start_cond * option Z :=
  (fl_id f, start f, send_done_trigger f).

(** C2, as the specification states it: one ring of four nodes gives 3, 1
    and 3 flows in the three phases. *)
Definition ring_1x4_counts_3_1_3 `{Random} (g : rng) (nodes conns flowsize locality randseed : Z)
    : Prop :=
  ∃ p1 p2 p3,
    Ring.phase_flows g nodes conns 4 flowsize locality randseed = Some (p1, p2, p3) ∧
    length p1 = 3%nat ∧ length p2 = 1%nat ∧ length p3 = 3%nat.

(** Two runs leave the same lines, hence the same bytes. *)
Definition same_output (o1 o2 : option (list line)) : Prop :=
  o1 = o2 ∧ render <$> o1 = render <$> o2.

(** Source and destination of every flow of a file, in order. *)
Definition topology (ls : list line) : list (Z * Z) :=
  (λ f, (src f, dst f)) <$> flows_of ls.

(** Direction, iteration and chunk of an INC flow. *)
Definition chunk_key (f : flow) : option (agg_dir * Z * Z) :=
  s ← sem f; Some (sem_dir s, sem_rid s, sem_cid s).

(** The flows of one direction of one chunk of one iteration, in the order
    of the file. *)
Definition chunk_flows (d : agg_dir) (rid cid : Z) (fs : list flow) : list flow :=
  filter (λ f, chunk_key f = Some (d, rid, cid)) fs.

(** [t] is the completion trigger of the last such flow, if there is one. *)
Definition last_done (d : agg_dir) (rid cid : Z) (fs : list flow) (t : Z) : Prop :=
  ∀ x, last (chunk_flows d rid cid fs) = Some x → send_done_trigger x = Some t.

(** Every downlink flow waits for the completion trigger of the last
    uplink flow of its chunk. *)
Definition down_ok (fs : list flow) : Prop :=
  ∀ f r c, f ∈ fs → chunk_key f = Some (DOWN, r, c) →
    ∃ u t, last (chunk_flows UP r c fs) = Some u ∧ send_done_trigger u = Some t ∧
           start f = Trigger t.

(** Every uplink flow of a chunk [c >= window] waits for the completion
    trigger of chunk [c - window] of its iteration. *)
Definition up_ok (window : Z) (fs : list flow) : Prop :=
  ∀ f r c, f ∈ fs → chunk_key f = Some (UP, r, c) → window ≤ c →
    ∃ t, start f = Trigger t ∧ last_done DOWN r (c - window) fs t.

(** The flow was written before chunk [c] of iteration [rid]. *)
Definition before (rid c : Z) (f : flow) : Prop :=
  ∃ d r c', chunk_key f = Some (d, r, c') ∧ (r < rid ∨ (r = rid ∧ c' < c)).

(** A loop variable [last_upload_trig] / [last_down_trig] and the file. *)
Definition tracks (d : agg_dir) (rid c : Z) (fs : list flow) (o : option Z) : Prop :=
  match o with
  | None => chunk_flows d rid c fs = []
  | Some t =>
      2 ≤ t ∧ ∃ u, last (chunk_flows d rid c fs) = Some u ∧ send_done_trigger u = Some t
  end.

(** The slots of [last_downlink_trigger] written in this iteration. *)
Definition slots_ok (rid c : Z) (ldt : list Z) (fs : list flow) : Prop :=
  ∀ j t, 0 ≤ j < c → ldt !! Z.to_nat j = Some t → 2 ≤ t ∧ last_done DOWN rid j fs t.

(** The state between two chunks: chunks [0 .. c-1] of iteration [rid] and
    all earlier iterations are in the file. *)
Definition inc_inv (window rid c : Z) (v : Inc.vars) : Prop :=
  let fs := flows_of (file (Inc.st v)) in
  1 ≤ trig_id (Inc.st v) ∧ (∀ f, f ∈ fs → before rid c f) ∧ down_ok fs ∧
  (1 ≤ window → up_ok window fs) ∧ slots_ok rid c (Inc.last_downlink_trigger v) fs.

(** C1, as the specification states it: within a chunk, each downlink flow
    waits for the completion trigger of the downlink flow before it. *)
Definition downlinks_chained (fs : list flow) : Prop :=
  ∀ rid cid (i : nat) x y,
    chunk_flows DOWN rid cid fs !! i = Some x →
    chunk_flows DOWN rid cid fs !! S i = Some y →
    ∃ t, send_done_trigger x = Some t ∧ start y = Trigger t.

(** What holds of the gate of an uplink flow of a chunk [c >= window] when
    [window >= 1]: it is a trigger, and it is the completion trigger of the
    last downlink flow of chunk [c - window] of the same iteration if that
    chunk has a downlink flow. *)
Definition window_gated (window : Z) (fs : list flow) : Prop :=
  ∀ rid c f, window ≤ c → f ∈ chunk_flows UP rid c fs →
    ∃ t, start f = Trigger t ∧ last_done DOWN rid (c - window) fs t.


(** C8, as the specification states it.  Its first half: every uplink flow
    of a chunk [c >= window] waits for the completion trigger of the last
    downlink flow of chunk [c - window] of the same iteration. *)
Definition window_gated_strict (window : Z) (fs : list flow) : Prop :=
  ∀ rid c f, window ≤ c → f ∈ chunk_flows UP rid c fs →
    ∃ d t, last (chunk_flows DOWN rid (c - window) fs) = Some d ∧
           send_done_trigger d = Some t ∧ start f = Trigger t.




(** Example runs for C8: three hosts and two chunks with window 1; one
    host, which is the aggregator of chunk 0, and two chunks with window 1. *)
Definition inc_3_window1 : list line := ran (Inc.gen (H:=Replay) [] 3 2 1000 2 7 1 1 0).


(** ** How a run extends the file *)

(** Lines that are neither flows, nor headers, nor trigger declarations. *)
Definition quiet (l : line) : Prop := l = LBlank ∨ ∃ s, l = LComment s.

(** [grows dc P st st']: from [st] to [st'] the script wrote flow lines,
    each with the next [id], each counted [dc] times in [connections] and
    each satisfying [P], and blank or comment lines; [trig_id] did not
    decrease. *)
Inductive grows (dc : Z) (P : flow → Prop) : state → state → Prop :=
  | grows_refl st : grows dc P st st
  | grows_flow st st1 st2 f :
      grows dc P st st1 →
      file st2 = file st1 ++ [LFlow f] →
      flow_id st2 = flow_id st1 + 1 → fl_id f = flow_id st2 →
      connections st2 = connections st1 + dc →
      trig_id st1 ≤ trig_id st2 → P f →
      grows dc P st st2
  | grows_silent st st1 st2 ls :
      grows dc P st st1 →
      file st2 = file st1 ++ ls → Forall quiet ls →
      flow_id st2 = flow_id st1 → connections st2 = connections st1 →
      trig_id st1 ≤ trig_id st2 →
      grows dc P st st2.

(** ** What the scripts promise about their files *)

(** Tree: the parent of node [i]. *)
Definition tree_parent (branch_factor i : Z) : Z := (i - 1) `div` branch_factor.

(** Tree: [children] and [parents] between two rounds of the second loop of
    the set-up, when the nodes of [done] have been linked. *)
Definition tree_built (nodes branch_factor : Z) (done : list Z)
    (cp : gmap Z (list Z) * gmap Z Z) : Prop :=
  (∀ p, cp.1 !! p =
        if decide (0 ≤ p < nodes)
        then Some (filter (λ i, tree_parent branch_factor i = p) done) else None) ∧
  (∀ i, cp.2 !! i = if decide (i ∈ done) then Some (tree_parent branch_factor i) else None) ∧
  (∀ i, i ∈ done → branch_factor ≠ 0 ∧ 0 ≤ tree_parent branch_factor i < nodes).

(** Tree: the upward flow of node [i], and what a downward flow looks
    like. *)
Definition tree_up_flow (nodes branch_factor flowsize i : Z) : flow :=
  {| src := i; dst := tree_parent branch_factor i; fl_id := nodes - i; start := Start0;
     size := flowsize; send_done_trigger := Some (nodes - i); sem := None |}.

Definition tree_down_flow (nodes branch_factor flowsize : Z) (f : flow) : Prop :=
  src f = tree_parent branch_factor (dst f) ∧ size f = flowsize ∧ sem f = None ∧
  (∃ g, start f = Trigger g ∧ 1 ≤ g ≤ fl_id f - (nodes - 1)) ∧
  (∀ t, send_done_trigger f = Some t → nodes ≤ t).

(** Tree: the children lists [children[0]], ..., [children[nodes - 1]] one
    after the other. *)
Definition tree_children_order (nodes branch_factor : Z) (parents : list Z) : list Z :=
  mjoin ((λ p, filter (λ i, tree_parent branch_factor i = p) (py_range2 1 nodes)) <$> parents).

(** Supernode: the flows of iteration [it] (from 0) for the regular nodes in
    the order [regular]; [n] is their number and [sn] the supernode. *)
Definition supernode_uplink (n sn flowsize it : Z) (p : Z * Z) : flow :=
  {| src := p.2; dst := sn; fl_id := 2 * n * it + p.1 + 1;
     start := if decide (it = 0) then Start0 else Trigger (2 * n * it + 1);
     size := flowsize; send_done_trigger := Some (2 * n * it + p.1 + 2); sem := None |}.

Definition supernode_downlink (n sn flowsize iterations it : Z) (p : Z * Z) : flow :=
  {| src := sn; dst := p.2; fl_id := 2 * n * it + n + p.1 + 1;
     start := Trigger (2 * n * it + n + p.1 + 1); size := flowsize;
     send_done_trigger :=
       if decide (p.1 = n - 1 ∧ it = iterations - 1) then None
       else Some (2 * n * it + n + p.1 + 2);
     sem := None |}.

Definition supernode_iteration (regular : list Z) (sn flowsize iterations it : Z) : list flow :=
  let n := Z.of_nat (length regular) in
  (supernode_uplink n sn flowsize it <$> py_enumerate regular) ++
  (supernode_downlink n sn flowsize iterations it <$> py_enumerate regular).

Definition supernode_schedule (regular : list Z) (sn flowsize iterations : Z) : list flow :=
  mjoin (supernode_iteration regular sn flowsize iterations <$> py_range iterations).


(** Inc: what a flow line looks like. *)
Definition inc_flow_ok (nodes k flowsize chunks fid iterations : Z) (f : flow) : Prop :=
  size f = flowsize ∧ is_Some (send_done_trigger f) ∧
  ∃ rid cid,
    1 ≤ rid ≤ iterations ∧ 0 ≤ cid < chunks ∧
    let agg := cid `mod` Inc.nodes_per_pod k in
    ((sem f = Some {| sem_dir := UP; sem_fid := fid; sem_rid := rid; sem_cid := cid |} ∧
      dst f = agg ∧ 0 ≤ src f < nodes ∧ src f ≠ agg) ∨
     (sem f = Some {| sem_dir := DOWN; sem_fid := fid; sem_rid := rid; sem_cid := cid |} ∧
      src f = agg ∧ 0 ≤ dst f < nodes ∧ dst f ≠ agg ∧ ∃ g, start f = Trigger g)).

(** Ring: what a flow line looks like. *)
Definition ring_flow (nodes flowsize : Z) (f : flow) : Prop :=
  0 ≤ src f < nodes ∧ 0 ≤ dst f < nodes ∧ sem f = None ∧
  (size f = flowsize ∨ size f = flowsize `div` 10).

(** The three phases of the Ring run on 3 nodes in one ring of 3. *)
Definition ring_3_3 : list flow * list flow * list flow :=
  default ([], [], []) (Ring.phase_flows (H:=Replay) [] 3 3 3 1000 0 0).

(** Every trigger the flow names, as its completion trigger or as its
    start gate, is declared in the file. *)
Definition refs_declared (ls : list line) (f : flow) : Prop :=
  (∀ t, send_done_trigger f = Some t → t ∈ declared_triggers ls) ∧
  (∀ t, start f = Trigger t → t ∈ declared_triggers ls).

(** Tree: an upward flow completes with one of the triggers
    1 .. [nodes - 1]; a downward flow waits for one of them, and completes
    with a trigger from [nodes] on. *)
Definition tree_gate_ok (nodes : Z) (f : flow) : Prop :=
  match start f with
  | Start0 => ∃ t, send_done_trigger f = Some t ∧ 1 ≤ t ≤ nodes - 1
  | Trigger g => 1 ≤ g ≤ nodes - 1 ∧ ∀ t, send_done_trigger f = Some t → nodes ≤ t
  | TriggerNone => False
  end.

(** The completion triggers the flows of a file attach, in the order of
    the file. *)
Definition completion_triggers (ls : list line) : list Z :=
  omap send_done_trigger (flows_of ls).

(** The completion triggers written so far increase strictly and lie
    below [b]. *)
Definition fired_below (b : Z) (st : state) : Prop :=
  StronglySorted Z.lt (completion_triggers (file st)) ∧
  Forall (λ t, t < b) (completion_triggers (file st)).

(** Inc: source and destination of the flows of chunk [c], and of the whole
    file: every host but the aggregator sends to the aggregator, then the
    aggregator sends to every host but itself; chunk after chunk, iteration
    after iteration. *)
Definition inc_chunk_topology (nodes k c : Z) : list (Z * Z) :=
  let agg := c `mod` Inc.nodes_per_pod k in
  let others := filter (λ h, h ≠ agg) (py_range nodes) in
  ((λ h, (h, agg)) <$> others) ++ ((λ h, (agg, h)) <$> others).

Definition inc_topology (nodes k chunks iterations : Z) : list (Z * Z) :=
  mjoin ((λ _ : Z, mjoin (inc_chunk_topology nodes k <$> py_range chunks))
           <$> py_range iterations).

(** * Proofs *)

(** ** Loops *)

(** The invariant rule: [I pre s] holds when the loop has run over the
    prefix [pre] of [xs]. *)
Lemma for_each_inv {S A} (body : A → S → option S) (I : list A → S → Prop) xs s s' :
  I [] s →
  (∀ pre x post s1 s2,
     xs = pre ++ x :: post → I pre s1 → body x s1 = Some s2 → I (pre ++ [x]) s2) →
  for_each body xs s = Some s' → I xs s'.
Proof.
  intros H0 Hstep.
  assert (∀ post pre s1, xs = pre ++ post → I pre s1 →
            for_each body post s1 = Some s' → I xs s') as Hgen.
  { induction post as [|x post IH]; intros pre s1 Hxs HI Hrun; simpl in Hrun.
    - rewrite app_nil_r in Hxs. by simplify_eq.
    - destruct (body x s1) as [s2|] eqn:Hb; simpl in Hrun; [|done].
      apply (IH (pre ++ [x]) s2); [by rewrite <- app_assoc| |done].
      by eapply Hstep. }
  by apply (Hgen xs [] s).
Qed.

(** The same rule for an invariant that does not mention the position. *)
Lemma for_each_inv0 {S A} (body : A → S → option S) (I : S → Prop) xs s s' :
  I s →
  (∀ x s1 s2, x ∈ xs → I s1 → body x s1 = Some s2 → I s2) →
  for_each body xs s = Some s' → I s'.
Proof.
  intros H0 Hstep. apply (for_each_inv body (λ _, I)); [done|].
  intros pre x post s1 s2 -> HI Hb. eapply Hstep; [|done..].
  apply elem_of_app. right. apply elem_of_cons. by left.
Qed.

(** Positions in [range]. *)
Lemma py_range_split n pre x post :
  py_range n = pre ++ x :: post → x = Z.of_nat (length pre) ∧ 0 ≤ x < n.
Proof.
  unfold py_range. intros Heq.
  assert (seqZ 0 n !! length pre = Some x) as Hl.
  { rewrite Heq. by rewrite list_lookup_middle. }
  apply lookup_seqZ in Hl. lia.
Qed.

Lemma elem_of_py_range n x : x ∈ py_range n ↔ 0 ≤ x < n.
Proof. unfold py_range. rewrite elem_of_seqZ. lia. Qed.

Lemma elem_of_py_range2 a b x : x ∈ py_range2 a b ↔ a ≤ x < b.
Proof. unfold py_range2. rewrite elem_of_seqZ. lia. Qed.

(** ** Files *)

Lemma flows_of_app l1 l2 : flows_of (l1 ++ l2) = flows_of l1 ++ flows_of l2.
Proof. apply omap_app. Qed.

Lemma declared_triggers_app l1 l2 :
  declared_triggers (l1 ++ l2) = declared_triggers l1 ++ declared_triggers l2.
Proof. apply omap_app. Qed.

Lemma flows_of_triggers ts : flows_of (LTrigger <$> ts) = [].
Proof. induction ts; simpl; auto. Qed.

Lemma declared_triggers_triggers ts : declared_triggers (LTrigger <$> ts) = ts.
Proof. induction ts; simpl; [done|]. unfold declared_triggers in *. simpl. by f_equal. Qed.

Lemma trigger_section_file st :
  file (trigger_section st) = file st ++ (LTrigger <$> py_range2 1 (trig_id st + 1)).
Proof.
  unfold trigger_section. generalize (py_range2 1 (trig_id st + 1)) as ts.
  intros ts. revert st. induction ts as [|t ts IH]; intros st; simpl.
  - by rewrite app_nil_r.
  - rewrite IH. simpl. by rewrite <- app_assoc.
Qed.

Lemma counted_trigger_section_file st :
  file (counted_trigger_section st).1 = file st ++ (LTrigger <$> py_range2 1 (trig_id st + 1)).
Proof.
  unfold counted_trigger_section. generalize (py_range2 1 (trig_id st + 1)) as ts.
  generalize 0 as n. intros n ts. revert st n.
  induction ts as [|t ts IH]; intros st n; simpl.
  - by rewrite app_nil_r.
  - rewrite IH. simpl. by rewrite <- app_assoc.
Qed.

Lemma flows_of_insert_header c t ls : flows_of (insert_header c t ls) = flows_of ls.
Proof.
  unfold insert_header. rewrite !flows_of_app. simpl.
  rewrite <- flows_of_app. by rewrite take_drop.
Qed.

Lemma declared_triggers_insert_header c t ls :
  declared_triggers (insert_header c t ls) = declared_triggers ls.
Proof.
  unfold insert_header. rewrite !declared_triggers_app. simpl.
  rewrite <- declared_triggers_app. by rewrite take_drop.
Qed.

(** ** Ordered triggers give an acyclic graph *)

Lemma flows_ok_mono lo hi hi' fs : hi ≤ hi' → flows_ok lo hi fs → flows_ok lo hi' fs.
Proof.
  intros Hle Hok f Hf. destruct (Hok f Hf) as [H1 H2]. split.
  - intros t Ht. specialize (H1 t Ht). lia.
  - intros g Hg. destruct (H2 g Hg) as [? ?]. split; [lia|done].
Qed.

Lemma flows_ok_snoc lo hi fs f : flows_ok lo hi fs → flow_ok lo hi f → flows_ok lo hi (fs ++ [f]).
Proof.
  intros Hok Hf f' [Hin|Hin%list_elem_of_singleton]%elem_of_app; [by apply Hok|by subst].
Qed.

Lemma flows_ok_nil lo hi : flows_ok lo hi [].
Proof. intros f Hf. by apply not_elem_of_nil in Hf. Qed.

Lemma flows_ok_acyclic lo hi fs : flows_ok lo hi fs → acyclic fs.
Proof.
  intros Hok.
  assert (∀ x y, tc (gates fs) x y →
            ∃ tx gy, send_done_trigger x = Some tx ∧ start y = Trigger gy ∧ y ∈ fs ∧ tx ≤ gy)
    as Hpath.
  { induction 1 as [x y (Hx & Hy & t & Hd & Hs)|x y z (Hx & Hy & t & Hd & Hs) _ IH].
    - exists t, t. repeat split; [done..|lia].
    - destruct IH as (ty & gz & Hdy & Hsz & Hz & Hle).
      exists t, gz. repeat split; [done..|].
      destruct (Hok y Hy) as [_ H2]. destruct (H2 t Hs) as [_ H3].
      specialize (H3 ty Hdy). lia. }
  intros x Hc. destruct (Hpath x x Hc) as (tx & gx & Hd & Hs & Hx & Hle).
  destruct (Hok x Hx) as [_ H2]. destruct (H2 gx Hs) as [_ H3].
  specialize (H3 tx Hd). lia.
Qed.

Lemma flows_of_print_flow st f :
  flows_of (file (print (LFlow f) st)) = flows_of (file st) ++ [f].
Proof. simpl. by rewrite flows_of_app. Qed.

Lemma flows_of_print_comment st s :
  flows_of (file (print (LComment s) st)) = flows_of (file st).
Proof. simpl. rewrite flows_of_app. simpl. by rewrite app_nil_r. Qed.

Lemma flows_of_print_blank st :
  flows_of (file (print LBlank st)) = flows_of (file st).
Proof. simpl. rewrite flows_of_app. simpl. by rewrite app_nil_r. Qed.

(** ** Tree: every trigger of a flow is below the final counter *)

Lemma tree_children_init (xs : list Z) (m : gmap Z (list Z)) p kids :
  (∀ q ks, m !! q = Some ks → ks = []) →
  foldl (λ ch i, <[i := []]> ch) m xs !! p = Some kids → kids = [].
Proof.
  revert m. induction xs as [|x xs IH]; intros m Hm; simpl.
  - apply Hm.
  - apply IH. intros q ks. rewrite lookup_insert. case_decide; [congruence|apply Hm].
Qed.

Lemma tree_children_range nodes branch_factor ch ps p kids c :
  Tree.build nodes branch_factor = Some (ch, ps) →
  ch !! p = Some kids → c ∈ kids → 1 ≤ c < nodes.
Proof.
  unfold Tree.build. intros Hb.
  revert p kids c.
  change (∀ p kids c, (ch, ps).1 !! p = Some kids → c ∈ kids → 1 ≤ c < nodes).
  revert Hb. generalize (ch, ps). intros cp Hb.
  eapply (for_each_inv0 _ (λ cp : gmap Z (list Z) * gmap Z Z,
            ∀ p kids c, cp.1 !! p = Some kids → c ∈ kids → 1 ≤ c < nodes)); [| |exact Hb].
  - simpl. intros p kids c Hl Hc.
    apply tree_children_init in Hl; [subst; by apply not_elem_of_nil in Hc|].
    intros q ks. by rewrite lookup_empty.
  - intros i [ch1 ps1] [ch2 ps2] Hi HI Hlink p kids c. simpl in *.
    unfold Tree.link, py_floordiv in Hlink. case_decide; simplify_option_eq.
    rewrite lookup_insert. case_decide.
    + intros [= <-] [Hc|Hc%list_elem_of_singleton]%elem_of_app.
      * eapply HI; [|done]. by subst.
      * subst. by apply elem_of_py_range2 in Hi.
    + intros. by eapply HI.
Qed.

Lemma tree_up_ok parents flowsize xs st st' :
  1 ≤ trig_id st → tree_ok st →
  for_each (Tree.up_step parents flowsize) xs st = Some st' →
  tree_ok st' ∧ trig_id st' = trig_id st + Z.of_nat (length xs).
Proof.
  intros H1 Hok.
  apply (for_each_inv _ (λ pre s, tree_ok s ∧ trig_id s = trig_id st + Z.of_nat (length pre))).
  - split; [done|simpl; lia].
  - intros pre x post s1 s2 _ [Hs1 Ht] Hstep.
    unfold Tree.up_step in Hstep. simplify_option_eq.
    rewrite length_app. simpl. split; [|lia].
    unfold tree_ok. simpl. rewrite flows_of_app. simpl.
    apply flows_ok_snoc.
    + eapply flows_ok_mono; [|exact Hs1]. lia.
    + split; simpl; [|done]. intros t [= <-]. lia.
Qed.

Lemma tree_down_ok children nodes branch_factor ps flowsize st st' :
  Tree.build nodes branch_factor = Some (children, ps) →
  nodes ≤ trig_id st → tree_ok st →
  for_each (Tree.down_parent children nodes flowsize) (py_range nodes) st = Some st' →
  tree_ok st' ∧ trig_id st ≤ trig_id st'.
Proof.
  intros Hb Hn Hok.
  pose (I := λ s, tree_ok s ∧ nodes ≤ trig_id s ∧ trig_id st ≤ trig_id s).
  intros Hrun. cut (I st'); [unfold I; tauto|]. revert Hrun.
  apply (for_each_inv0 _ I); [unfold I; auto with lia|].
  intros parent s1 s2 _ HI Hpar.
  unfold Tree.down_parent in Hpar.
  destruct (children !! parent) as [kids|] eqn:Hk; simpl in Hpar; [|done].
  revert Hpar. apply (for_each_inv0 _ I); [done|].
  intros child s3 s4 Hc (Hs3 & Hn3 & Hm3) Hstep.
  pose proof (tree_children_range _ _ _ _ _ _ _ Hb Hk Hc) as Hrange.
  unfold Tree.down_step in Hstep.
  destruct (py_index kids (-1)) as [last_kid|]; simpl in Hstep; [|done].
  unfold I.
  case_decide; simplify_eq; simpl; unfold tree_ok; simpl; rewrite flows_of_app; simpl.
  - split; [|lia]. apply flows_ok_snoc.
    + eapply flows_ok_mono; [|exact Hs3]. lia.
    + split; simpl.
      * intros t [= <-]. lia.
      * intros g [= <-]. split; [lia|]. intros t [= <-]. lia.
  - split; [|lia]. apply flows_ok_snoc; [done|].
    split; simpl; [done|]. intros g [= <-]. split; [lia|done].
Qed.

Lemma tree_phases_ok nodes branch_factor flowsize st0 st1 st2 :
  Tree.phases nodes branch_factor flowsize = Some (st0, st1, st2) →
  tree_ok st2 ∧ 1 ≤ trig_id st2.
Proof.
  unfold Tree.phases. intros Hp.
  destruct (Tree.build nodes branch_factor) as [[children parents]|] eqn:Hb;
    simpl in Hp; [|done].
  match type of Hp with context [for_each (Tree.up_step _ _) ?xs ?s] =>
    destruct (for_each (Tree.up_step parents flowsize) xs s) as [s1|] eqn:Hup
  end; simpl in Hp; [|done].
  match type of Hp with context [for_each (Tree.down_parent _ _ _) ?xs ?s] =>
    destruct (for_each (Tree.down_parent children nodes flowsize) xs s) as [s2|] eqn:Hdown
  end; simpl in Hp; [|done].
  simplify_eq.
  apply tree_up_ok in Hup as [Hok1 Ht1]; simpl; [|lia|apply flows_ok_nil].
  simpl in Ht1. rewrite length_reverse in Ht1. unfold py_range2 in Ht1.
  rewrite length_seqZ in Ht1.
  eapply tree_down_ok in Hdown as [Hok2 Ht2]; [split; [done|]|done|..].
  - simpl in Ht2. lia.
  - simpl. lia.
  - unfold tree_ok in *. simpl. rewrite flows_of_app. simpl. by rewrite app_nil_r.
Qed.

(** ** Counters bound the triggers of the file *)

Lemma file_ok_emit lo st st' f :
  file_ok lo st → trig_id st ≤ trig_id st' → file st' = file st ++ [LFlow f] →
  flow_ok lo (trig_id st') f → file_ok lo st'.
Proof.
  intros [H1 Hok] Hle Hfile Hf. split; [lia|].
  rewrite Hfile, flows_of_app. simpl. apply flows_ok_snoc; [|done].
  by eapply flows_ok_mono.
Qed.

Lemma file_ok_same lo st st' :
  file_ok lo st → trig_id st ≤ trig_id st' → flows_of (file st') = flows_of (file st) →
  file_ok lo st'.
Proof.
  intros [H1 Hok] Hle Hfile. split; [lia|]. rewrite Hfile. by eapply flows_ok_mono.
Qed.

Lemma opt_in_mono lo hi hi' o : hi ≤ hi' → opt_in lo hi o → opt_in lo hi' o.
Proof. intros Hle Ho t Ht. specialize (Ho t Ht). lia. Qed.

Lemma all_in_mono lo hi hi' l : hi ≤ hi' → all_in lo hi l → all_in lo hi' l.
Proof. intros Hle Hl t Ht. specialize (Hl t Ht). lia. Qed.

Lemma all_in_snoc lo hi l t : all_in lo hi l → lo ≤ t ≤ hi → all_in lo hi (l ++ [t]).
Proof.
  intros Hl Ht t' [Hin|Hin%list_elem_of_singleton]%elem_of_app; [by apply Hl|by subst].
Qed.

Lemma all_in_nil lo hi : all_in lo hi [].
Proof. intros t Ht. by apply not_elem_of_nil in Ht. Qed.

Lemma py_index_elem {A} (l : list A) i x : py_index l i = Some x → x ∈ l.
Proof.
  unfold py_index. repeat case_decide; [| |done]; apply list_elem_of_lookup_2.
Qed.

Lemma gate_of_ok lo hi o t :
  opt_in lo hi o → hi < t → ∀ g, gate_of o = Trigger g → lo ≤ g ≤ hi ∧ g < t.
Proof.
  intros Ho Hlt g. destruct o as [t'|]; simpl; [|done].
  intros [= <-]. specialize (Ho t' eq_refl). lia.
Qed.

(** ** Supernode *)

Lemma supernode_phase1_ok supernode_id flowsize iteration nit xs st st' l' :
  file_ok 2 st → opt_in 2 (trig_id st) nit →
  for_each (Supernode.phase1_step supernode_id flowsize iteration nit) xs (st, []) = Some (st', l') →
  file_ok 2 st' ∧ all_in 2 (trig_id st') l'.
Proof.
  intros Hok Hnit Hrun.
  pose (I := λ sl : state * list Z,
          file_ok 2 sl.1 ∧ all_in 2 (trig_id sl.1) sl.2 ∧ trig_id st ≤ trig_id sl.1).
  cut (I (st', l')); [unfold I; simpl; tauto|]. revert Hrun.
  apply (for_each_inv0 _ I).
  { unfold I. simpl. split_and!; [done|apply all_in_nil|lia]. }
  intros [i node] [s1 l1] [s2 l2] _ (Hs1 & Hl1 & Hm1) Hstep. simpl in *.
  unfold Supernode.phase1_step in Hstep. simplify_eq. unfold I. simpl.
  destruct Hs1 as [Ht1 Hf1].
  split_and!; [|apply all_in_snoc; [eapply all_in_mono; [|done]|]|]; try lia.
  eapply (file_ok_emit _ s1); [done|simpl; lia|simpl; reflexivity|].
  simpl. split; simpl.
  - intros t [= <-]. lia.
  - intros g Hg. split.
    + repeat case_decide; try done;
        eapply (gate_of_ok 2 (trig_id s1) nit (trig_id s1 + 1)) in Hg;
        try lia; by eapply opt_in_mono.
    + intros t [= <-].
      repeat case_decide; try done;
        eapply (gate_of_ok 2 (trig_id s1) nit (trig_id s1 + 1)) in Hg;
        try lia; by eapply opt_in_mono.
Qed.

Lemma supernode_phase2_ok supernode_id flowsize iteration iterations n xs st o st' o' :
  file_ok 2 st → opt_in 2 (trig_id st) o →
  for_each (Supernode.phase2_step supernode_id flowsize iteration iterations n) xs (st, o)
    = Some (st', o') →
  file_ok 2 st' ∧ opt_in 2 (trig_id st') o'.
Proof.
  intros Hok Ho Hrun.
  pose (I := λ sl : state * option Z, file_ok 2 sl.1 ∧ opt_in 2 (trig_id sl.1) sl.2).
  cut (I (st', o')); [done|]. revert Hrun.
  apply (for_each_inv0 _ I); [done|].
  intros [i dest] [s1 o1] [s2 o2] _ [Hs1 Ho1] Hstep. simpl in *.
  unfold Supernode.phase2_step in Hstep. unfold I. simpl.
  destruct Hs1 as [Ht1 Hf1].
  repeat case_decide; simplify_eq; simpl.
  1,2: split; [|intros t [= <-]; lia];
    eapply (file_ok_emit _ s1); [done|simpl; lia|simpl; reflexivity|];
    split; simpl; [intros t [= <-]; lia|];
    intros g Hg; eapply (gate_of_ok 2 (trig_id s1) o1 (trig_id s1 + 1)) in Hg; [|done|lia];
    split; [lia|]; intros t [= <-]; lia.
  split; [|done].
  eapply (file_ok_emit _ s1); [done|simpl; lia|simpl; reflexivity|].
  split; simpl; [done|].
  intros g Hg. eapply (gate_of_ok 2 (trig_id s1) o1 (trig_id s1 + 1)) in Hg; [|done|lia].
  split; [lia|done].
Qed.

Lemma supernode_body_ok `{Random} g nodes flowsize iterations randseed st :
  Supernode.body g nodes flowsize iterations randseed = Some st → file_ok 2 st.
Proof.
  unfold Supernode.body. intros Hb.
  apply fmap_Some in Hb as ([st' nit'] & Hrun & ->). simpl.
  pose (I := λ sn : state * option Z, file_ok 2 sn.1 ∧ opt_in 2 (trig_id sn.1) sn.2).
  cut (I (st', nit')); [unfold I; simpl; tauto|]. revert Hrun.
  apply (for_each_inv0 _ I).
  { split; simpl; [|done]. split; simpl; [lia|apply flows_ok_nil]. }
  intros iteration [s1 n1] [s2 n2] _ [Hs1 Hn1] Hstep. simpl in *.
  unfold Supernode.iteration_body in Hstep.
  match type of Hstep with context [for_each ?b ?xs ?s] =>
    destruct (for_each b xs s) as [[s3 l3]|] eqn:Hp1
  end; simpl in Hstep; [|done].
  destruct (py_index l3 (-1)) as [t3|] eqn:Hl3; simpl in Hstep; [|done].
  apply supernode_phase1_ok in Hp1 as [Hs3 Hall]; [|done..].
  apply supernode_phase2_ok in Hstep; [done..|].
  intros t [= <-]. apply Hall. by eapply py_index_elem.
Qed.

(** ** Inc *)

Lemma slots_in_mono hi hi' l : hi ≤ hi' → slots_in hi l → slots_in hi' l.
Proof. intros Hle Hl t Ht. specialize (Hl t Ht). lia. Qed.

Lemma py_setitem_elem {A} (l l' : list A) i v x :
  py_setitem l i v = Some l' → x ∈ l' → x = v ∨ x ∈ l.
Proof.
  unfold py_setitem. intros Hs Hx.
  assert (∃ n, l' = <[n:=v]> l) as [n ->].
  { repeat case_decide; simplify_eq; eauto. }
  apply list_elem_of_lookup in Hx as [j Hj].
  apply list_lookup_insert_Some in Hj as [(_ & -> & _)|[_ Hj]]; [by left|].
  right. by eapply list_elem_of_lookup_2.
Qed.

Lemma start_or_trigger_str_ok hi o t :
  opt_in 2 hi o → hi < t →
  ∀ g, Inc.start_or_trigger_str o = Trigger g → 2 ≤ g ≤ hi ∧ g < t.
Proof.
  intros Ho Hlt g. destruct o as [t'|]; simpl; [|done].
  case_decide; [done|]. intros [= <-]. specialize (Ho t' eq_refl). lia.
Qed.

Lemma inc_up_ok flowsize fid rid c dst_agg cst xs st st' o' :
  file_ok 2 st → opt_in 2 (trig_id st) cst →
  for_each (Inc.up_step flowsize fid rid c dst_agg cst) xs (st, None) = Some (st', o') →
  file_ok 2 st' ∧ opt_in 2 (trig_id st') o' ∧ trig_id st ≤ trig_id st'.
Proof.
  intros Hok Hc Hrun.
  pose (I := λ sl : state * option Z,
          file_ok 2 sl.1 ∧ opt_in 2 (trig_id sl.1) sl.2 ∧ trig_id st ≤ trig_id sl.1).
  cut (I (st', o')); [done|]. revert Hrun.
  apply (for_each_inv0 _ I); [unfold I; simpl; split_and!; [done|done|lia]|].
  intros x [s1 o1] [s2 o2] _ (Hs1 & Ho1 & Hm1) Hstep. simpl in *.
  unfold Inc.up_step in Hstep. unfold I.
  case_decide; simplify_eq; simpl; [done|].
  pose proof Hs1 as [Ht1 _].
  split_and!; [|intros t [= <-]; lia|lia].
  eapply (file_ok_emit _ s1); [done|simpl; lia|simpl; reflexivity|].
  split; simpl.
  - intros t [= <-]. lia.
  - intros g Hg.
    eapply (start_or_trigger_str_ok (trig_id s1) cst (trig_id s1 + 1)) in Hg;
      [|eapply opt_in_mono; [|exact Hc]; lia|lia].
    split; [lia|]. intros t [= <-]. lia.
Qed.

Lemma inc_down_ok flowsize fid rid c dst_agg lut xs st st' o' :
  file_ok 2 st → 2 ≤ lut ≤ trig_id st →
  for_each (Inc.down_step flowsize fid rid c dst_agg lut) xs (st, None) = Some (st', o') →
  file_ok 2 st' ∧ opt_in 2 (trig_id st') o' ∧ trig_id st ≤ trig_id st'.
Proof.
  intros Hok Hc Hrun.
  pose (I := λ sl : state * option Z,
          file_ok 2 sl.1 ∧ opt_in 2 (trig_id sl.1) sl.2 ∧ trig_id st ≤ trig_id sl.1).
  cut (I (st', o')); [done|]. revert Hrun.
  apply (for_each_inv0 _ I); [unfold I; simpl; split_and!; [done|done|lia]|].
  intros x [s1 o1] [s2 o2] _ (Hs1 & Ho1 & Hm1) Hstep. simpl in *.
  unfold Inc.down_step in Hstep. unfold I.
  case_decide; simplify_eq; simpl; [done|].
  pose proof Hs1 as [Ht1 _].
  split_and!; [|intros t [= <-]; lia|lia].
  eapply (file_ok_emit _ s1); [done|simpl; lia|simpl; reflexivity|].
  split; simpl.
  - intros t [= <-]. lia.
  - intros g [= <-]. split; [lia|]. intros t [= <-]. lia.
Qed.

Local Arguments Inc.or_synthetic : simpl never.

Lemma or_synthetic_ok st o st' t :
  file_ok 2 st → opt_in 2 (trig_id st) o → Inc.or_synthetic (st, o) = (st', t) →
  file_ok 2 st' ∧ 2 ≤ t ≤ trig_id st' ∧ trig_id st ≤ trig_id st' ∧ file st' = file st.
Proof.
  intros Hok Ho. unfold Inc.or_synthetic. destruct o as [t'|]; simpl; intros [= <- <-].
  - pose proof (Ho t' eq_refl). split_and!; (done || lia).
  - pose proof Hok as [Ht _]. simpl.
    split_and!; try lia; try done. eapply file_ok_same; [done|simpl; lia|done].
Qed.

Lemma py_setitem_length {A} (l l' : list A) i v :
  py_setitem l i v = Some l' → length l' = length l.
Proof.
  unfold py_setitem. intros Hs. repeat case_decide; simplify_eq; apply length_insert.
Qed.

Lemma py_setitem_lookup {A} (l l' : list A) i v j :
  0 ≤ i → py_setitem l i v = Some l' →
  l' !! j = if decide (j = Z.to_nat i) then Some v else l !! j.
Proof.
  unfold py_setitem. intros Hi Hs. repeat case_decide; simplify_eq; try lia.
  - apply list_lookup_insert_eq. lia.
  - by apply list_lookup_insert_ne.
Qed.

(** One chunk keeps the bounds, and its slot holds a trigger afterwards. *)
Lemma inc_chunk_ok hosts k flowsize fid window rid c v v' :
  inc_ok v → Inc.chunk_body hosts k flowsize fid window rid c v = Some v' →
  inc_ok v' ∧
  length (Inc.last_downlink_trigger v') = length (Inc.last_downlink_trigger v) ∧
  ∃ t, py_setitem (Inc.last_downlink_trigger v) c t = Some (Inc.last_downlink_trigger v')
       ∧ 2 ≤ t.
Proof.
  intros (Hok & Hslots & Hist) Hc. unfold Inc.chunk_body in Hc.
  match type of Hc with (?e ≫= _) = _ => destruct e as [cst|] eqn:Hcst end;
    simpl in Hc; [|done].
  assert (opt_in 2 (trig_id (Inc.st v)) cst) as Hcst_ok.
  { case_decide; simplify_eq; [done|].
    destruct (py_index _ _) as [prev_t|] eqn:Hp; simplify_eq/=.
    case_decide; [|done]. intros t [= <-].
    destruct (Hslots prev_t (py_index_elem _ _ _ Hp)); [done|lia]. }
  destruct (Inc.chunk_to_agg_node k c) as [dst_agg|]; simpl in Hc; [|done].
  match type of Hc with context [for_each ?b ?xs ?s] =>
    destruct (for_each b xs s) as [[s1 o1]|] eqn:Hup
  end; simpl in Hc; [|done].
  apply inc_up_ok in Hup as (Hs1 & Ho1 & Hm1); [|done..].
  destruct (Inc.or_synthetic (s1, o1)) as [s2 lut] eqn:Hsyn1.
  apply or_synthetic_ok in Hsyn1 as (Hs2 & Hlut & Hm2 & _); [|done..].
  match type of Hc with context [for_each ?b ?xs ?s] =>
    destruct (for_each b xs s) as [[s3 o3]|] eqn:Hdown
  end; simpl in Hc; [|done].
  apply inc_down_ok in Hdown as (Hs3 & Ho3 & Hm3); [|done..].
  destruct (Inc.or_synthetic (s3, o3)) as [s4 ldt] eqn:Hsyn2.
  apply or_synthetic_ok in Hsyn2 as (Hs4 & Hldt & Hm4 & _); [|done..].
  destruct (py_setitem _ _ _) as [l'|] eqn:Hset; simplify_eq/=.
  split_and!; simpl.
  - split_and!; simpl.
    + done.
    + intros t Ht. destruct (py_setitem_elem _ _ _ _ _ Hset Ht) as [->|Ht']; [right; lia|].
      destruct (Hslots t Ht'); [by left|right; lia].
    + eapply opt_in_mono; [|done]. lia.
  - by eapply py_setitem_length.
  - exists ldt. split; [done|lia].
Qed.

(** After the chunk loop every slot holds a trigger. *)
Lemma inc_chunks_ok hosts k flowsize fid window rid chunks v v' :
  inc_ok v → length (Inc.last_downlink_trigger v) = Z.to_nat chunks →
  for_each (Inc.chunk_body hosts k flowsize fid window rid) (py_range chunks) v = Some v' →
  inc_ok v' ∧ length (Inc.last_downlink_trigger v') = Z.to_nat chunks ∧
  ∀ t, t ∈ Inc.last_downlink_trigger v' → 2 ≤ t.
Proof.
  intros Hok Hlen Hrun.
  pose (I := λ (pre : list Z) (u : Inc.vars),
          inc_ok u ∧ length (Inc.last_downlink_trigger u) = Z.to_nat chunks ∧
          ∀ j t, (j < length pre)%nat → Inc.last_downlink_trigger u !! j = Some t → 2 ≤ t).
  assert (I (py_range chunks) v') as (Hok' & Hlen' & Hall).
  { revert Hrun. apply (for_each_inv _ I).
    - split_and!; [done..|]. simpl. intros; lia.
    - intros pre c post v1 v2 Hsplit (Hok1 & Hlen1 & Hall1) Hstep.
      apply py_range_split in Hsplit as [-> Hc].
      apply inc_chunk_ok in Hstep as (Hok2 & Hlen2 & t & Hset & Ht); [|done].
      split_and!; [done|congruence|].
      assert (0 ≤ Z.of_nat (length pre)) as H0 by lia.
      intros j t' Hj. rewrite (py_setitem_lookup _ _ _ _ j H0 Hset).
      rewrite Nat2Z.id. rewrite length_app in Hj. simpl in Hj.
      case_decide; [intros [= <-]; lia|]. apply Hall1. lia. }
  split_and!; [done..|].
  intros t [j Hj]%list_elem_of_lookup. eapply Hall; [|done].
  apply lookup_lt_Some in Hj. unfold py_range. rewrite length_seqZ. lia.
Qed.

Lemma inc_body_ok nodes k flowsize chunks fid iterations window v :
  Inc.body nodes k flowsize chunks fid iterations window = Some v → inc_ok v.
Proof.
  unfold Inc.body. intros Hrun.
  pose (I := λ u : Inc.vars,
          inc_ok u ∧ length (Inc.last_downlink_trigger u) = Z.to_nat chunks).
  cut (I v); [unfold I; tauto|]. revert Hrun. apply (for_each_inv0 _ I).
  { split; [|simpl; apply length_replicate]. split_and!; simpl.
    - split; simpl; [lia|apply flows_ok_nil].
    - intros t Ht%elem_of_replicate. left. tauto.
    - done. }
  intros it v1 v2 _ [(Hok & Hslots & Hist) Hlen] Hit. unfold Inc.iteration_body in Hit.
  match type of Hit with context [for_each ?b ?xs ?s] =>
    destruct (for_each b xs s) as [v3|] eqn:Hchunks
  end; simpl in Hit; [|done].
  apply inc_chunks_ok in Hchunks as ((Hok3 & Hslots3 & Hist3) & Hlen3 & Hall3).
  - destruct (py_index _ _) as [t|] eqn:Ht; simplify_eq/=.
    split; [|done]. split_and!; simpl; [done..|].
    intros t' [= <-]. pose proof (py_index_elem _ _ _ Ht) as Hin.
    specialize (Hall3 t Hin). destruct (Hslots3 t Hin); lia.
  - split_and!; simpl; [|done..].
    eapply file_ok_same; [exact Hok|done|].
    simpl. rewrite !flows_of_app. simpl. by rewrite !app_nil_r.
  - done.
Qed.

(** ** Ring *)

Lemma ring_step_ok groupsize flowsize groupsrcs s d st st' :
  file_ok 0 st → Ring.step groupsize flowsize groupsrcs s d st = Some st' →
  file_ok 0 st' ∧ trig_id st ≤ trig_id st'.
Proof.
  intros Hok Hstep. pose proof Hok as [Ht _]. unfold Ring.step in Hstep.
  destruct (py_mod (s + d - 1) groupsize) as [isrc|]; simpl in Hstep; [|done].
  destruct (py_mod (s + d) groupsize) as [idst|]; simpl in Hstep; [|done].
  destruct (py_index groupsrcs isrc) as [a|]; simpl in Hstep; [|done].
  destruct (py_index groupsrcs idst) as [b|]; simpl in Hstep; [|done].
  repeat case_decide; simplify_eq; simpl; (split; [|lia]);
    (eapply (file_ok_emit _ st); [done|simpl; lia|simpl; reflexivity|]);
    split; simpl; intros; simplify_eq; try split; intros; simplify_eq; lia.
Qed.

Lemma ring_phase1_ok srcs groupsize flowsize locality xs st st' ge' :
  file_ok 0 st →
  for_each (Ring.phase1_group srcs groupsize flowsize locality) xs (st, []) = Some (st', ge') →
  file_ok 0 st' ∧ all_in 0 (trig_id st') ge'.
Proof.
  intros Hok Hrun.
  pose (I := λ sl : state * list Z, file_ok 0 sl.1 ∧ all_in 0 (trig_id sl.1) sl.2).
  cut (I (st', ge')); [done|]. revert Hrun.
  apply (for_each_inv0 _ I); [split; [done|apply all_in_nil]|].
  intros group [s1 l1] [s2 l2] _ [Hs1 Hl1] Hgrp. simpl in *.
  unfold Ring.phase1_group in Hgrp.
  destruct (Ring.group_members srcs groupsize group) as [members|]; simpl in Hgrp; [|done].
  match type of Hgrp with context [for_each ?b ?xs ?s] =>
    destruct (for_each b xs s) as [s3|] eqn:Hloop
  end; simplify_eq/=.
  assert (file_ok 0 s2 ∧ trig_id s1 ≤ trig_id s2) as [Hs2 Hm].
  { revert Hloop.
    apply (for_each_inv0 _ (λ s, file_ok 0 s ∧ trig_id s1 ≤ trig_id s)); [split; [done|lia]|].
    intros s s3 s4 _ HI. 
    apply (for_each_inv0 _ (λ s, file_ok 0 s ∧ trig_id s1 ≤ trig_id s)); [done|].
    intros d s5 s6 _ [Hs5 Hm5] Hstep. apply ring_step_ok in Hstep as [? ?]; [|done].
    split; [done|lia]. }
  split; [done|]. pose proof Hs2 as [Ht2 _]. simpl.
  apply all_in_snoc; [|lia]. eapply all_in_mono; [|done]. lia.
Qed.

Lemma ring_phase2_ok srcs groups groupsize flowsize ge xs st st' lt' :
  file_ok 0 st → all_in 0 (trig_id st) ge →
  for_each (Ring.phase2_group srcs groups groupsize flowsize ge) xs (st, []) = Some (st', lt') →
  file_ok 0 st' ∧ all_in 0 (trig_id st') lt'.
Proof.
  intros Hok Hge Hrun.
  pose (I := λ sl : state * list Z,
          file_ok 0 sl.1 ∧ all_in 0 (trig_id sl.1) sl.2 ∧ trig_id st ≤ trig_id sl.1).
  cut (I (st', lt')); [unfold I; simpl; tauto|]. revert Hrun.
  apply (for_each_inv0 _ I); [split_and!; [done|apply all_in_nil|simpl; lia]|].
  intros g [s1 l1] [s2 l2] _ (Hs1 & Hl1 & Hm1) Hgrp. simpl in *.
  unfold Ring.phase2_group in Hgrp.
  destruct (py_index srcs (g * groupsize)) as [leader|]; simpl in Hgrp; [|done].
  destruct (py_mod (g + 1) groups) as [m|]; simpl in Hgrp; [|done].
  destruct (py_index srcs (m * groupsize)) as [next_leader|]; simpl in Hgrp; [|done].
  destruct (py_index ge g) as [gate|] eqn:Hgate; simplify_eq/=.
  pose proof Hs1 as [Ht1 _]. pose proof (Hge gate (py_index_elem _ _ _ Hgate)) as Hg.
  unfold I. simpl. split_and!; [| |lia].
  - eapply (file_ok_emit _ s1); [done|simpl; lia|simpl; reflexivity|].
    split; simpl.
    + intros t [= <-]. lia.
    + intros g' [= <-]. split; [lia|]. intros t [= <-]. lia.
  - apply all_in_snoc; [|lia]. eapply all_in_mono; [|done]. lia.
Qed.

Lemma ring_phase3_ok srcs lt groupsize flowsize xs st st' :
  file_ok 0 st → all_in 0 (trig_id st) lt →
  for_each (Ring.phase3_group srcs lt groupsize flowsize) xs st = Some st' →
  file_ok 0 st'.
Proof.
  intros Hok Hlt Hrun.
  pose (I := λ s : state, file_ok 0 s ∧ trig_id st ≤ trig_id s).
  cut (I st'); [unfold I; tauto|]. revert Hrun.
  apply (for_each_inv0 _ I); [split; [done|lia]|].
  intros g s1 s2 _ [Hs1 Hm1] Hgrp. unfold Ring.phase3_group in Hgrp.
  destruct (Ring.group_members srcs groupsize g) as [members|]; simpl in Hgrp; [|done].
  destruct (py_index members 0) as [leader|]; simpl in Hgrp; [|done].
  destruct (py_index lt g) as [ldt|] eqn:Hldt; simpl in Hgrp; [|done].
  apply fmap_Some in Hgrp as ([s3 t3] & Hloop & ->). simpl.
  pose proof (Hlt ldt (py_index_elem _ _ _ Hldt)) as Hl.
  pose (J := λ sl : state * Z,
          file_ok 0 sl.1 ∧ 0 ≤ sl.2 ≤ trig_id sl.1 ∧ trig_id st ≤ trig_id sl.1).
  cut (J (s3, t3)); [unfold J, I; simpl; tauto|]. revert Hloop.
  apply (for_each_inv0 _ J); [unfold J; simpl; split_and!; (done || lia)|].
  intros s [s4 t4] [s5 t5] _ (Hs4 & Ht4 & Hm4) Hstep. simpl in *.
  unfold Ring.phase3_step in Hstep.
  destruct (py_index members s) as [a|]; simpl in Hstep; [|done].
  destruct (py_index members (s + 1)) as [b|]; simpl in Hstep; [|done].
  pose proof Hs4 as [Ht _]. unfold J.
  case_decide; simplify_eq; simpl; (split_and!; try lia);
    (eapply (file_ok_emit _ s4); [done|simpl; lia|simpl; reflexivity|]);
    split; simpl; intros; simplify_eq; try split; intros; simplify_eq; lia.
Qed.

Lemma ring_phases_ok `{Random} g nodes conns groupsize flowsize locality randseed st1 st2 st3 :
  Ring.phases g nodes conns groupsize flowsize locality randseed = Some (st1, st2, st3) →
  file_ok 0 st3.
Proof.
  unfold Ring.phases. intros Hp.
  destruct (py_floordiv conns groupsize) as [groups|]; simpl in Hp; [|done].
  match type of Hp with context [for_each ?b ?xs ?s] =>
    destruct (for_each b xs s) as [[s1 ge]|] eqn:H1
  end; simpl in Hp; [|done].
  match type of Hp with context [for_each ?b ?xs ?s] =>
    destruct (for_each b xs s) as [[s2 lt]|] eqn:H2
  end; simpl in Hp; [|done].
  match type of Hp with context [for_each ?b ?xs ?s] =>
    destruct (for_each b xs s) as [s3|] eqn:H3
  end; simplify_eq/=.
  apply ring_phase1_ok in H1 as [Hs1 Hge]; [|split; simpl; [lia|apply flows_ok_nil]].
  apply ring_phase2_ok in H2 as [Hs2 Hlt]; [|done..].
  by eapply ring_phase3_ok.
Qed.

(** ** What the scripts leave in the file *)

Lemma counted_trigger_section_counters st :
  trig_id (counted_trigger_section st).1 = trig_id st ∧
  connections (counted_trigger_section st).1 = connections st ∧
  (counted_trigger_section st).2 = Z.of_nat (length (py_range2 1 (trig_id st + 1))).
Proof.
  unfold counted_trigger_section.
  cut (∀ ts s n,
         let r := foldl (λ '(st, trigger_count) t, (print (LTrigger t) st, trigger_count + 1))
                        (s, n) ts in
         trig_id r.1 = trig_id s ∧ connections r.1 = connections s ∧
         r.2 = n + Z.of_nat (length ts)).
  { intros Hgen. destruct (Hgen (py_range2 1 (trig_id st + 1)) st 0) as (? & ? & ?).
    split_and!; [done..|lia]. }
  induction ts as [|t ts IH]; intros s n; simpl; [split_and!; (done || lia)|].
  destruct (IH (print (LTrigger t) s) (n + 1)) as (? & ? & ?). simpl in *.
  split_and!; [done..|lia].
Qed.

Lemma body_then_triggers ls n :
  flows_of (ls ++ (LTrigger <$> py_range2 1 (n + 1))) = flows_of ls ∧
  declared_triggers (ls ++ (LTrigger <$> py_range2 1 (n + 1)))
    = declared_triggers ls ++ py_range2 1 (n + 1).
Proof.
  rewrite flows_of_app, declared_triggers_app, flows_of_triggers,
    declared_triggers_triggers, app_nil_r. done.
Qed.

Lemma ring_gen_file `{Random} g nodes conns groupsize flowsize locality randseed out :
  Ring.gen g nodes conns groupsize flowsize locality randseed = Some out →
  ∃ st1 st2 st,
    Ring.phases g nodes conns groupsize flowsize locality randseed = Some (st1, st2, st) ∧
    flows_of out = flows_of (file st) ∧
    declared_triggers out = declared_triggers (file st) ++ py_range2 1 (trig_id st + 1).
Proof.
  unfold Ring.gen. intros Hg.
  destruct (Ring.phases _ _ _ _ _ _ _) as [[[st1 st2] st]|]; simpl in Hg; [|done].
  pose proof (counted_trigger_section_file st) as Hf.
  destruct (counted_trigger_section st) as [st' n]. simplify_eq/=.
  exists st1, st2, st. split; [done|].
  rewrite flows_of_insert_header, declared_triggers_insert_header, Hf.
  apply body_then_triggers.
Qed.

Lemma supernode_gen_file `{Random} g nodes flowsize iterations randseed out :
  Supernode.gen g nodes flowsize iterations randseed = Some out →
  ∃ st,
    Supernode.body g nodes flowsize iterations randseed = Some st ∧
    flows_of out = flows_of (file st) ∧
    declared_triggers out = declared_triggers (file st) ++ py_range2 1 (trig_id st + 1).
Proof.
  unfold Supernode.gen. intros Hg.
  destruct (Supernode.body _ _ _ _ _) as [st|]; simpl in Hg; [|done].
  pose proof (counted_trigger_section_file st) as Hf.
  destruct (counted_trigger_section st) as [st' n]. simplify_eq/=.
  exists st. split; [done|].
  rewrite flows_of_insert_header, declared_triggers_insert_header, Hf.
  apply body_then_triggers.
Qed.

Lemma tree_gen_file `{Random} g nodes branch_factor flowsize randseed out :
  Tree.gen g nodes branch_factor flowsize randseed = Some out →
  ∃ st0 st1 st,
    Tree.phases nodes branch_factor flowsize = Some (st0, st1, st) ∧
    flows_of out = flows_of (file st) ∧
    declared_triggers out = declared_triggers (file st) ++ py_range2 1 (trig_id st + 1).
Proof.
  unfold Tree.gen. intros Hg.
  destruct (Tree.phases _ _ _) as [[[st0 st1] st]|]; simplify_eq/=.
  exists st0, st1, st. split; [done|].
  rewrite trigger_section_file. simpl.
  destruct (body_then_triggers (file st ++ [LComment "Trigger Section"]) (trig_id st))
    as [-> ->].
  rewrite flows_of_app, declared_triggers_app. simpl. by rewrite !app_nil_r.
Qed.

Lemma inc_gen_file `{Random} g nodes k flowsize chunks fid iterations window randseed out :
  Inc.gen g nodes k flowsize chunks fid iterations window randseed = Some out →
  ∃ v,
    Inc.body nodes k flowsize chunks fid iterations window = Some v ∧
    flows_of out = flows_of (file (Inc.st v)) ∧
    declared_triggers out
      = declared_triggers (file (Inc.st v)) ++ py_range2 1 (trig_id (Inc.st v) + 1).
Proof.
  unfold Inc.gen. intros Hg.
  destruct (Inc.body _ _ _ _ _ _ _) as [v|]; simplify_eq/=.
  exists v. split; [done|].
  rewrite flows_of_insert_header, declared_triggers_insert_header, trigger_section_file.
  simpl.
  destruct (body_then_triggers
              ((file (Inc.st v) ++ [LBlank]) ++ [LComment "--- TRIGGERS ---"])
              (trig_id (Inc.st v))) as [-> ->].
  rewrite !flows_of_app, !declared_triggers_app. simpl. by rewrite !app_nil_r.
Qed.

(** The flows of every generated file have ordered triggers. *)
Lemma generated_flows_ok `{Random} out :
  generated out → ∃ lo hi, flows_ok lo hi (flows_of out).
Proof.
  intros [Hg|[Hg|[Hg|Hg]]].
  - destruct Hg as (g & nodes & conns & groupsize & flowsize & locality & randseed & Hg).
    apply ring_gen_file in Hg as (st1 & st2 & st & Hp & -> & _).
    apply ring_phases_ok in Hp as [_ Hok]. eauto.
  - destruct Hg as (g & nodes & bf & flowsize & randseed & Hg).
    apply tree_gen_file in Hg as (st0 & st1 & st & Hp & -> & _).
    apply tree_phases_ok in Hp as [Hok _]. unfold tree_ok in Hok. eauto.
  - destruct Hg as (g & nodes & flowsize & iterations & randseed & Hg).
    apply supernode_gen_file in Hg as (st & Hb & -> & _).
    apply supernode_body_ok in Hb as [_ Hok]. eauto.
  - destruct Hg as (g & nodes & k & flowsize & chunks & fid & iterations & window
                    & randseed & Hg).
    apply inc_gen_file in Hg as (v & Hb & -> & _).
    apply inc_body_ok in Hb as ([_ Hok] & _). eauto.
Qed.

Lemma unused_outside lo hi ls t :
  flows_ok lo hi (flows_of ls) → t ∈ declared_triggers ls → t < lo ∨ hi < t →
  unused_trigger ls t.
Proof.
  intros Hok Hd Ht. split; [done|]. intros f Hf. destruct (Hok f Hf) as [H1 H2].
  split.
  - intros Hs. specialize (H1 t Hs). lia.
  - intros Hs. destruct (H2 t Hs) as [? _]. lia.
Qed.

Lemma last_py_range2 n : 1 ≤ n → last (py_range2 1 (n + 1)) = Some n.
Proof.
  intros Hn. rewrite last_lookup. unfold py_range2.
  rewrite length_seqZ. rewrite lookup_seqZ. lia.
Qed.

(** ** The node order *)

Lemma swap_length {A} (x : list A) i j : length (swap x i j) = length x.
Proof.
  unfold swap. destruct (x !! i), (x !! j); try done. by rewrite !length_insert.
Qed.

Lemma shuffle_from_length `{Random} i x g : length (shuffle_from i x g).1 = length x.
Proof.
  revert x g. induction i as [|i IH]; intros x g; simpl; [done|].
  destruct (randbelow g (S (S i))) as [j g']. rewrite IH. apply swap_length.
Qed.

Lemma ring_node_order_length `{Random} g nodes randseed :
  length (Ring.node_order g nodes randseed) = Z.to_nat nodes.
Proof.
  unfold Ring.node_order, shuffle. rewrite shuffle_from_length.
  unfold py_range. apply length_seqZ.
Qed.

Lemma ring_local_order_length locality l : length (Ring.local_order locality l) = length l.
Proof.
  unfold Ring.local_order. case_decide; [|done].
  apply Permutation_length, merge_sort_Permutation.
Qed.

Lemma ring_one_group `{Random} g nodes conns flowsize locality randseed :
  4 ≤ nodes → conns `div` 4 = 1 →
  ∃ p1 p2 p3,
    Ring.phase_flows g nodes conns 4 flowsize locality randseed = Some (p1, p2, p3) ∧
    wiring <$> p1 =
      [(1, Start0, Some 1); (2, Trigger 1, Some 2); (3, Trigger 2, None);
       (4, Start0, Some 3); (5, Trigger 3, Some 4); (6, Trigger 4, None);
       (7, Start0, Some 5); (8, Trigger 5, Some 6); (9, Trigger 6, None);
       (10, Start0, Some 7); (11, Trigger 7, Some 8); (12, Trigger 8, None)] ∧
    wiring <$> p2 = [(13, Trigger 8, Some 10)] ∧
    wiring <$> p3 =
      [(14, Trigger 10, Some 11); (15, Trigger 11, Some 12); (16, Trigger 12, None)].
Proof.
  intros Hn Hc. unfold Ring.phase_flows, Ring.phases.
  pose proof (ring_node_order_length g nodes randseed) as Hlen.
  destruct (Ring.node_order g nodes randseed) as [|a [|b [|c [|d rest]]]];
    simpl in Hlen; try lia.
  unfold py_floordiv. rewrite decide_False by done. rewrite Hc. simpl mbind.
  pose proof (ring_local_order_length locality [a; b; c; d]) as Hlo.
  destruct (Ring.local_order locality [a; b; c; d]) as [|x [|y [|z [|w [|]]]]];
    simpl in Hlo; try lia.
  eexists _, _, _. split; [vm_compute; reflexivity|]. vm_compute. done.
Qed.

(** ** Inc: which trigger gates which chunk *)

Lemma chunk_flows_snoc d r c fs x :
  chunk_flows d r c (fs ++ [x]) =
  chunk_flows d r c fs ++ (if decide (chunk_key x = Some (d, r, c)) then [x] else []).
Proof.
  unfold chunk_flows. by rewrite filter_app.
Qed.

Lemma last_chunk_flows_other d r c fs x :
  chunk_key x ≠ Some (d, r, c) →
  last (chunk_flows d r c (fs ++ [x])) = last (chunk_flows d r c fs).
Proof. intros Hk. rewrite chunk_flows_snoc, decide_False by done. by rewrite app_nil_r. Qed.

Lemma last_chunk_flows_same d r c fs x :
  chunk_key x = Some (d, r, c) → last (chunk_flows d r c (fs ++ [x])) = Some x.
Proof. intros Hk. rewrite chunk_flows_snoc, decide_True by done. apply last_snoc. Qed.

Lemma last_done_other d r c fs x t :
  chunk_key x ≠ Some (d, r, c) → last_done d r c fs t → last_done d r c (fs ++ [x]) t.
Proof. intros Hk Hl y. rewrite last_chunk_flows_other by done. apply Hl. Qed.

(** Writing an uplink flow of the current chunk. *)
Lemma down_ok_up fs x rid c :
  down_ok fs → chunk_key x = Some (UP, rid, c) →
  (∀ f, f ∈ fs → before rid c f ∨ chunk_key f = Some (UP, rid, c)) →
  down_ok (fs ++ [x]).
Proof.
  intros Hd Hx Hk f r c' [Hf|Hf%list_elem_of_singleton]%elem_of_app Hkey.
  - destruct (Hd f r c' Hf Hkey) as (u & t & Hu & Ht & Hs).
    exists u, t. split; [|done]. rewrite last_chunk_flows_other; [done|].
    rewrite Hx. intros [= <- <-].
    destruct (Hk f Hf) as [(d & r0 & c0 & Hk0 & Hlt)|Hk0]; rewrite Hkey in Hk0;
      simplify_eq; lia.
  - subst. congruence.
Qed.

Lemma up_ok_up window fs x rid c :
  up_ok window fs → chunk_key x = Some (UP, rid, c) →
  (window ≤ c → ∃ t, start x = Trigger t ∧ last_done DOWN rid (c - window) fs t) →
  up_ok window (fs ++ [x]).
Proof.
  intros Hu Hx Hnew f r c' [Hf|Hf%list_elem_of_singleton]%elem_of_app Hkey Hw.
  - destruct (Hu f r c' Hf Hkey Hw) as (t & Hs & Hl). exists t. split; [done|].
    apply last_done_other; [congruence|done].
  - subst. rewrite Hx in Hkey. simplify_eq. destruct (Hnew Hw) as (t & Hs & Hl).
    exists t. split; [done|]. apply last_done_other; [congruence|done].
Qed.

(** Writing a downlink flow of the current chunk. *)
Lemma down_ok_down fs x rid c u t :
  down_ok fs → chunk_key x = Some (DOWN, rid, c) →
  last (chunk_flows UP rid c fs) = Some u → send_done_trigger u = Some t →
  start x = Trigger t →
  down_ok (fs ++ [x]).
Proof.
  intros Hd Hx Hu Ht Hs f r c' [Hf|Hf%list_elem_of_singleton]%elem_of_app Hkey.
  - destruct (Hd f r c' Hf Hkey) as (u' & t' & Hu' & Ht' & Hs').
    exists u', t'. split; [|done]. rewrite last_chunk_flows_other; [done|congruence].
  - subst. rewrite Hx in Hkey. simplify_eq. exists u, t.
    split; [|done]. rewrite last_chunk_flows_other; [done|congruence].
Qed.

Lemma up_ok_down window fs x rid c :
  1 ≤ window → up_ok window fs → chunk_key x = Some (DOWN, rid, c) →
  (∀ f, f ∈ fs → before rid c f ∨ ∃ d, chunk_key f = Some (d, rid, c)) →
  up_ok window (fs ++ [x]).
Proof.
  intros Hw1 Hu Hx Hk f r c' [Hf|Hf%list_elem_of_singleton]%elem_of_app Hkey Hw.
  - destruct (Hu f r c' Hf Hkey Hw) as (t & Hs & Hl). exists t. split; [done|].
    apply last_done_other; [|done]. rewrite Hx. intros [= <- Hc].
    destruct (Hk f Hf) as [(d & r0 & c0 & Hk0 & Hlt)|[d Hk0]]; rewrite Hkey in Hk0;
      simplify_eq; lia.
  - subst. congruence.
Qed.

Lemma slots_ok_other rid c ldt fs x d r c' :
  chunk_key x = Some (d, r, c') → (d = UP ∨ r ≠ rid ∨ c ≤ c') →
  slots_ok rid c ldt fs → slots_ok rid c ldt (fs ++ [x]).
Proof.
  intros Hx Hne Hs j t Hj Hl. destruct (Hs j t Hj Hl) as [Ht Hd]. split; [done|].
  apply last_done_other; [|done]. rewrite Hx. intros [= -> -> ->].
  destruct Hne as [?|[?|?]]; [done|done|lia].
Qed.

Lemma chunk_flows_nil d r c fs :
  (∀ f, f ∈ fs → chunk_key f ≠ Some (d, r, c)) → chunk_flows d r c fs = [].
Proof.
  intros Hne. destruct (chunk_flows d r c fs) as [|x l] eqn:E; [done|].
  assert (x ∈ chunk_flows d r c fs) as Hx by (rewrite E; left).
  apply list_elem_of_filter in Hx as [Hk Hin]. by destruct (Hne x Hin).
Qed.

Lemma before_key rid c f d : before rid c f → chunk_key f ≠ Some (d, rid, c).
Proof. intros (d' & r & c' & Hk & Hlt) Hk'. rewrite Hk in Hk'. simplify_eq. lia. Qed.

Section inc_chunk.
Context (window flowsize fid rid c dst_agg : Z) (hosts ldt : list Z).

(** The uplink loop of chunk [c] of iteration [rid]. *)
Lemma inc_up_loop cst s0 s' o' :
  1 ≤ trig_id s0 →
  (∀ f, f ∈ flows_of (file s0) → before rid c f) →
  down_ok (flows_of (file s0)) →
  (1 ≤ window → up_ok window (flows_of (file s0))) →
  slots_ok rid c ldt (flows_of (file s0)) →
  (1 ≤ window → window ≤ c →
   ∃ t, Inc.start_or_trigger_str cst = Trigger t ∧
        last_done DOWN rid (c - window) (flows_of (file s0)) t) →
  for_each (Inc.up_step flowsize fid rid c dst_agg cst) hosts (s0, None) = Some (s', o') →
  1 ≤ trig_id s' ∧
  (∀ f, f ∈ flows_of (file s') → before rid c f ∨ chunk_key f = Some (UP, rid, c)) ∧
  down_ok (flows_of (file s')) ∧
  (1 ≤ window → up_ok window (flows_of (file s'))) ∧
  slots_ok rid c ldt (flows_of (file s')) ∧
  tracks UP rid c (flows_of (file s')) o' ∧
  (∀ h, h ∈ hosts → h ≠ dst_agg → is_Some o').
Proof.
  intros Ht0 Hk0 Hd0 Hu0 Hs0 Hc0 Hrun.
  pose (I := λ (pre : list Z) (sl : state * option Z),
    let fs := flows_of (file sl.1) in
    1 ≤ trig_id sl.1 ∧
    (∀ f, f ∈ fs → before rid c f ∨ chunk_key f = Some (UP, rid, c)) ∧
    down_ok fs ∧ (1 ≤ window → up_ok window fs) ∧ slots_ok rid c ldt fs ∧
    (1 ≤ window → window ≤ c →
     ∃ t, Inc.start_or_trigger_str cst = Trigger t ∧ last_done DOWN rid (c - window) fs t) ∧
    tracks UP rid c fs sl.2 ∧
    (∀ h, h ∈ pre → h ≠ dst_agg → is_Some sl.2)).
  cut (I hosts (s', o')); [unfold I; simpl; tauto|]. revert Hrun.
  apply (for_each_inv _ I).
  { unfold I. simpl. split_and!; try done.
    - intros f Hf. left. by apply Hk0.
    - apply chunk_flows_nil. intros f Hf. by apply before_key, Hk0.
    - intros h Hh. by apply not_elem_of_nil in Hh. }
  intros pre h post [s1 o1] [s2 o2] _ (Ht1 & Hk1 & Hd1 & Hu1 & Hs1 & Hc1 & Htr1 & Hh1) Hstep.
  simpl in *. unfold Inc.up_step in Hstep. unfold I.
  case_decide as Hagg; simplify_eq.
  { simpl. split_and!; try done.
    intros h' [Hh'|Hh'%list_elem_of_singleton]%elem_of_app Hne; [by apply (Hh1 h')|done]. }
  simpl. rewrite flows_of_app. simpl.
  match goal with |- context [flows_of (file s1) ++ [?x]] => set (x0 := x) end.
  assert (chunk_key x0 = Some (UP, rid, c)) as Hx0 by done.
  split_and!.
  - lia.
  - intros f [Hf|Hf%list_elem_of_singleton]%elem_of_app; [by apply Hk1|subst; by right].
  - by eapply down_ok_up.
  - intros Hw. eapply up_ok_up; [by apply Hu1|done|]. intros Hwc. by apply Hc1.
  - eapply slots_ok_other; [done|by left|done].
  - intros Hw Hwc. destruct (Hc1 Hw Hwc) as (t & Hst & Hl). exists t. split; [done|].
    apply last_done_other; [by rewrite Hx0|done].
  - lia.
  - exists x0. split; [by apply last_chunk_flows_same|done].
  - intros; by eexists.
Qed.

(** The downlink loop of chunk [c] of iteration [rid]. *)
Lemma inc_down_loop lut s0 s' o' :
    1 ≤ trig_id s0 →
    (∀ f, f ∈ flows_of (file s0) → before rid c f ∨ chunk_key f = Some (UP, rid, c)) →
    down_ok (flows_of (file s0)) →
    (1 ≤ window → up_ok window (flows_of (file s0))) →
    slots_ok rid c ldt (flows_of (file s0)) →
    (∀ h, h ∈ hosts → h ≠ dst_agg →
     ∃ u, last (chunk_flows UP rid c (flows_of (file s0))) = Some u ∧
          send_done_trigger u = Some lut) →
    for_each (Inc.down_step flowsize fid rid c dst_agg lut) hosts (s0, None) = Some (s', o') →
    1 ≤ trig_id s' ∧
    (∀ f, f ∈ flows_of (file s') → before rid c f ∨ ∃ d, chunk_key f = Some (d, rid, c)) ∧
    down_ok (flows_of (file s')) ∧
    (1 ≤ window → up_ok window (flows_of (file s'))) ∧
    slots_ok rid c ldt (flows_of (file s')) ∧
    tracks DOWN rid c (flows_of (file s')) o'.
Proof.
    intros Ht0 Hk0 Hd0 Hu0 Hs0 Hup0 Hrun.
    pose (I := λ (sl : state * option Z),
      let fs := flows_of (file sl.1) in
      1 ≤ trig_id sl.1 ∧
      (∀ f, f ∈ fs → before rid c f ∨ ∃ d, chunk_key f = Some (d, rid, c)) ∧
      down_ok fs ∧ (1 ≤ window → up_ok window fs) ∧ slots_ok rid c ldt fs ∧
      (∀ h, h ∈ hosts → h ≠ dst_agg →
       ∃ u, last (chunk_flows UP rid c fs) = Some u ∧ send_done_trigger u = Some lut) ∧
      tracks DOWN rid c fs sl.2).
    cut (I (s', o')); [unfold I; simpl; tauto|]. revert Hrun.
    apply (for_each_inv0 _ I).
    { unfold I. simpl. split_and!; try done.
      - intros f Hf. destruct (Hk0 f Hf); [by left|right; eauto].
      - apply chunk_flows_nil. intros f Hf.
        destruct (Hk0 f Hf) as [Hb|Hb]; [by apply before_key|congruence]. }
    intros h [s1 o1] [s2 o2] Hh (Ht1 & Hk1 & Hd1 & Hu1 & Hs1 & Hup1 & Htr1) Hstep.
    simpl in *. unfold Inc.down_step in Hstep. unfold I.
    case_decide as Hagg; simplify_eq; [done|].
    simpl. rewrite flows_of_app. simpl.
    match goal with |- context [flows_of (file s1) ++ [?x]] => set (x0 := x) end.
    assert (chunk_key x0 = Some (DOWN, rid, c)) as Hx0 by done.
    destruct (Hup1 h Hh Hagg) as (u & Hu & Hdone).
    split_and!.
    - lia.
    - intros f [Hf|Hf%list_elem_of_singleton]%elem_of_app; [by apply Hk1|subst; right; eauto].
    - by eapply down_ok_down.
    - intros Hw. eapply up_ok_down; [done|by apply Hu1|done|done].
    - eapply slots_ok_other; [done|right; right; lia|done].
    - intros h' Hh' Hne. destruct (Hup1 h' Hh' Hne) as (u' & Hu' & Hdone').
      exists u'. split; [|done]. rewrite last_chunk_flows_other; [done|by rewrite Hx0].
    - lia.
    - exists x0. split; [by apply last_chunk_flows_same|done].
Qed.
End inc_chunk.

Lemma or_synthetic_tracks d rid c s o s' t :
  1 ≤ trig_id s → tracks d rid c (flows_of (file s)) o → Inc.or_synthetic (s, o) = (s', t) →
  file s' = file s ∧ 1 ≤ trig_id s' ∧ 2 ≤ t ∧
  (is_Some o → ∃ u, last (chunk_flows d rid c (flows_of (file s))) = Some u ∧
                    send_done_trigger u = Some t) ∧
  last_done d rid c (flows_of (file s)) t.
Proof.
  intros Ht Htr. unfold Inc.or_synthetic. destruct o as [t'|]; simpl in *; intros [= <- <-].
  - destruct Htr as (H2 & u & Hu & Hd). split_and!; try done.
    + intros _. eauto.
    + intros x. rewrite Hu. by intros [= <-].
  - simpl. split_and!; try done; try lia.
    intros x. unfold last_done. by rewrite Htr.
Qed.

Lemma inc_chunk_inv hosts k flowsize fid window rid c v v' :
  0 ≤ c → inc_inv window rid c v →
  Inc.chunk_body hosts k flowsize fid window rid c v = Some v' →
  inc_inv window rid (c + 1) v'.
Proof.
  intros Hc0 (Ht & Hk & Hd & Hu & Hs) Hc. unfold Inc.chunk_body in Hc.
  match type of Hc with (?e ≫= _) = _ => destruct e as [cst|] eqn:Hcst end;
    simpl in Hc; [|done].
  assert (1 ≤ window → window ≤ c →
          ∃ t, Inc.start_or_trigger_str cst = Trigger t ∧
               last_done DOWN rid (c - window) (flows_of (file (Inc.st v))) t) as Hgate.
  { intros Hw Hwc. rewrite decide_False in Hcst by lia.
    destruct (py_index _ _) as [prev_t|] eqn:Hp; simplify_eq/=.
    unfold py_index in Hp. rewrite decide_True in Hp by lia.
    destruct (Hs (c - window) prev_t ltac:(lia) Hp) as [H2 Hl].
    exists prev_t. rewrite decide_True by lia. simpl.
    rewrite decide_False by lia. done. }
  destruct (Inc.chunk_to_agg_node k c) as [dst_agg|]; simpl in Hc; [|done].
  match type of Hc with context [for_each ?b ?xs ?s] =>
    destruct (for_each b xs s) as [[s1 o1]|] eqn:Hup
  end; simpl in Hc; [|done].
  eapply (inc_up_loop window) in Hup
    as (Ht1 & Hk1 & Hd1 & Hu1 & Hs1 & Htr1 & Hh1); [|done..].
  destruct (Inc.or_synthetic (s1, o1)) as [s2 lut] eqn:Hsyn1.
  eapply or_synthetic_tracks in Hsyn1 as (Hf2 & Ht2 & Hlut & Hlast & _); [|done..].
  match type of Hc with context [for_each ?b ?xs ?s] =>
    destruct (for_each b xs s) as [[s3 o3]|] eqn:Hdown
  end; simpl in Hc; [|done].
  eapply (inc_down_loop window) in Hdown
    as (Ht3 & Hk3 & Hd3 & Hu3 & Hs3 & Htr3); [|rewrite ?Hf2; try done..].
  2: { intros h Hh Hne. apply Hlast. by eapply Hh1. }
  destruct (Inc.or_synthetic (s3, o3)) as [s4 ldt] eqn:Hsyn2.
  eapply or_synthetic_tracks in Hsyn2 as (Hf4 & Ht4 & Hldt & _ & Hdone); [|done..].
  destruct (py_setitem _ _ _) as [l'|] eqn:Hset; simplify_eq/=.
  unfold inc_inv. simpl. rewrite Hf4. split_and!; try done.
  - intros f Hf. destruct (Hk3 f Hf) as [(d & r & c' & Hkey & Hlt)|[d Hkey]].
    + exists d, r, c'. split; [done|lia].
    + exists d, rid, c. split; [done|lia].
  - intros j t Hj. rewrite (py_setitem_lookup _ _ _ _ _ Hc0 Hset).
    destruct (decide (Z.to_nat j = Z.to_nat c)) as [Hjc|Hjc].
    + intros [= <-]. apply Z2Nat.inj in Hjc; [|lia..]. subst. done.
    + apply Hs3. assert (j ≠ c) by congruence. lia.
Qed.

Lemma inc_iteration_inv hosts k flowsize chunks fid window it v v' :
  inc_inv window (it + 1) 0 v →
  Inc.iteration_body hosts k flowsize chunks fid window it v = Some v' →
  inc_inv window (it + 1 + 1) 0 v'.
Proof.
  intros Hinv Hit. unfold Inc.iteration_body in Hit.
  match type of Hit with context [for_each ?b ?xs ?s] =>
    destruct (for_each b xs s) as [v1|] eqn:Hchunks
  end; simpl in Hit; [|done].
  destruct (py_index _ _) as [t|]; simplify_eq/=.
  assert (inc_inv window (it + 1) (Z.of_nat (length (py_range chunks))) v1)
    as (Ht & Hk & Hd & Hu & Hs).
  { revert Hchunks.
    apply (for_each_inv _ (λ pre u, inc_inv window (it + 1) (Z.of_nat (length pre)) u)).
    - destruct Hinv as (Ht & Hk & Hd & Hu & Hs). unfold inc_inv. simpl.
      rewrite !flows_of_app. simpl. rewrite !app_nil_r. done.
    - intros pre c post u1 u2 Hsplit Hu1 Hstep.
      apply py_range_split in Hsplit as [-> Hc].
      rewrite length_app. simpl. rewrite Nat2Z.inj_add. simpl.
      eapply inc_chunk_inv; [lia|done..]. }
  unfold inc_inv. simpl. split_and!; try done.
  - intros f Hf. destruct (Hk f Hf) as (d & r & c' & Hkey & Hlt).
    exists d, r, c'. split; [done|lia].
  - intros j t' Hj. lia.
Qed.

Lemma inc_body_inv nodes k flowsize chunks fid iterations window v :
  Inc.body nodes k flowsize chunks fid iterations window = Some v →
  down_ok (flows_of (file (Inc.st v))) ∧
  (1 ≤ window → up_ok window (flows_of (file (Inc.st v)))).
Proof.
  unfold Inc.body. intros Hrun.
  assert (inc_inv window (Z.of_nat (length (py_range iterations)) + 1) 0 v)
    as (_ & _ & Hd & Hu & _); [|done].
  revert Hrun.
  apply (for_each_inv _ (λ pre u, inc_inv window (Z.of_nat (length pre) + 1) 0 u)).
  - unfold inc_inv. simpl. split_and!.
    + lia.
    + intros f Hf. by apply not_elem_of_nil in Hf.
    + intros f r c Hf. by apply not_elem_of_nil in Hf.
    + intros _ f r c Hf. by apply not_elem_of_nil in Hf.
    + intros j t Hj. lia.
  - intros pre it post u1 u2 Hsplit Hu1 Hstep.
    apply py_range_split in Hsplit as [-> Hit].
    rewrite length_app. simpl. rewrite Nat2Z.inj_add. simpl.
    by eapply inc_iteration_inv.
Qed.

(** ** Files grow by numbered flows *)

Lemma grows_trans dc P st1 st2 st3 :
  grows dc P st1 st2 → grows dc P st2 st3 → grows dc P st1 st3.
Proof.
  intros H12 H23. induction H23 as [|st st0 st3 f ? IH|st st0 st3 ls ? IH].
  - done.
  - apply (grows_flow dc P st1 st0 st3 f); auto.
  - apply (grows_silent dc P st1 st0 st3 ls); auto.
Qed.

Lemma grows_mono dc (P Q : flow → Prop) st st' :
  (∀ f, P f → Q f) → grows dc P st st' → grows dc Q st st'.
Proof.
  intros HPQ Hg. induction Hg as [|st st0 st3 f ? IH|st st0 st3 ls ? IH].
  - apply grows_refl.
  - apply (grows_flow dc Q st st0 st3 f); auto.
  - apply (grows_silent dc Q st st0 st3 ls); auto.
Qed.

(** One flow line, written the way every loop body writes it. *)
Lemma grows_emit dc P st st' f :
  file st' = file st ++ [LFlow f] → flow_id st' = flow_id st + 1 → fl_id f = flow_id st' →
  connections st' = connections st + dc → trig_id st ≤ trig_id st' → P f →
  grows dc P st st'.
Proof. intros. eapply grows_flow; [apply grows_refl|done..]. Qed.

Lemma grows_skip dc P st st' ls :
  file st' = file st ++ ls → Forall quiet ls → flow_id st' = flow_id st →
  connections st' = connections st → trig_id st ≤ trig_id st' →
  grows dc P st st'.
Proof. intros. eapply grows_silent; [apply grows_refl|done..]. Qed.

(** A loop whose body grows the file grows the file. *)
Lemma for_each_grows {S A} dc P (proj : S → state) (body : A → S → option S) xs s s' :
  (∀ x s1 s2, x ∈ xs → body x s1 = Some s2 → grows dc P (proj s1) (proj s2)) →
  for_each body xs s = Some s' → grows dc P (proj s) (proj s').
Proof.
  intros Hbody. apply (for_each_inv0 _ (λ s2, grows dc P (proj s) (proj s2))).
  - apply grows_refl.
  - intros x s1 s2 Hx Hs1 Hb. eapply grows_trans; [done|]. by eapply Hbody.
Qed.

Lemma flows_of_quiet ls : Forall quiet ls → flows_of ls = [].
Proof.
  induction 1 as [|l ls [->|[s ->]] _ IH]; [done|..]; unfold flows_of in *; simpl; done.
Qed.

Lemma declared_triggers_quiet ls : Forall quiet ls → declared_triggers ls = [].
Proof.
  induction 1 as [|l ls [->|[s ->]] _ IH]; [done|..];
    unfold declared_triggers in *; simpl; done.
Qed.

Lemma connections_header_quiet ls : Forall quiet ls → connections_header ls = [].
Proof.
  induction 1 as [|l ls [->|[s ->]] _ IH]; [done|..];
    unfold connections_header in *; simpl; done.
Qed.

Lemma triggers_header_quiet ls : Forall quiet ls → triggers_header ls = [].
Proof.
  induction 1 as [|l ls [->|[s ->]] _ IH]; [done|..];
    unfold triggers_header in *; simpl; done.
Qed.

(** What [grows] says about the file. *)
Lemma grows_file dc P st st' :
  grows dc P st st' →
  ∃ fs,
    flows_of (file st') = flows_of (file st) ++ fs ∧
    Forall P fs ∧
    fl_id <$> fs = seqZ (flow_id st + 1) (Z.of_nat (length fs)) ∧
    flow_id st' = flow_id st + Z.of_nat (length fs) ∧
    connections st' = connections st + dc * Z.of_nat (length fs) ∧
    trig_id st ≤ trig_id st' ∧
    declared_triggers (file st') = declared_triggers (file st) ∧
    connections_header (file st') = connections_header (file st) ∧
    triggers_header (file st') = triggers_header (file st).
Proof.
  induction 1 as [st|st st1 st2 f _ (fs & Hf & HP & Hid & Hn & Hc & Ht & Hd & Hch & Hth)
                    Hfile Hfid Hfl Hconn Htr Hpf
                 |st st1 st2 ls _ (fs & Hf & HP & Hid & Hn & Hc & Ht & Hd & Hch & Hth)
                    Hfile Hq Hfid Hconn Htr].
  - exists []. simpl. rewrite app_nil_r. split_and!; try done; lia.
  - exists (fs ++ [f]). rewrite Hfile. rewrite length_app. simpl.
    split_and!.
    + rewrite flows_of_app, Hf. simpl. by rewrite app_assoc.
    + apply Forall_app. split; [done|]. by apply Forall_singleton.
    + rewrite fmap_app, Hid. simpl.
      replace (Z.of_nat (length fs + 1)) with (Z.of_nat (S (length fs))) by lia.
      rewrite seqZ_S. f_equal. f_equal. lia.
    + lia.
    + lia.
    + lia.
    + rewrite declared_triggers_app, Hd. simpl. by rewrite app_nil_r.
    + unfold connections_header in *. rewrite omap_app, Hch. simpl. by rewrite app_nil_r.
    + unfold triggers_header in *. rewrite omap_app, Hth. simpl. by rewrite app_nil_r.
  - exists fs. rewrite Hfile. split_and!; try done; try lia.
    + by rewrite flows_of_app, (flows_of_quiet ls Hq), app_nil_r.
    + by rewrite declared_triggers_app, (declared_triggers_quiet ls Hq), app_nil_r.
    + pose proof (connections_header_quiet ls Hq) as Hl.
      unfold connections_header in *. by rewrite omap_app, Hl, app_nil_r.
    + pose proof (triggers_header_quiet ls Hq) as Hl.
      unfold triggers_header in *. by rewrite omap_app, Hl, app_nil_r.
Qed.

(** ** Loops that complete *)

(** A loop completes when its body completes from every state the
    invariant allows. *)
Lemma for_each_total {S A} (body : A → S → option S) (I : list A → S → Prop) xs s :
  I [] s →
  (∀ pre x post s1,
     xs = pre ++ x :: post → I pre s1 → ∃ s2, body x s1 = Some s2 ∧ I (pre ++ [x]) s2) →
  ∃ s', for_each body xs s = Some s' ∧ I xs s'.
Proof.
  intros H0 Hstep.
  assert (∀ post pre s1, xs = pre ++ post → I pre s1 →
            ∃ s', for_each body post s1 = Some s' ∧ I xs s') as Hgen.
  { induction post as [|x post IH]; intros pre s1 Hxs HI; simpl.
    - rewrite app_nil_r in Hxs. subst. eauto.
    - destruct (Hstep pre x post s1 Hxs HI) as (s2 & -> & HI2). simpl.
      apply (IH (pre ++ [x]) s2); [by rewrite <- app_assoc|done]. }
  by apply (Hgen xs [] s).
Qed.

Lemma for_each_cons {S A} (body : A → S → option S) x xs s :
  for_each body (x :: xs) s = body x s ≫= for_each body xs.
Proof. done. Qed.

(** A loop that completes ran its body at every position. *)
Lemma for_each_split {S A} (body : A → S → option S) pre x post s s' :
  for_each body (pre ++ x :: post) s = Some s' →
  ∃ s1 s2, for_each body pre s = Some s1 ∧ body x s1 = Some s2 ∧
           for_each body post s2 = Some s'.
Proof.
  revert s. induction pre as [|y pre IH]; intros s; simpl.
  - destruct (body x s) as [s2|] eqn:Hb; simpl; [|done]. eauto.
  - destruct (body y s) as [s1|]; simpl; [|done]. apply IH.
Qed.

(** The invariant rule and [grows] together. *)
Lemma for_each_grows_inv {S A} dc P (proj : S → state) (body : A → S → option S)
    (I : list A → S → Prop) xs s s' :
  I [] s →
  (∀ pre x post s1 s2,
     xs = pre ++ x :: post → I pre s1 → body x s1 = Some s2 →
     I (pre ++ [x]) s2 ∧ grows dc P (proj s1) (proj s2)) →
  for_each body xs s = Some s' → I xs s' ∧ grows dc P (proj s) (proj s').
Proof.
  intros H0 Hstep.
  apply (for_each_inv _ (λ pre s2, I pre s2 ∧ grows dc P (proj s) (proj s2))).
  - split; [done|apply grows_refl].
  - intros pre x post s1 s2 Hxs [HI Hg] Hb.
    destruct (Hstep pre x post s1 s2 Hxs HI Hb) as [HI2 Hg2].
    split; [done|]. by eapply grows_trans.
Qed.

(** Positions in [range(a, b)] and in [enumerate]. *)
Lemma py_range2_split a b pre x post :
  py_range2 a b = pre ++ x :: post →
  x = a + Z.of_nat (length pre) ∧ a ≤ x < b ∧
  pre = py_range2 a x ∧ post = py_range2 (x + 1) b.
Proof.
  unfold py_range2. intros Heq.
  assert (seqZ a (b - a) !! length pre = Some x) as Hl.
  { rewrite Heq. by rewrite list_lookup_middle. }
  apply lookup_seqZ in Hl as [-> Hlt].
  assert (Z.of_nat (length pre) + 1 + Z.of_nat (length post) = b - a) as Hlen.
  { apply (f_equal length) in Heq. rewrite length_seqZ, length_app in Heq.
    simpl in Heq. lia. }
  split; [done|]. split; [lia|].
  replace (b - a) with (Z.of_nat (length pre) + (1 + Z.of_nat (length post))) in Heq by lia.
  rewrite seqZ_app in Heq by lia.
  apply app_inj_1 in Heq as [Hpre Hpost]; [|by rewrite length_seqZ; lia].
  split.
  - etrans; [symmetry; exact Hpre|]. f_equal. lia.
  - rewrite seqZ_cons in Hpost by lia. injection Hpost as Hpost.
    etrans; [symmetry; exact Hpost|]. f_equal; lia.
Qed.

(** A loop whose body writes [c] flows writes [c] flows for every
    element. *)
Lemma for_each_count {S A} dc P (proj : S → state) (body : A → S → option S) (c : Z)
    (I : list A → S → Prop) xs s :
  I [] s →
  (∀ pre x post s1,
     xs = pre ++ x :: post → I pre s1 →
     ∃ s2, body x s1 = Some s2 ∧ I (pre ++ [x]) s2 ∧ grows dc P (proj s1) (proj s2) ∧
           flow_id (proj s2) = flow_id (proj s1) + c) →
  ∃ s', for_each body xs s = Some s' ∧ I xs s' ∧ grows dc P (proj s) (proj s') ∧
        flow_id (proj s') = flow_id (proj s) + c * Z.of_nat (length xs).
Proof.
  intros H0 Hstep.
  destruct (for_each_total body
              (λ pre s1, I pre s1 ∧ grows dc P (proj s) (proj s1) ∧
                         flow_id (proj s1) = flow_id (proj s) + c * Z.of_nat (length pre))
              xs s) as (s' & Hrun & HI & Hg & Hid).
  - split_and!; [done|apply grows_refl|simpl; lia].
  - intros pre x post s1 Hxs (HI & Hg & Hid).
    destruct (Hstep pre x post s1 Hxs HI) as (s2 & Hb & HI2 & Hg2 & Hid2).
    exists s2. split; [done|]. split_and!; [done|by eapply grows_trans|].
    rewrite length_app. simpl. lia.
  - by exists s'.
Qed.

(** The flows written between two states. *)
Lemma grows_added dc P st st' :
  grows dc P st st' →
  flows_of (file st') = flows_of (file st) ++ flows_of (added st st') ∧
  Forall P (flows_of (added st st')) ∧
  Z.of_nat (length (flows_of (added st st'))) = flow_id st' - flow_id st.
Proof.
  intros Hg.
  assert (∃ ls, file st' = file st ++ ls) as [ls Hls].
  { induction Hg as [st|st st1 st2 f _ [ls IH] Hfile|st st1 st2 ls' _ [ls IH] Hfile].
    - exists []. by rewrite app_nil_r.
    - exists (ls ++ [LFlow f]). by rewrite Hfile, IH, app_assoc.
    - exists (ls ++ ls'). by rewrite Hfile, IH, app_assoc. }
  apply grows_file in Hg as (fs & Hfs & HP & _ & Hid & _).
  unfold added. rewrite Hls, drop_app_length, flows_of_app.
  rewrite Hls, flows_of_app in Hfs. apply app_inv_head in Hfs as ->.
  split_and!; [done|done|lia].
Qed.

(** ** Tree: the dictionaries *)

Lemma tree_children_keys (xs : list Z) (m : gmap Z (list Z)) p :
  foldl (λ ch i, <[i := []]> ch) m xs !! p = if decide (p ∈ xs) then Some [] else m !! p.
Proof.
  revert m. induction xs as [|x xs IH]; intros m; simpl; [done|].
  rewrite IH. rewrite lookup_insert.
  destruct (decide (p ∈ xs)) as [Hin|Hin].
  - rewrite decide_True; [done|]. by apply elem_of_cons; right.
  - destruct (decide (x = p)) as [->|Hne].
    + rewrite decide_True; [done|]. by apply elem_of_cons; left.
    + rewrite decide_False; [done|]. intros [?|?]%elem_of_cons; by subst.
Qed.

Lemma tree_link_built nodes branch_factor pre i cp cp' :
  tree_built nodes branch_factor pre cp →
  Tree.link branch_factor i cp = Some cp' →
  tree_built nodes branch_factor (pre ++ [i]) cp'.
Proof.
  destruct cp as [ch ps]. intros (Hch & Hps & Hr) Hlink. simpl in *.
  unfold Tree.link, py_floordiv in Hlink.
  destruct (decide (branch_factor = 0)) as [|Hbf]; [done|]. simpl in Hlink.
  fold (tree_parent branch_factor i) in Hlink.
  destruct (ch !! tree_parent branch_factor i) as [kids|] eqn:Hk; simpl in Hlink; [|done].
  simplify_eq. rewrite Hch in Hk.
  destruct (decide (0 ≤ tree_parent branch_factor i < nodes)) as [Hin|]; [|done].
  simplify_eq. split_and!; simpl.
  - intros p. rewrite lookup_insert. rewrite filter_app.
    destruct (decide (tree_parent branch_factor i = p)) as [<-|Hne].
    + rewrite decide_True by done. by rewrite filter_cons_True.
    + rewrite Hch. rewrite filter_cons_False by done. simpl. by rewrite app_nil_r.
  - intros j. rewrite lookup_insert.
    destruct (decide (i = j)) as [<-|Hne].
    + rewrite decide_True; [done|]. apply elem_of_app. right. by apply list_elem_of_singleton.
    + rewrite Hps. destruct (decide (j ∈ pre)) as [Hj|Hj].
      * rewrite decide_True; [done|]. apply elem_of_app. by left.
      * rewrite decide_False; [done|].
        intros [?|?%list_elem_of_singleton]%elem_of_app; by subst.
  - intros j [?|Hj%list_elem_of_singleton]%elem_of_app; [by apply Hr|by subst].
Qed.

Lemma tree_built_init nodes branch_factor :
  tree_built nodes branch_factor []
    (foldl (λ ch i, <[i := []]> ch) ∅ (py_range nodes), (∅ : gmap Z Z)).
Proof.
  split_and!; simpl.
  - intros p. rewrite tree_children_keys, lookup_empty.
    destruct (decide (0 ≤ p < nodes)) as [Hp|Hp].
    + rewrite decide_True; [done|]. by apply elem_of_py_range.
    + rewrite decide_False; [done|]. by rewrite elem_of_py_range.
  - intros i. by rewrite lookup_empty.
  - intros i Hi. by apply not_elem_of_nil in Hi.
Qed.

Lemma tree_build_built nodes branch_factor cp :
  Tree.build nodes branch_factor = Some cp →
  tree_built nodes branch_factor (py_range2 1 nodes) cp.
Proof.
  unfold Tree.build.
  apply (for_each_inv _ (tree_built nodes branch_factor)); [apply tree_built_init|].
  intros pre x post s1 s2 _ HI Hb. by eapply tree_link_built.
Qed.

Lemma tree_parent_nonneg branch_factor i :
  1 ≤ branch_factor → 1 ≤ i → 0 ≤ tree_parent branch_factor i < i.
Proof.
  intros Hb Hi. unfold tree_parent. split.
  - apply Z.div_pos; lia.
  - apply Z.div_lt_upper_bound; nia.
Qed.

Lemma tree_parent_neg branch_factor i :
  branch_factor < 0 → 2 ≤ i → tree_parent branch_factor i < 0.
Proof.
  intros Hb Hi. unfold tree_parent.
  pose proof (Z.div_mod (i - 1) branch_factor ltac:(lia)) as Hdm.
  pose proof (Z.mod_neg_bound (i - 1) branch_factor Hb) as Hm. nia.
Qed.

(** The set-up completes exactly when every node has a parent among the
    nodes. *)
Lemma tree_build_Some nodes branch_factor :
  is_Some (Tree.build nodes branch_factor) ↔
  ∀ i, 1 ≤ i < nodes → branch_factor ≠ 0 ∧ 0 ≤ tree_parent branch_factor i < nodes.
Proof.
  split.
  - intros [cp Hb] i Hi. apply tree_build_built in Hb as (_ & _ & Hr).
    apply Hr. by apply elem_of_py_range2.
  - intros Hall. unfold Tree.build.
    destruct (for_each_total (Tree.link branch_factor) (tree_built nodes branch_factor)
                (py_range2 1 nodes)
                (foldl (λ ch i, <[i := []]> ch) ∅ (py_range nodes), (∅ : gmap Z Z)))
      as (cp & Hcp & _); [apply tree_built_init| |by eexists].
    intros pre x post [ch ps] Hxs HI.
    apply py_range2_split in Hxs as (_ & Hx & _).
    destruct (Hall x Hx) as [Hbf Hp].
    assert (∃ cp', Tree.link branch_factor x (ch, ps) = Some cp') as [cp' Hl].
    { unfold Tree.link, py_floordiv. rewrite decide_False by done. simpl.
      fold (tree_parent branch_factor x).
      destruct HI as (Hch & _). simpl in Hch. rewrite Hch.
      rewrite decide_True by done. simpl. by eexists. }
    exists cp'. split; [done|]. by eapply tree_link_built.
Qed.

Lemma tree_build_None nodes branch_factor :
  Tree.build nodes branch_factor = None ↔
  2 ≤ nodes ∧ (branch_factor = 0 ∨ (branch_factor < 0 ∧ 3 ≤ nodes)).
Proof.
  rewrite eq_None_not_Some, tree_build_Some. split.
  - intros Hn.
    destruct (decide (2 ≤ nodes ∧ (branch_factor = 0 ∨ (branch_factor < 0 ∧ 3 ≤ nodes))))
      as [|Hc]; [done|].
    exfalso. apply Hn. intros i Hi.
    destruct (decide (1 ≤ branch_factor)) as [Hb|Hb].
    + pose proof (tree_parent_nonneg branch_factor i Hb ltac:(lia)). lia.
    + assert (i = 1) as -> by lia. unfold tree_parent. simpl.
      rewrite Z.div_0_l by lia. lia.
  - intros [Hn [->|[Hb Hn3]]] Hall.
    + destruct (Hall 1 ltac:(lia)). done.
    + destruct (Hall 2 ltac:(lia)) as [_ Hp].
      pose proof (tree_parent_neg branch_factor 2 Hb ltac:(lia)). lia.
Qed.

(** ** Tree: the two phases *)

Lemma reverse_py_range2_split a b pre x post :
  reverse (py_range2 a b) = pre ++ x :: post →
  x = b - 1 - Z.of_nat (length pre) ∧ a ≤ x < b.
Proof.
  intros Heq. apply (f_equal reverse) in Heq.
  rewrite reverse_involutive, reverse_app, reverse_cons, <- app_assoc in Heq. simpl in Heq.
  pose proof Heq as Hlen. apply (f_equal length) in Hlen.
  apply py_range2_split in Heq as (Hx & Hr & _).
  unfold py_range2 in Hlen.
  rewrite length_seqZ, length_app in Hlen. simpl in Hlen.
  rewrite !length_reverse in Hlen. rewrite length_reverse in Hx. lia.
Qed.

Lemma py_index_last {A} (l : list A) x : last l = Some x → py_index l (-1) = Some x.
Proof.
  intros Hl. unfold py_index. rewrite decide_False by lia.
  assert (l ≠ []) as Hne by (intros ->; done).
  assert (0 < length l)%nat by (destruct l; simpl; [done|lia]).
  rewrite decide_True by lia. rewrite last_lookup in Hl.
  rewrite <- Hl. f_equal. lia.
Qed.

Lemma tree_up_loop nodes branch_factor flowsize cp st :
  tree_built nodes branch_factor (py_range2 1 nodes) cp →
  flow_id st = 0 → trig_id st = 1 → flows_of (file st) = [] →
  ∃ st',
    for_each (Tree.up_step cp.2 flowsize) (reverse (py_range2 1 nodes)) st = Some st' ∧
    flows_of (file st') = tree_up_flow nodes branch_factor flowsize <$> reverse (py_range2 1 nodes) ∧
    grows 0 (λ _, True) st st' ∧
    trig_id st' = 1 + Z.of_nat (length (py_range2 1 nodes)) ∧
    flow_id st' = Z.of_nat (length (py_range2 1 nodes)).
Proof.
  intros (_ & Hps & _) Hid Htr Hfl.
  destruct (for_each_total (Tree.up_step cp.2 flowsize)
              (λ pre s,
                 flows_of (file s) = tree_up_flow nodes branch_factor flowsize <$> pre ∧
                 grows 0 (λ _, True) st s ∧
                 flow_id s = Z.of_nat (length pre) ∧ trig_id s = 1 + Z.of_nat (length pre))
              (reverse (py_range2 1 nodes)) st) as (st' & Hrun & HI).
  - split_and!; [done|apply grows_refl|simpl; lia..].
  - intros pre x post s1 Hxs (Hf1 & Hg1 & Hid1 & Htr1).
    apply reverse_py_range2_split in Hxs as [Hx Hr].
    unfold Tree.up_step. rewrite Hps.
    rewrite decide_True by (by apply elem_of_py_range2). simpl.
    eexists. split; [done|]. rewrite length_app. simpl.
    split_and!; simpl; try lia.
    + rewrite flows_of_app, Hf1, fmap_app. simpl. do 2 f_equal.
      unfold tree_up_flow. f_equal; try f_equal; lia.
    + eapply grows_trans; [exact Hg1|].
      eapply grows_emit; simpl; try done; lia.
  - exists st'. destruct HI as (? & ? & Hi & Ht). split_and!; try done.
    + by rewrite Ht, length_reverse.
    + by rewrite Hi, length_reverse.
Qed.

Lemma tree_down_loop nodes branch_factor flowsize cp st :
  tree_built nodes branch_factor (py_range2 1 nodes) cp →
  nodes ≤ trig_id st ≤ flow_id st + 1 →
  ∃ st' down,
    for_each (Tree.down_parent cp.1 nodes flowsize) (py_range nodes) st = Some st' ∧
    flows_of (file st') = flows_of (file st) ++ down ∧
    dst <$> down = tree_children_order nodes branch_factor (py_range nodes) ∧
    Forall (tree_down_flow nodes branch_factor flowsize) down ∧
    grows 0 (λ _, True) st st'.
Proof.
  intros (Hch & _ & _) Htr.
  pose (I := λ (kids : list Z) s,
          nodes ≤ trig_id s ≤ flow_id s + 1 ∧ grows 0 (λ _, True) st s ∧
          ∃ down, flows_of (file s) = flows_of (file st) ++ down ∧
                  dst <$> down = kids ∧
                  Forall (tree_down_flow nodes branch_factor flowsize) down).
  destruct (for_each_total (Tree.down_parent cp.1 nodes flowsize)
              (λ pre s, I (tree_children_order nodes branch_factor pre) s)
              (py_range nodes) st) as (st' & Hrun & HI).
  - split; [done|]. split; [apply grows_refl|]. exists []. by rewrite app_nil_r.
  - intros pre p post s1 Hxs HI1.
    apply py_range_split in Hxs as [_ Hp].
    unfold Tree.down_parent. rewrite Hch, decide_True by done. simpl.
    set (kids := filter (λ i, tree_parent branch_factor i = p) (py_range2 1 nodes)).
    unfold tree_children_order. rewrite fmap_app, join_app. simpl. rewrite app_nil_r.
    fold kids. fold (tree_children_order nodes branch_factor pre).
    generalize (tree_children_order nodes branch_factor pre) HI1. intros done1 HI1'.
    eapply (for_each_total _ (λ pre' s, I (done1 ++ pre') s)); [by rewrite app_nil_r|].
    intros pre' c post' s2 Hkids (Htr2 & Hg2 & down & Hf2 & Hd2 & HP2).
    assert (c ∈ kids) as Hc.
    { rewrite Hkids. apply elem_of_app. right. by apply elem_of_cons; left. }
    apply list_elem_of_filter in Hc as [Hpar Hc].
    assert (is_Some (last kids)) as [lk Hlk].
    { apply last_is_Some. rewrite Hkids. by destruct pre'. }
    unfold Tree.down_step. rewrite (py_index_last _ _ Hlk). simpl.
    case_decide.
    + eexists. split; [done|]. split_and!; simpl; try lia.
      * eapply grows_trans; [exact Hg2|]. eapply grows_emit; simpl; try done; lia.
      * eexists (down ++ [_]). rewrite flows_of_app, Hf2. simpl.
        rewrite <- !app_assoc. split; [done|].
        rewrite fmap_app, Hd2. simpl. rewrite <- app_assoc. split; [done|].
        apply Forall_app. split; [done|]. apply Forall_singleton.
        unfold tree_down_flow. simpl. split_and!; try done.
        -- eexists. split; [done|]. lia.
        -- intros t [= <-]. lia.
    + eexists. split; [done|]. split_and!; simpl; try lia.
      * eapply grows_trans; [exact Hg2|]. eapply grows_emit; simpl; try done; lia.
      * eexists (down ++ [_]). rewrite flows_of_app, Hf2. simpl.
        rewrite <- !app_assoc. split; [done|].
        rewrite fmap_app, Hd2. simpl. rewrite <- app_assoc. split; [done|].
        apply Forall_app. split; [done|]. apply Forall_singleton.
        unfold tree_down_flow. simpl. split_and!; try done.
        eexists. split; [done|]. lia.
  - destruct HI as (_ & Hg & down & ? & ? & ?). by exists st', down.
Qed.

(** Lists split by a key and joined again. *)
Lemma join_filter_perm (f : Z → Z) (ps xs : list Z) :
  NoDup ps → (∀ x, x ∈ xs → f x ∈ ps) →
  mjoin ((λ p, filter (λ x, f x = p) xs) <$> ps) ≡ₚ xs.
Proof.
  intros Hnd. revert xs. induction Hnd as [|p ps Hp Hnd IH]; intros xs Hxs; csimpl.
  - destruct xs as [|x xs]; [done|].
    specialize (Hxs x ltac:(by apply elem_of_cons; left)). by apply not_elem_of_nil in Hxs.
  - etrans; [|apply (filter_app_complement (λ x, f x = p) xs)].
    apply Permutation_app; [done|].
    assert ((λ q, filter (λ x, f x = q) xs) <$> ps
            = (λ q, filter (λ x, f x = q) (filter (λ x, ¬ f x = p) xs)) <$> ps) as ->.
    { apply Forall_fmap_ext_1, Forall_forall.
      intros q Hq. symmetry. apply list_filter_filter_l.
      intros x Hfq Hfp. apply Hp. by rewrite <- Hfp, Hfq. }
    apply IH.
    intros x [Hne Hx]%list_elem_of_filter.
      specialize (Hxs x Hx). apply elem_of_cons in Hxs as [?|?]; [done|done].
Qed.

Lemma tree_children_order_perm nodes branch_factor cp :
  Tree.build nodes branch_factor = Some cp →
  tree_children_order nodes branch_factor (py_range nodes) ≡ₚ py_range2 1 nodes.
Proof.
  intros (_ & _ & Hr)%tree_build_built. apply join_filter_perm.
  - apply NoDup_seqZ.
  - intros x Hx. apply elem_of_py_range. by apply Hr.
Qed.

Lemma connections_header_triggers ts : connections_header (LTrigger <$> ts) = [].
Proof. induction ts; simpl; auto. Qed.

Lemma triggers_header_triggers ts : triggers_header (LTrigger <$> ts) = [].
Proof. induction ts; simpl; auto. Qed.

Lemma connections_header_app l1 l2 :
  connections_header (l1 ++ l2) = connections_header l1 ++ connections_header l2.
Proof. apply omap_app. Qed.

Lemma triggers_header_app l1 l2 :
  triggers_header (l1 ++ l2) = triggers_header l1 ++ triggers_header l2.
Proof. apply omap_app. Qed.

Lemma tree_phases_spec nodes branch_factor flowsize cp :
  Tree.build nodes branch_factor = Some cp →
  ∃ st0 st1 st2 down,
    Tree.phases nodes branch_factor flowsize = Some (st0, st1, st2) ∧
    file st0 = [LNodes nodes; LConnections ((nodes - 1) * 2); LTriggers ((nodes - 1) * 2)] ∧
    flow_id st0 = 0 ∧
    grows 0 (λ _, True) st0 st2 ∧
    flows_of (file st2)
      = (tree_up_flow nodes branch_factor flowsize <$> reverse (py_range2 1 nodes)) ++ down ∧
    dst <$> down = tree_children_order nodes branch_factor (py_range nodes) ∧
    Forall (tree_down_flow nodes branch_factor flowsize) down.
Proof.
  intros Hb. pose proof (tree_build_built _ _ _ Hb) as Hbuilt.
  unfold Tree.phases. rewrite Hb. destruct cp as [children parents]. simpl.
  match goal with |- context [for_each (Tree.up_step _ _) _ ?s] =>
    destruct (tree_up_loop nodes branch_factor flowsize (children, parents) s Hbuilt)
      as (st1 & Hup & Hf1 & Hg1 & Ht1 & Hi1); [done..|]
  end.
  simpl in Hup. rewrite Hup. simpl.
  match goal with |- context [for_each (Tree.down_parent _ _ _) _ ?s] =>
    destruct (tree_down_loop nodes branch_factor flowsize (children, parents) s Hbuilt)
      as (st2 & down & Hdown & Hf2 & Hd & HP & Hg2)
  end.
  { simpl. rewrite Ht1, Hi1. unfold py_range2. rewrite length_seqZ. lia. }
  simpl in Hdown. rewrite Hdown. simpl.
  eexists _, _, _, down. split; [done|]. simpl. split_and!; try done.
  - eapply grows_trans; [|eapply grows_trans; [exact Hg1|]].
    + eapply (grows_skip _ _ _ _ [_]); simpl; try done.
      apply Forall_singleton. right. by eexists.
    + eapply grows_trans; [|exact Hg2].
      eapply (grows_skip _ _ _ _ [_]); simpl; try done.
      apply Forall_singleton. right. by eexists.
  - rewrite Hf2. simpl. rewrite flows_of_app. simpl. by rewrite app_nil_r, Hf1.
Qed.

(** ** Tree: the file *)

Lemma tree_gen_None `{Random} g nodes branch_factor flowsize randseed :
  Tree.build nodes branch_factor = None →
  Tree.gen g nodes branch_factor flowsize randseed = None.
Proof. intros Hb. unfold Tree.gen, Tree.phases. by rewrite Hb. Qed.

Lemma tree_gen_spec `{Random} g nodes branch_factor flowsize randseed cp :
  Tree.build nodes branch_factor = Some cp →
  ∃ out down,
    Tree.gen g nodes branch_factor flowsize randseed = Some out ∧
    flows_of out
      = (tree_up_flow nodes branch_factor flowsize <$> reverse (py_range2 1 nodes)) ++ down ∧
    dst <$> down = tree_children_order nodes branch_factor (py_range nodes) ∧
    Forall (tree_down_flow nodes branch_factor flowsize) down ∧
    fl_id <$> flows_of out = seqZ 1 (Z.of_nat (length (flows_of out))) ∧
    connections_header out = [(nodes - 1) * 2] ∧
    triggers_header out = [(nodes - 1) * 2].
Proof.
  intros Hb.
  destruct (tree_phases_spec nodes branch_factor flowsize cp Hb)
    as (st0 & st1 & st2 & down & Hp & Hf0 & Hid0 & Hg & Hfl & Hd & HP).
  unfold Tree.gen. rewrite Hp. simpl.
  eexists _, down. split; [done|].
  rewrite trigger_section_file. simpl.
  apply grows_file in Hg as (fs & Hfs & _ & Hids & _ & _ & _ & _ & Hch & Hth).
  rewrite Hf0 in Hfs, Hch, Hth. simpl in Hfs. rewrite Hid0 in Hids.
  rewrite !flows_of_app, !connections_header_app, !triggers_header_app,
    flows_of_triggers, connections_header_triggers, triggers_header_triggers.
  simpl. rewrite !app_nil_r. split_and!; try done.
  rewrite Hfs. exact Hids.
Qed.

(** ** Supernode *)

Lemma py_enumerate_split {A} (l : list A) pre i x post :
  py_enumerate l = pre ++ (i, x) :: post →
  i = Z.of_nat (length pre) ∧ (length pre + 1 + length post = length l)%nat.
Proof.
  unfold py_enumerate. intros Heq.
  assert (length (py_range (Z.of_nat (length l))) = length l) as Hlen.
  { unfold py_range. rewrite length_seqZ. lia. }
  pose proof (f_equal (fmap fst) Heq) as Hfst.
  rewrite fst_zip in Hfst by lia. rewrite fmap_app in Hfst. simpl in Hfst.
  apply py_range_split in Hfst as [Hi _]. rewrite length_fmap in Hi.
  split; [done|].
  apply (f_equal length) in Heq. rewrite length_zip, Hlen, length_app in Heq.
  simpl in Heq. lia.
Qed.

Lemma length_py_enumerate {A} (l : list A) : length (py_enumerate l) = length l.
Proof.
  unfold py_enumerate, py_range. rewrite length_zip, length_seqZ. lia.
Qed.

Lemma supernode_phase1_loop regular sn flowsize it nit st :
  let n := Z.of_nat (length regular) in
  flow_id st = 2 * n * it → trig_id st = flow_id st + 1 →
  (it ≠ 0 → nit = Some (trig_id st)) →
  ∃ st' l,
    for_each (Supernode.phase1_step sn flowsize it nit) (py_enumerate regular) (st, [])
      = Some (st', l) ∧
    file st' = file st ++ (LFlow <$> (supernode_uplink n sn flowsize it <$> py_enumerate regular)) ∧
    grows 1 (λ _, True) st st' ∧
    flow_id st' = flow_id st + n ∧ trig_id st' = flow_id st' + 1 ∧
    (regular ≠ [] → last l = Some (trig_id st')).
Proof.
  intros n Hid Htr Hnit.
  destruct (for_each_total (Supernode.phase1_step sn flowsize it nit)
              (λ pre sl,
                 file sl.1 = file st ++ (LFlow <$> (supernode_uplink n sn flowsize it <$> pre)) ∧
                 grows 1 (λ _, True) st sl.1 ∧
                 flow_id sl.1 = flow_id st + Z.of_nat (length pre) ∧
                 trig_id sl.1 = flow_id sl.1 + 1 ∧
                 (pre ≠ [] → last sl.2 = Some (trig_id sl.1)))
              (py_enumerate regular) (st, [])) as ([st' l] & Hrun & HI).
  - simpl. split_and!; [by rewrite app_nil_r|apply grows_refl|lia|done|done].
  - intros pre [i node] post [s1 l1] Hxs (Hf1 & Hg1 & Hid1 & Htr1 & _). simpl in *.
    apply py_enumerate_split in Hxs as [Hi _].
    unfold Supernode.phase1_step. eexists. split; [done|]. simpl.
    rewrite length_app. simpl. split_and!; try lia.
    + rewrite Hf1, !fmap_app, <- app_assoc. simpl. do 3 f_equal.
      unfold supernode_uplink, plain_flow. simpl.
      assert (start_eq :
        (if decide (it = 0 ∧ i = 0) then Start0
         else if decide (it > 0 ∧ i = 0) then gate_of nit
         else if decide (it = 0) then Start0 else gate_of nit)
        = if decide (it = 0) then Start0 else Trigger (2 * n * it + 1)).
      { destruct (decide (it = 0)) as [->|Hne].
        - repeat case_decide; try done; lia.
        - rewrite (Hnit Hne). simpl. repeat case_decide; try lia; f_equal; lia. }
      rewrite start_eq. do 2 f_equal; try lia. f_equal; lia.
    + eapply grows_trans; [exact Hg1|]. eapply grows_emit; simpl; try done; lia.
    + intros _. by rewrite last_snoc.
  - simpl in HI. destruct HI as (Hf & Hg & Hid' & Htr' & Hl).
    exists st', l. split_and!; try done.
    + rewrite Hid', length_py_enumerate. done.
    + intros Hne. apply Hl. intros Hnil.
      apply (f_equal length) in Hnil. rewrite length_py_enumerate in Hnil.
      by destruct regular.
Qed.

Lemma supernode_phase2_loop regular sn flowsize iterations it st :
  let n := Z.of_nat (length regular) in
  regular ≠ [] → it < iterations →
  flow_id st = 2 * n * it + n → trig_id st = flow_id st + 1 →
  ∃ st' o,
    for_each (Supernode.phase2_step sn flowsize it iterations n) (py_enumerate regular)
      (st, Some (trig_id st)) = Some (st', o) ∧
    file st' = file st ++
      (LFlow <$> (supernode_downlink n sn flowsize iterations it <$> py_enumerate regular)) ∧
    grows 1 (λ _, True) st st' ∧
    flow_id st' = flow_id st + n ∧
    if decide (it = iterations - 1) then o = None ∧ trig_id st' = flow_id st'
    else o = Some (trig_id st') ∧ trig_id st' = flow_id st' + 1.
Proof.
  intros n Hne Hit Hid Htr.
  assert (0 < n) as Hn by (unfold n; destruct regular; simpl; [done|lia]).
  destruct (for_each_total (Supernode.phase2_step sn flowsize it iterations n)
              (λ pre sl,
                 file sl.1 = file st ++
                   (LFlow <$> (supernode_downlink n sn flowsize iterations it <$> pre)) ∧
                 grows 1 (λ _, True) st sl.1 ∧
                 flow_id sl.1 = flow_id st + Z.of_nat (length pre) ∧
                 if decide (Z.of_nat (length pre) = n ∧ it = iterations - 1)
                 then sl.2 = None ∧ trig_id sl.1 = flow_id sl.1
                 else sl.2 = Some (trig_id sl.1) ∧ trig_id sl.1 = flow_id sl.1 + 1)
              (py_enumerate regular) (st, Some (trig_id st))) as ([st' o] & Hrun & HI).
  - simpl. split_and!; [by rewrite app_nil_r|apply grows_refl|lia|].
    rewrite decide_False by lia. done.
  - intros pre [i dest] post [s1 o1] Hxs (Hf1 & Hg1 & Hid1 & Hst1). simpl in *.
    apply py_enumerate_split in Hxs as [Hi Hlen].
    rewrite decide_False in Hst1 by (unfold n; lia). destruct Hst1 as [-> Htr1].
    unfold Supernode.phase2_step. simpl.
    destruct (decide (i < n - 1)) as [Hlt|Hlast];
      [|destruct (decide (it < iterations - 1)) as [Hlt|Hfin]].
    + eexists. split; [done|]. simpl. rewrite length_app. simpl.
      split_and!; try lia.
      * rewrite Hf1, !fmap_app, <- app_assoc. simpl. do 3 f_equal.
        unfold supernode_downlink, plain_flow. simpl.
        rewrite decide_False by lia. do 2 f_equal; try lia; f_equal; lia.
      * eapply grows_trans; [exact Hg1|]. eapply grows_emit; simpl; try done; lia.
      * rewrite decide_False by lia. split; [done|lia].
    + eexists. split; [done|]. simpl. rewrite length_app. simpl.
      split_and!; try lia.
      * rewrite Hf1, !fmap_app, <- app_assoc. simpl. do 3 f_equal.
        unfold supernode_downlink, plain_flow. simpl.
        rewrite decide_False by lia. do 2 f_equal; try lia; f_equal; lia.
      * eapply grows_trans; [exact Hg1|]. eapply grows_emit; simpl; try done; lia.
      * rewrite decide_False by lia. split; [done|lia].
    + eexists. split; [done|]. simpl. rewrite length_app. simpl.
      split_and!; try lia.
      * rewrite Hf1, !fmap_app, <- app_assoc. simpl. do 3 f_equal.
        unfold supernode_downlink, plain_flow. simpl.
        rewrite decide_True by (unfold n; lia). do 2 f_equal; try lia; f_equal; lia.
      * eapply grows_trans; [exact Hg1|]. eapply grows_emit; simpl; try done; lia.
      * rewrite decide_True by (unfold n; lia). split; [done|lia].
  - simpl in HI. destruct HI as (Hf & Hg & Hid' & Hst).
    rewrite length_py_enumerate in Hid', Hst. fold n in Hid', Hst.
    exists st', o. split_and!; try done.
    destruct (decide (it = iterations - 1)) as [Heq|Hneq].
    + by rewrite decide_True in Hst by done.
    + by rewrite decide_False in Hst by (intros [_ ?]; done).
Qed.

Lemma supernode_iteration_None regular sn flowsize iterations it sn0 :
  regular = [] →
  Supernode.iteration_body regular sn flowsize iterations it sn0 = None.
Proof. intros ->. by destruct sn0. Qed.

Lemma supernode_iteration_spec regular sn flowsize iterations it st nit :
  let n := Z.of_nat (length regular) in
  regular ≠ [] → it < iterations →
  flow_id st = 2 * n * it → trig_id st = flow_id st + 1 →
  (it ≠ 0 → nit = Some (trig_id st)) →
  ∃ st' nit',
    Supernode.iteration_body regular sn flowsize iterations it (st, nit) = Some (st', nit') ∧
    file st' = file st ++ (LFlow <$> supernode_iteration regular sn flowsize iterations it) ∧
    grows 1 (λ _, True) st st' ∧
    flow_id st' = 2 * n * (it + 1) ∧
    if decide (it = iterations - 1) then nit' = None ∧ trig_id st' = flow_id st'
    else nit' = Some (trig_id st') ∧ trig_id st' = flow_id st' + 1.
Proof.
  intros n Hne Hit Hid Htr Hnit.
  destruct (supernode_phase1_loop regular sn flowsize it nit st Hid Htr Hnit)
    as (st1 & l & Hrun1 & Hf1 & Hg1 & Hid1 & Htr1 & Hl).
  fold n in Hf1, Hid1.
  destruct (supernode_phase2_loop regular sn flowsize iterations it st1 Hne Hit)
    as (st2 & o & Hrun2 & Hf2 & Hg2 & Hid2 & Hst2); [fold n; lia|done|].
  fold n in Hrun2, Hf2, Hid2.
  unfold Supernode.iteration_body. rewrite Hrun1. simpl.
  rewrite (py_index_last _ _ (Hl Hne)). simpl. unfold n in Hrun2. rewrite Hrun2.
  exists st2, o. split_and!; try done.
  - rewrite Hf2, Hf1. unfold supernode_iteration. fold n.
    by rewrite <- app_assoc, fmap_app.
  - by eapply grows_trans.
  - lia.
Qed.

Lemma supernode_loop_spec regular sn flowsize iterations st :
  let n := Z.of_nat (length regular) in
  regular ≠ [] → flow_id st = 0 → trig_id st = 1 →
  ∃ st' nit',
    for_each (Supernode.iteration_body regular sn flowsize iterations) (py_range iterations)
      (st, None) = Some (st', nit') ∧
    file st' = file st ++ (LFlow <$> supernode_schedule regular sn flowsize iterations) ∧
    grows 1 (λ _, True) st st' ∧
    flow_id st' = 2 * n * Z.max iterations 0 ∧
    trig_id st' = Z.max (flow_id st') 1.
Proof.
  intros n Hne Hid Htr.
  destruct (for_each_total (Supernode.iteration_body regular sn flowsize iterations)
              (λ pre sl,
                 file sl.1 = file st ++
                   (LFlow <$> mjoin (supernode_iteration regular sn flowsize iterations <$> pre)) ∧
                 grows 1 (λ _, True) st sl.1 ∧
                 flow_id sl.1 = 2 * n * Z.of_nat (length pre) ∧
                 if decide (Z.of_nat (length pre) = iterations ∧ pre ≠ [])
                 then trig_id sl.1 = flow_id sl.1
                 else trig_id sl.1 = flow_id sl.1 + 1 ∧
                      (pre ≠ [] → sl.2 = Some (trig_id sl.1)))
              (py_range iterations) (st, None)) as ([st' nit'] & Hrun & HI).
  - simpl. split_and!; [by rewrite app_nil_r|apply grows_refl|lia|].
    rewrite decide_False by (by intros [_ ?]). split; [lia|done].
  - intros pre it post [s1 n1] Hxs (Hf1 & Hg1 & Hid1 & Hst1). simpl in *.
    apply py_range_split in Hxs as [Hit Hr].
    rewrite decide_False in Hst1 by lia. destruct Hst1 as [Htr1 Hn1].
    destruct (supernode_iteration_spec regular sn flowsize iterations it s1 n1 Hne)
      as (s2 & n2 & Hbody & Hf2 & Hg2 & Hid2 & Hst2); [lia|fold n; lia|done| |].
    { intros Hit0. apply Hn1. intros ->. simpl in Hit. lia. }
    fold n in Hid2.
    exists (s2, n2). split; [done|]. simpl. rewrite length_app. simpl.
    split_and!.
    + rewrite Hf2, Hf1, fmap_app, join_app, fmap_app, <- app_assoc. simpl.
      by rewrite app_nil_r.
    + by eapply grows_trans.
    + lia.
    + destruct (decide (it = iterations - 1)) as [Hlast|Hnl].
      * rewrite decide_True; [tauto|]. split; [lia|]. by destruct pre.
      * rewrite decide_False by lia. destruct Hst2 as [-> ?]. done.
  - simpl in HI. destruct HI as (Hf & Hg & Hid' & Hst).
    unfold py_range in Hid', Hst. rewrite length_seqZ in Hid', Hst.
    exists st', nit'. split_and!; try done.
    + rewrite Hid'. f_equal. lia.
    + assert (0 ≤ n) by (unfold n; lia).
      destruct (decide (0 < iterations)) as [Hpos|Hnp].
      * rewrite decide_True in Hst.
        { assert (0 < n) by (unfold n; destruct regular; simpl; [done|lia]). nia. }
        split; [lia|]. unfold py_range. intros Hnil.
        apply (f_equal length) in Hnil. rewrite length_seqZ in Hnil. simpl in Hnil. lia.
      * rewrite decide_False in Hst.
        { destruct Hst as [Hst _]. replace (Z.to_nat iterations) with 0%nat in Hid' by lia.
          lia. }
        intros [_ Hnn]. apply Hnn. unfold py_range.
        replace iterations with (- Z.of_nat (Z.to_nat (- iterations))) by lia.
        destruct (Z.to_nat (- iterations)); [done|]. by rewrite seqZ_nil by lia.
Qed.

(** ** The node order is a permutation *)

Lemma swap_perm {A} (x : list A) i j : swap x i j ≡ₚ x.
Proof.
  unfold swap. destruct (x !! i) as [a|] eqn:Hi; [|done].
  destruct (x !! j) as [b|] eqn:Hj; [|done]. by apply Permutation_insert_swap.
Qed.

Lemma shuffle_from_perm `{Random} i x g : (shuffle_from i x g).1 ≡ₚ x.
Proof.
  revert x g. induction i as [|i IH]; intros x g; simpl; [done|].
  destruct (randbelow g (S (S i))) as [j g']. rewrite IH. apply swap_perm.
Qed.

Lemma shuffle_perm `{Random} x g : (shuffle x g).1 ≡ₚ x.
Proof. apply shuffle_from_perm. Qed.

Lemma ring_node_order_perm `{Random} g nodes randseed :
  Ring.node_order g nodes randseed ≡ₚ py_range nodes.
Proof. unfold Ring.node_order. apply shuffle_perm. Qed.

Lemma supernode_node_order_perm `{Random} g nodes randseed :
  Supernode.node_order g nodes randseed ≡ₚ py_range (nodes - 1).
Proof. unfold Supernode.node_order. case_decide; [apply shuffle_perm|done]. Qed.

Lemma supernode_node_order_nil `{Random} g nodes randseed :
  Supernode.node_order g nodes randseed = [] ↔ nodes ≤ 1.
Proof.
  pose proof (Permutation_length (supernode_node_order_perm g nodes randseed)) as Hlen.
  unfold py_range in Hlen. rewrite length_seqZ in Hlen.
  split.
  - intros Hnil. rewrite Hnil in Hlen. simpl in Hlen. lia.
  - intros Hn. destruct (Supernode.node_order g nodes randseed); [done|]. simpl in Hlen. lia.
Qed.

(** ** Files with a counted header *)

Lemma connections_header_insert_header c t ls :
  connections_header ls = [] → connections_header (insert_header c t ls) = [c].
Proof.
  intros Hnil. rewrite <- (take_drop 1 ls), connections_header_app in Hnil.
  apply app_eq_nil in Hnil as [H1 H2].
  unfold insert_header. rewrite !connections_header_app, H1, H2. done.
Qed.

Lemma triggers_header_insert_header c t ls :
  triggers_header ls = [] → triggers_header (insert_header c t ls) = [t].
Proof.
  intros Hnil. rewrite <- (take_drop 1 ls), triggers_header_app in Hnil.
  apply app_eq_nil in Hnil as [H1 H2].
  unfold insert_header. rewrite !triggers_header_app, H1, H2. done.
Qed.

(** The file a script leaves when it has written flows from [open_file],
    then comments, then the trigger section, and has put the counted
    header in. *)
Lemma counted_file P nodes st notes :
  grows 1 P (open_file nodes 0) st → 1 ≤ trig_id st → Forall quiet notes →
  let out := insert_header (connections st) (trig_id st)
               ((file st ++ notes) ++ (LTrigger <$> py_range2 1 (trig_id st + 1))) in
  flows_of out = flows_of (file st) ∧
  fl_id <$> flows_of out = seqZ 1 (Z.of_nat (length (flows_of out))) ∧
  declared_triggers out = seqZ 1 (trig_id st) ∧
  connections_header out = [Z.of_nat (length (flows_of out))] ∧
  triggers_header out = [Z.of_nat (length (declared_triggers out))].
Proof.
  intros Hg Ht Hq out.
  apply grows_file in Hg as (fs & Hfs & _ & Hids & _ & Hc & _ & Hd & Hch & Hth).
  simpl in *.
  assert (flows_of out = fs) as Hout.
  { unfold out. rewrite flows_of_insert_header, !flows_of_app, flows_of_triggers,
      (flows_of_quiet notes Hq), !app_nil_r. done. }
  assert (declared_triggers out = seqZ 1 (trig_id st)) as Hdecl.
  { unfold out. rewrite declared_triggers_insert_header, !declared_triggers_app,
      declared_triggers_triggers, (declared_triggers_quiet notes Hq), Hd. simpl.
    unfold py_range2. f_equal. lia. }
  rewrite Hout, Hdecl. split_and!; try done.
  - unfold out. rewrite connections_header_insert_header.
    + f_equal. lia.
    + rewrite !connections_header_app, connections_header_triggers,
        (connections_header_quiet notes Hq), Hch. done.
  - unfold out. rewrite triggers_header_insert_header.
    + f_equal. rewrite length_seqZ. lia.
    + rewrite !triggers_header_app, triggers_header_triggers,
        (triggers_header_quiet notes Hq), Hth. done.
Qed.

Lemma counted_section_out st :
  1 ≤ trig_id st →
  insert_header (connections (counted_trigger_section st).1) (counted_trigger_section st).2
    (file (counted_trigger_section st).1)
  = insert_header (connections st) (trig_id st)
      ((file st ++ []) ++ (LTrigger <$> py_range2 1 (trig_id st + 1))).
Proof.
  intros Ht. destruct (counted_trigger_section_counters st) as (_ & -> & ->).
  rewrite counted_trigger_section_file, app_nil_r.
  unfold py_range2. rewrite length_seqZ. f_equal. lia.
Qed.

(** ** Supernode: the file *)

Lemma supernode_body_grows `{Random} g nodes flowsize iterations randseed st :
  Supernode.body g nodes flowsize iterations randseed = Some st →
  grows 1 (λ _, True) (open_file nodes 0) st.
Proof.
  unfold Supernode.body. intros Hb.
  apply fmap_Some in Hb as ([st' nit'] & Hrun & ->). simpl.
  revert Hrun. apply (for_each_grows 1 _ fst).
  intros it [s1 n1] [s2 n2] _ Hbody. simpl.
  unfold Supernode.iteration_body in Hbody.
  apply bind_Some in Hbody as ([s3 l3] & Hp1 & Hbody).
  apply bind_Some in Hbody as (t & _ & Hp2).
  assert (grows 1 (λ _, True) (s1, @nil Z).1 (s3, l3).1) as Hg1.
  { eapply for_each_grows; [|exact Hp1].
    intros [i node] [s4 l4] [s5 l5] _ Hstep. simpl.
    unfold Supernode.phase1_step in Hstep. simplify_eq.
    eapply grows_emit; simpl; try done; lia. }
  assert (grows 1 (λ _, True) (s3, Some t).1 (s2, n2).1) as Hg2.
  { eapply for_each_grows; [|exact Hp2].
    intros [i node] [s4 o4] [s5 o5] _ Hstep. simpl.
    unfold Supernode.phase2_step in Hstep.
    repeat case_decide; simplify_eq; eapply grows_emit; simpl; try done; lia. }
  by eapply grows_trans.
Qed.

Lemma supernode_gen_out `{Random} g nodes flowsize iterations randseed st :
  Supernode.body g nodes flowsize iterations randseed = Some st →
  Supernode.gen g nodes flowsize iterations randseed
  = Some (insert_header (connections st) (trig_id st)
            ((file st ++ []) ++ (LTrigger <$> py_range2 1 (trig_id st + 1)))).
Proof.
  intros Hb. unfold Supernode.gen. rewrite Hb. simpl.
  pose proof (supernode_body_grows _ _ _ _ _ _ Hb) as Hg.
  apply grows_file in Hg as (_ & _ & _ & _ & _ & _ & Ht & _). simpl in Ht.
  rewrite <- (counted_section_out st Ht).
  by destruct (counted_trigger_section st).
Qed.

Lemma supernode_body_spec `{Random} g nodes flowsize iterations randseed :
  let regular := Supernode.node_order g nodes randseed in
  if decide (regular = [] ∧ 1 ≤ iterations)
  then Supernode.body g nodes flowsize iterations randseed = None
  else ∃ st,
    Supernode.body g nodes flowsize iterations randseed = Some st ∧
    flows_of (file st) = supernode_schedule regular (nodes - 1) flowsize iterations ∧
    trig_id st = Z.max (Z.of_nat (length (flows_of (file st)))) 1 ∧
    Z.of_nat (length (flows_of (file st)))
      = 2 * Z.of_nat (length regular) * Z.max iterations 0.
Proof.
  intros regular. unfold Supernode.body. fold regular.
  destruct (decide (regular = [] ∧ 1 ≤ iterations)) as [[Hnil Hit]|Hok].
  - unfold py_range. rewrite seqZ_cons by lia.
    by rewrite for_each_cons, supernode_iteration_None.
  - destruct (decide (regular = [])) as [Hnil|Hne].
    + assert (iterations ≤ 0) as Hit.
      { destruct (decide (1 ≤ iterations)); [exfalso; by apply Hok|lia]. }
      unfold supernode_schedule, py_range. rewrite seqZ_nil by lia. simpl.
      eexists. split; [done|]. rewrite Hnil. simpl. split_and!; [done|done|lia].
    + destruct (supernode_loop_spec regular (nodes - 1) flowsize iterations
                  (open_file nodes 0) Hne eq_refl eq_refl)
        as (st' & nit' & Hrun & Hf & Hg & Hid & Htr).
      rewrite Hrun. simpl. exists st'. split; [done|].
      apply grows_file in Hg as (fs & Hfs & _ & _ & Hlen & _).
      simpl in Hfs, Hlen. rewrite Hfs. split; [|lia].
      rewrite <- Hfs, Hf. simpl. unfold flows_of. simpl.
      generalize (supernode_schedule regular (nodes - 1) flowsize iterations).
      intros l. induction l as [|x l IH]; simpl; [done|]. by f_equal.
Qed.

(** ** Inc: the aggregator of a chunk *)

Lemma nodes_per_pod_nonneg k : 0 ≤ Inc.nodes_per_pod k.
Proof. unfold Inc.nodes_per_pod. apply Z.div_pos; nia. Qed.

Lemma nodes_per_pod_zero k : Inc.nodes_per_pod k = 0 ↔ -1 ≤ k ≤ 1.
Proof.
  unfold Inc.nodes_per_pod. split.
  - intros H0. destruct (decide (-1 ≤ k ≤ 1)) as [|Hk]; [done|].
    assert (4 ≤ k * k) as Hkk by nia.
    pose proof (Z.div_le_mono 4 (k * k) 4 ltac:(lia) Hkk) as Hd.
    change (4 `div` 4) with 1 in Hd. lia.
  - intros Hk. apply Z.div_small. nia.
Qed.

Lemma length_agg_nodes k : Z.of_nat (length (Inc.agg_nodes k)) = Inc.nodes_per_pod k.
Proof.
  unfold Inc.agg_nodes, py_range2. rewrite length_seqZ.
  pose proof (nodes_per_pod_nonneg k). lia.
Qed.

Lemma chunk_to_agg_node_spec k cid :
  Inc.chunk_to_agg_node k cid =
  if decide (-1 ≤ k ≤ 1) then None else Some (cid `mod` Inc.nodes_per_pod k).
Proof.
  unfold Inc.chunk_to_agg_node, py_mod. rewrite length_agg_nodes.
  pose proof (nodes_per_pod_zero k) as Hz. pose proof (nodes_per_pod_nonneg k) as Hn.
  destruct (decide (-1 ≤ k ≤ 1)) as [Hk|Hk].
  - rewrite decide_True by tauto. done.
  - rewrite decide_False by tauto. simpl.
    assert (0 < Inc.nodes_per_pod k) as Hpos by (destruct (decide (Inc.nodes_per_pod k = 0)); [tauto|lia]).
    pose proof (Z.mod_pos_bound cid _ Hpos) as Hm.
    unfold py_index. rewrite decide_True by lia.
    unfold Inc.agg_nodes, py_range2.
    apply lookup_seqZ. lia.
Qed.

(** ** Inc: the file *)

Lemma or_synthetic_grows dc P sl :
  grows dc P sl.1 (Inc.or_synthetic sl).1.
Proof.
  destruct sl as [s [t|]]; unfold Inc.or_synthetic; simpl; [apply grows_refl|].
  apply (grows_skip _ _ _ _ []); simpl; [by rewrite app_nil_r|done..|lia].
Qed.

Lemma inc_chunk_grows nodes k flowsize chunks fid iterations window rid c v v' :
  1 ≤ rid ≤ iterations → 0 ≤ c < chunks →
  Inc.chunk_body (py_range nodes) k flowsize fid window rid c v = Some v' →
  grows 1 (inc_flow_ok nodes k flowsize chunks fid iterations) (Inc.st v) (Inc.st v').
Proof.
  intros Hrid Hc Hbody. unfold Inc.chunk_body in Hbody.
  apply bind_Some in Hbody as (cst & _ & Hbody).
  apply bind_Some in Hbody as (dst_agg & Hagg & Hbody).
  rewrite chunk_to_agg_node_spec in Hagg. case_decide; [done|]. injection Hagg as <-.
  apply bind_Some in Hbody as ([s1 o1] & Hup & Hbody).
  pose proof (or_synthetic_grows 1 (inc_flow_ok nodes k flowsize chunks fid iterations) (s1, o1))
    as Hsyn1.
  destruct (Inc.or_synthetic (s1, o1)) as [s2 lut].
  apply bind_Some in Hbody as ([s3 o3] & Hdown & Hbody).
  pose proof (or_synthetic_grows 1 (inc_flow_ok nodes k flowsize chunks fid iterations) (s3, o3))
    as Hsyn2.
  destruct (Inc.or_synthetic (s3, o3)) as [s4 ldt].
  apply bind_Some in Hbody as (l' & _ & Hbody). simplify_eq. simpl in *.
  assert (grows 1 (inc_flow_ok nodes k flowsize chunks fid iterations)
            (Inc.st v, @None Z).1 (s1, o1).1) as Hg1.
  { eapply for_each_grows; [|exact Hup].
    intros src [s5 o5] [s6 o6] Hsrc Hstep. simpl.
    apply elem_of_py_range in Hsrc.
    unfold Inc.up_step in Hstep. case_decide; simplify_eq; [apply grows_refl|].
    eapply grows_emit; simpl; try done; try lia.
    split_and!; simpl; [done|by eexists|].
    exists rid, c. split_and!; try lia. left. split_and!; try done; lia. }
  assert (grows 1 (inc_flow_ok nodes k flowsize chunks fid iterations)
            (s2, @None Z).1 (s3, o3).1) as Hg2.
  { eapply for_each_grows; [|exact Hdown].
    intros dst [s5 o5] [s6 o6] Hdst Hstep. simpl.
    apply elem_of_py_range in Hdst.
    unfold Inc.down_step in Hstep. case_decide; simplify_eq; [apply grows_refl|].
    eapply grows_emit; simpl; try done; try lia.
    split_and!; simpl; [done|by eexists|].
    exists rid, c. split_and!; try lia. right.
    split_and!; try done; try lia. by eexists. }
  simpl in *.
  eapply grows_trans; [exact Hg1|]. eapply grows_trans; [exact Hsyn1|].
  eapply grows_trans; [exact Hg2|]. exact Hsyn2.
Qed.

Lemma inc_iteration_grows nodes k flowsize chunks fid iterations window it v v' :
  0 ≤ it < iterations →
  Inc.iteration_body (py_range nodes) k flowsize chunks fid window it v = Some v' →
  grows 1 (inc_flow_ok nodes k flowsize chunks fid iterations) (Inc.st v) (Inc.st v').
Proof.
  intros Hit Hbody. unfold Inc.iteration_body in Hbody.
  apply bind_Some in Hbody as (v3 & Hchunks & Hbody).
  apply bind_Some in Hbody as (t & _ & Hbody). simplify_eq. simpl.
  eapply grows_trans.
  - apply (grows_skip _ _ (Inc.st v)
             (print (LComment ("--- ITERATION " +:+ pretty (it + 1) +:+ " ---"))
                (print LBlank (Inc.st v)))
             [LBlank; LComment ("--- ITERATION " +:+ pretty (it + 1) +:+ " ---")]);
      simpl; try done; try lia.
    + by rewrite <- app_assoc.
    + apply Forall_cons. split; [by left|]. apply Forall_singleton. right. by eexists.
  - match type of Hchunks with for_each _ _ ?v0 = _ =>
      change (print _ (print LBlank (Inc.st v))) with (Inc.st v0)
    end.
    eapply (for_each_grows 1 _ Inc.st); [|exact Hchunks].
    intros c v4 v5 Hc Hchunk. apply elem_of_py_range in Hc.
    eapply inc_chunk_grows; [|done|exact Hchunk]. lia.
Qed.

Lemma inc_body_grows nodes k flowsize chunks fid iterations window v :
  Inc.body nodes k flowsize chunks fid iterations window = Some v →
  grows 1 (inc_flow_ok nodes k flowsize chunks fid iterations) (open_file nodes 0) (Inc.st v).
Proof.
  unfold Inc.body.
  match goal with |- for_each _ _ ?v0 = _ → _ =>
    change (open_file nodes 0) with (Inc.st v0)
  end.
  apply (for_each_grows 1 _ Inc.st).
  intros it v1 v2 Hit Hbody. apply elem_of_py_range in Hit.
  by eapply inc_iteration_grows.
Qed.

(** ** Inc: when the script completes *)

Lemma trigger_section_counters st :
  trig_id (trigger_section st) = trig_id st ∧
  connections (trigger_section st) = connections st.
Proof.
  unfold trigger_section. generalize (py_range2 1 (trig_id st + 1)). intros ts.
  revert st. induction ts as [|t ts IH]; intros st; simpl; [done|].
  destruct (IH (print (LTrigger t) st)) as [-> ->]. done.
Qed.

Lemma inc_gen_out `{Random} g nodes k flowsize chunks fid iterations window randseed v :
  Inc.body nodes k flowsize chunks fid iterations window = Some v →
  Inc.gen g nodes k flowsize chunks fid iterations window randseed
  = Some (insert_header (connections (Inc.st v)) (trig_id (Inc.st v))
            ((file (Inc.st v) ++ [LBlank; LComment "--- TRIGGERS ---"]) ++
             (LTrigger <$> py_range2 1 (trig_id (Inc.st v) + 1)))).
Proof.
  intros Hb. unfold Inc.gen. rewrite Hb. simpl.
  match goal with |- context [trigger_section ?s] =>
    destruct (trigger_section_counters s) as [-> ->]; rewrite (trigger_section_file s)
  end.
  simpl. do 3 f_equal. by rewrite <- app_assoc.
Qed.

Lemma for_each_always {S A} (body : A → S → option S) xs s :
  (∀ x s1, is_Some (body x s1)) → is_Some (for_each body xs s).
Proof.
  intros Hb.
  destruct (for_each_total body (λ _ _, True) xs s) as (s' & Hs & _); [done| |by eexists].
  intros pre x post s1 _ _. destruct (Hb x s1) as [s2 Hs2]. by exists s2.
Qed.

Lemma py_range_cons n : 1 ≤ n → py_range n = 0 :: py_range2 1 n.
Proof. intros Hn. unfold py_range, py_range2. rewrite seqZ_cons by lia. do 2 f_equal. Qed.

Lemma py_range_snoc n : 1 ≤ n → py_range n = py_range (n - 1) ++ [n - 1].
Proof.
  intros Hn. unfold py_range.
  replace n with (Z.of_nat (S (Z.to_nat (n - 1)))) at 1 by lia.
  rewrite seqZ_S, Z2Nat.id by lia. done.
Qed.

Lemma py_index_Some {A} (l : list A) i :
  0 ≤ i < Z.of_nat (length l) → is_Some (py_index l i).
Proof.
  intros Hi. unfold py_index. rewrite decide_True by lia.
  apply lookup_lt_is_Some. lia.
Qed.

Lemma py_index_None {A} (l : list A) i :
  Z.of_nat (length l) ≤ i ∨ i < - Z.of_nat (length l) → py_index l i = None.
Proof.
  intros Hi. unfold py_index. destruct (decide (0 ≤ i)).
  - apply lookup_ge_None. lia.
  - rewrite decide_False by lia. done.
Qed.

Lemma inc_chunk_length hosts k flowsize fid window rid c v v' :
  Inc.chunk_body hosts k flowsize fid window rid c v = Some v' →
  length (Inc.last_downlink_trigger v') = length (Inc.last_downlink_trigger v) ∧
  Inc.iteration_start_trigger v' = Inc.iteration_start_trigger v.
Proof.
  unfold Inc.chunk_body. intros Hbody.
  apply bind_Some in Hbody as (cst & _ & Hbody).
  apply bind_Some in Hbody as (dst_agg & _ & Hbody).
  apply bind_Some in Hbody as (up & _ & Hbody).
  destruct (Inc.or_synthetic up) as [s2 lut].
  apply bind_Some in Hbody as (down & _ & Hbody).
  destruct (Inc.or_synthetic down) as [s4 ldt].
  apply bind_Some in Hbody as (l' & Hset & Hbody). simplify_eq. simpl.
  split; [|done]. by eapply py_setitem_length.
Qed.

Lemma inc_chunk_Some hosts k flowsize fid window rid chunks c v :
  ¬ -1 ≤ k ≤ 1 → 0 ≤ window → 0 ≤ c < chunks →
  Z.of_nat (length (Inc.last_downlink_trigger v)) = chunks →
  is_Some (Inc.chunk_body hosts k flowsize fid window rid c v).
Proof.
  intros Hk Hw Hc Hlen. unfold Inc.chunk_body.
  assert (is_Some (if decide (c < window) then Some (Inc.iteration_start_trigger v)
                   else prev_t ← py_index (Inc.last_downlink_trigger v) (c - window);
                        Some (if decide (prev_t ≠ -1) then Some prev_t
                              else Inc.iteration_start_trigger v))) as [cst ->].
  { case_decide; [by eexists|].
    destruct (py_index_Some (Inc.last_downlink_trigger v) (c - window)) as [t ->]; [lia|].
    by eexists. }
  simpl. rewrite chunk_to_agg_node_spec, decide_False by done. simpl.
  match goal with |- context [for_each ?b ?xs ?s] =>
    destruct (for_each_always b xs s) as [up ->]
  end.
  { intros x [s1 o1]. unfold Inc.up_step. case_decide; by eexists. }
  simpl. destruct (Inc.or_synthetic up) as [s2 lut].
  match goal with |- context [for_each ?b ?xs ?s] =>
    destruct (for_each_always b xs s) as [down ->]
  end.
  { intros x [s1 o1]. unfold Inc.down_step. case_decide; by eexists. }
  simpl. destruct (Inc.or_synthetic down) as [s4 ldt].
  unfold py_setitem. rewrite decide_True by lia. rewrite decide_True by lia.
  simpl. by eexists.
Qed.

Lemma inc_chunks_length hosts k flowsize fid window rid xs v v' :
  for_each (Inc.chunk_body hosts k flowsize fid window rid) xs v = Some v' →
  length (Inc.last_downlink_trigger v') = length (Inc.last_downlink_trigger v).
Proof.
  apply (for_each_inv0 _ (λ v1, length (Inc.last_downlink_trigger v1)
                                 = length (Inc.last_downlink_trigger v))); [done|].
  intros c v1 v2 _ Hl Hc. apply inc_chunk_length in Hc as [-> _]. done.
Qed.

Lemma inc_iteration_Some hosts k flowsize chunks fid window it v :
  ¬ -1 ≤ k ≤ 1 → 0 ≤ window → 1 ≤ chunks →
  Z.of_nat (length (Inc.last_downlink_trigger v)) = chunks →
  ∃ v', Inc.iteration_body hosts k flowsize chunks fid window it v = Some v' ∧
        Z.of_nat (length (Inc.last_downlink_trigger v')) = chunks.
Proof.
  intros Hk Hw Hc Hlen. unfold Inc.iteration_body.
  match goal with |- context [for_each ?b ?xs ?s] =>
    destruct (for_each_total b
                (λ _ v1, Z.of_nat (length (Inc.last_downlink_trigger v1)) = chunks) xs s)
      as (v1 & -> & Hlen1)
  end; [done| |].
  - intros pre c post v1 Hxs Hlen1. apply py_range_split in Hxs as [_ Hcr].
    destruct (inc_chunk_Some hosts k flowsize fid window (it + 1) chunks c v1) as [v2 Hv2];
      [done..|].
    exists v2. split; [done|]. apply inc_chunk_length in Hv2 as [-> _]. done.
  - simpl.
    destruct (py_index_Some (Inc.last_downlink_trigger v1) (chunks - 1)) as [t ->]; [lia|].
    simpl. by eexists.
Qed.

Lemma inc_iteration_None hosts k flowsize chunks fid window it v :
  Z.of_nat (length (Inc.last_downlink_trigger v)) = Z.max chunks 0 →
  chunks ≤ 0 ∨ -1 ≤ k ≤ 1 ∨ window < 0 →
  Inc.iteration_body hosts k flowsize chunks fid window it v = None.
Proof.
  intros Hlen Hbad. unfold Inc.iteration_body.
  match goal with |- context [for_each ?b ?xs ?s] =>
    destruct (for_each b xs s) as [v1|] eqn:Hrun
  end; [|done].
  simpl. destruct (decide (chunks ≤ 0)) as [Hc|Hc].
  { apply inc_chunks_length in Hrun. simpl in Hrun.
    rewrite py_index_None; [done|]. lia. }
  exfalso. destruct Hbad as [?|[Hk|Hw]]; [lia| |].
  - rewrite py_range_cons, for_each_cons in Hrun by lia.
    apply bind_Some in Hrun as (v2 & Hbody & _).
    unfold Inc.chunk_body in Hbody.
    apply bind_Some in Hbody as (cst & _ & Hbody).
    rewrite chunk_to_agg_node_spec, decide_True in Hbody by done. done.
  - rewrite py_range_snoc in Hrun by lia.
    apply for_each_split in Hrun as (v2 & v3 & Hpre & Hbody & _).
    apply inc_chunks_length in Hpre. simpl in Hpre.
    unfold Inc.chunk_body in Hbody.
    rewrite decide_False in Hbody by lia.
    rewrite (py_index_None (Inc.last_downlink_trigger v2)) in Hbody; [done|]. lia.
Qed.

Lemma inc_body_None_iff nodes k flowsize chunks fid iterations window :
  Inc.body nodes k flowsize chunks fid iterations window = None ↔
  1 ≤ iterations ∧ (chunks ≤ 0 ∨ -1 ≤ k ≤ 1 ∨ window < 0).
Proof.
  unfold Inc.body. split.
  - intros Hnone.
    destruct (decide (1 ≤ iterations)) as [Hit|Hit]; [split; [done|]|].
    + destruct (decide (chunks ≤ 0)) as [|Hc]; [by left|].
      destruct (decide (-1 ≤ k ≤ 1)) as [|Hk]; [by right; left|].
      destruct (decide (window < 0)) as [|Hw]; [by right; right|].
      exfalso.
      match type of Hnone with for_each ?b ?xs ?s = _ =>
        destruct (for_each_total b
                    (λ _ v1, Z.of_nat (length (Inc.last_downlink_trigger v1)) = chunks) xs s)
          as (v1 & Hv1 & _)
      end.
      * simpl. rewrite length_replicate. lia.
      * intros pre it post v1 _ Hlen.
        apply (inc_iteration_Some (py_range nodes) k flowsize chunks fid window it v1);
          [done|lia|lia|done].
      * congruence.
    + exfalso. unfold py_range in Hnone.
      by rewrite (seqZ_nil 0 iterations) in Hnone by lia.
  - intros [Hit Hbad]. rewrite (py_range_cons iterations), for_each_cons by lia.
    rewrite inc_iteration_None; [done| |done].
    simpl. rewrite length_replicate. lia.
Qed.

(** ** Ring: when the script completes, and how many flows it writes *)

Lemma ring_group_members_elem srcs groupsize group m x :
  Ring.group_members srcs groupsize group = Some m → x ∈ m → x ∈ srcs.
Proof.
  unfold Ring.group_members. intros Hm%mapM_Some_1 Hx.
  apply list_elem_of_lookup in Hx as [i Hi].
  destruct (Forall2_lookup_r _ _ _ _ _ Hm Hi) as (n & _ & Hn).
  by eapply py_index_elem.
Qed.

Lemma ring_group_members_Some srcs groupsize group :
  0 ≤ group → 0 ≤ groupsize → (group + 1) * groupsize ≤ Z.of_nat (length srcs) →
  ∃ m, Ring.group_members srcs groupsize group = Some m ∧ Z.of_nat (length m) = groupsize.
Proof.
  intros Hg Hgs Hlen. unfold Ring.group_members.
  destruct (mapM_is_Some_2 (λ n, py_index srcs (group * groupsize + n)) (py_range groupsize))
    as [m Hm].
  - apply Forall_forall. intros n Hn%elem_of_py_range. simpl.
    apply py_index_Some. nia.
  - exists m. split; [done|]. apply mapM_Some_1, Forall2_length in Hm.
    rewrite <- Hm. unfold py_range. rewrite length_seqZ. lia.
Qed.

Lemma ring_local_order_elem locality l x : x ∈ Ring.local_order locality l → x ∈ l.
Proof.
  unfold Ring.local_order. case_decide; [|done].
  by rewrite merge_sort_Permutation.
Qed.

Section ring.
Context (nodes flowsize : Z) (srcs : list Z).
Hypothesis Hsrcs : ∀ x, x ∈ srcs → 0 ≤ x < nodes.

Lemma ring_step_spec groupsize groupsrcs s d st :
  Z.of_nat (length groupsrcs) = groupsize → (∀ x, x ∈ groupsrcs → x ∈ srcs) →
  0 ≤ s → 1 ≤ d < groupsize →
  ∃ st', Ring.step groupsize flowsize groupsrcs s d st = Some st' ∧
         grows 1 (ring_flow nodes flowsize) st st' ∧ flow_id st' = flow_id st + 1.
Proof.
  intros Hlen Hin Hs Hd. unfold Ring.step, py_mod.
  rewrite !(decide_False (P := groupsize = 0)) by lia. simpl.
  pose proof (Z.mod_pos_bound (s + d - 1) groupsize ltac:(lia)) as Hm1.
  pose proof (Z.mod_pos_bound (s + d) groupsize ltac:(lia)) as Hm2.
  destruct (py_index_Some groupsrcs ((s + d - 1) `mod` groupsize)) as [a Ha]; [lia|].
  destruct (py_index_Some groupsrcs ((s + d) `mod` groupsize)) as [b Hb]; [lia|].
  rewrite Ha, Hb. simpl.
  assert (ring_flow nodes flowsize {| src := a; dst := b; fl_id := 0; start := Start0; size := flowsize;
               send_done_trigger := None; sem := None |}) as HP.
  { pose proof (Hsrcs a (Hin a (py_index_elem _ _ _ Ha))).
    pose proof (Hsrcs b (Hin b (py_index_elem _ _ _ Hb))).
    split_and!; simpl; try done; try lia; by left. }
  destruct (decide (d = 1)), (decide (d ≠ groupsize - 1));
    (eexists; split; [done|]; split; [|simpl; lia];
     eapply grows_emit; simpl; try done; try lia; exact HP).
Qed.

Lemma ring_phase1_group_spec groupsize locality group sg :
  0 ≤ group → 1 ≤ groupsize → (group + 1) * groupsize ≤ Z.of_nat (length srcs) →
  ∃ sg', Ring.phase1_group srcs groupsize flowsize locality group sg = Some sg' ∧
         length sg'.2 = S (length sg.2) ∧
         grows 1 (ring_flow nodes flowsize) sg.1 sg'.1 ∧
         flow_id sg'.1 = flow_id sg.1 + groupsize * (groupsize - 1).
Proof.
  intros Hg Hgs Hlen. destruct sg as [st ge]. unfold Ring.phase1_group.
  destruct (ring_group_members_Some srcs groupsize group) as (m & Hm & Hml); [lia..|].
  rewrite Hm. simpl.
  set (groupsrcs := Ring.local_order locality m).
  assert (Z.of_nat (length groupsrcs) = groupsize) as Hgl.
  { unfold groupsrcs. by rewrite ring_local_order_length. }
  assert (∀ x, x ∈ groupsrcs → x ∈ srcs) as Hgin.
  { intros x Hx%ring_local_order_elem. by eapply ring_group_members_elem. }
  destruct (for_each_count 1 (ring_flow nodes flowsize) id
              (λ s, for_each (Ring.step groupsize flowsize groupsrcs s) (py_range2 1 groupsize))
              (groupsize - 1) (λ _ _, True) (py_range groupsize) st)
    as (st' & Hrun & _ & Hgr & Hid); [done| |].
  - intros pre s post s1 Hxs _. apply py_range_split in Hxs as [_ Hs].
    destruct (for_each_count 1 (ring_flow nodes flowsize) id (Ring.step groupsize flowsize groupsrcs s) 1
                (λ _ _, True) (py_range2 1 groupsize) s1)
      as (s2 & Hrun2 & _ & Hgr2 & Hid2); [done| |].
    + intros pre' d post' s3 Hxs' _. apply py_range2_split in Hxs' as (_ & Hd & _).
      destruct (ring_step_spec groupsize groupsrcs s d s3) as (s4 & ? & ? & ?);
        [done|done|lia|lia|].
      by exists s4.
    + exists s2. split; [done|]. split_and!; [done|done|].
      simpl in *. rewrite Hid2. unfold py_range2. rewrite length_seqZ. lia.
  - rewrite Hrun. simpl. eexists. split; [done|]. simpl. split_and!.
    + rewrite length_app. simpl. lia.
    + done.
    + simpl in Hid. rewrite Hid. unfold py_range. rewrite length_seqZ. lia.
Qed.

Lemma ring_phase2_group_spec groups groupsize ge g sl :
  0 ≤ g < groups → 1 ≤ groupsize → groups * groupsize ≤ Z.of_nat (length srcs) →
  Z.of_nat (length ge) = groups →
  ∃ sl', Ring.phase2_group srcs groups groupsize flowsize ge g sl = Some sl' ∧
         length sl'.2 = S (length sl.2) ∧
         grows 1 (ring_flow nodes flowsize) sl.1 sl'.1 ∧
         flow_id sl'.1 = flow_id sl.1 + 1 ∧
         ∀ f, last (flows_of (file sl'.1)) = Some f →
              groups = 1 → src f = dst f.
Proof.
  intros Hg Hgs Hlen Hge. destruct sl as [st lt]. unfold Ring.phase2_group, py_mod.
  destruct (py_index_Some srcs (g * groupsize)) as [leader Hl]; [nia|].
  rewrite Hl. simpl. rewrite decide_False by lia. simpl.
  pose proof (Z.mod_pos_bound (g + 1) groups ltac:(lia)) as Hm.
  destruct (py_index_Some srcs ((g + 1) `mod` groups * groupsize)) as [next Hn]; [nia|].
  rewrite Hn. simpl.
  destruct (py_index_Some ge g) as [gate Hgate]; [lia|].
  rewrite Hgate. simpl. eexists. split; [done|]. simpl.
  pose proof (Hsrcs _ (py_index_elem _ _ _ Hl)).
  pose proof (Hsrcs _ (py_index_elem _ _ _ Hn)).
  split_and!.
  - rewrite length_app. simpl. lia.
  - eapply grows_emit; simpl; try done; try lia.
    split_and!; simpl; try done; try lia; by right.
  - lia.
  - rewrite flows_of_app. simpl. rewrite last_snoc. intros f [= <-] ->. simpl.
    assert (g = 0) as -> by lia. rewrite Z.mod_1_r in Hn. simpl in *. congruence.
Qed.

Lemma ring_phase3_step_spec groupsize groupsrcs s sl :
  Z.of_nat (length groupsrcs) = groupsize → (∀ x, x ∈ groupsrcs → x ∈ srcs) →
  0 ≤ s < groupsize - 1 →
  ∃ sl', Ring.phase3_step groupsrcs groupsize flowsize s sl = Some sl' ∧
         grows 1 (ring_flow nodes flowsize) sl.1 sl'.1 ∧ flow_id sl'.1 = flow_id sl.1 + 1.
Proof.
  intros Hlen Hin Hs. destruct sl as [st ldt]. unfold Ring.phase3_step.
  destruct (py_index_Some groupsrcs s) as [a Ha]; [lia|].
  destruct (py_index_Some groupsrcs (s + 1)) as [b Hb]; [lia|].
  rewrite Ha, Hb. simpl.
  pose proof (Hsrcs a (Hin a (py_index_elem _ _ _ Ha))).
  pose proof (Hsrcs b (Hin b (py_index_elem _ _ _ Hb))).
  case_decide; (eexists; split; [done|]; simpl; split; [|lia];
    eapply grows_emit; simpl; try done; try lia;
    split_and!; simpl; try done; try lia; by left).
Qed.

Lemma ring_phase3_group_spec groups groupsize lt g st :
  0 ≤ g < groups → 1 ≤ groupsize → groups * groupsize ≤ Z.of_nat (length srcs) →
  Z.of_nat (length lt) = groups →
  ∃ st', Ring.phase3_group srcs lt groupsize flowsize g st = Some st' ∧
         grows 1 (ring_flow nodes flowsize) st st' ∧
         flow_id st' = flow_id st + (groupsize - 1).
Proof.
  intros Hg Hgs Hlen Hlt. unfold Ring.phase3_group.
  destruct (ring_group_members_Some srcs groupsize g) as (m & Hm & Hml); [lia|lia|nia|].
  rewrite Hm. simpl.
  destruct (py_index_Some m 0) as [leader Hl]; [lia|]. rewrite Hl. simpl.
  destruct (py_index_Some lt g) as [ldt Hldt]; [lia|]. rewrite Hldt. simpl.
  destruct (for_each_count 1 (ring_flow nodes flowsize) fst
              (Ring.phase3_step m groupsize flowsize) 1 (λ _ _, True)
              (py_range (groupsize - 1)) (st, ldt))
    as ([st' t'] & Hrun & _ & Hgr & Hid); [done| |].
  - intros pre s post sl Hxs _. apply py_range_split in Hxs as [_ Hs].
    destruct (ring_phase3_step_spec groupsize m s sl) as (sl' & ? & ? & ?); [done| |lia|].
    { intros x Hx. by eapply ring_group_members_elem. }
    by exists sl'.
  - rewrite Hrun. simpl. exists st'. split; [done|]. split; [done|].
    simpl in Hid. rewrite Hid. unfold py_range. rewrite length_seqZ. lia.
Qed.

End ring.

Lemma ring_node_order_range `{Random} g nodes randseed x :
  x ∈ Ring.node_order g nodes randseed → 0 ≤ x < nodes.
Proof. rewrite ring_node_order_perm. apply elem_of_py_range. Qed.

Lemma ring_phases_spec `{Random} g nodes conns groupsize flowsize locality randseed :
  groupsize ≠ 0 →
  conns `div` groupsize ≤ 0 ∨ (1 ≤ groupsize ∧ conns `div` groupsize * groupsize ≤ nodes) →
  ∃ st1 st2 st3,
    Ring.phases g nodes conns groupsize flowsize locality randseed = Some (st1, st2, st3) ∧
    grows 1 (ring_flow nodes flowsize) (open_file nodes 0) st1 ∧
    grows 1 (ring_flow nodes flowsize) st1 st2 ∧
    grows 1 (ring_flow nodes flowsize) st2 st3 ∧
    flow_id st1 = groupsize * (groupsize - 1) * Z.max (conns `div` groupsize) 0 ∧
    flow_id st2 = flow_id st1 + Z.max (conns `div` groupsize) 0 ∧
    flow_id st3 = flow_id st2 + (groupsize - 1) * Z.max (conns `div` groupsize) 0 ∧
    (conns `div` groupsize = 1 →
     ∀ f, last (flows_of (file st2)) = Some f → src f = dst f).
Proof.
  intros Hgs Hok. unfold Ring.phases, py_floordiv. rewrite decide_False by done. simpl.
  set (groups := conns `div` groupsize) in *.
  set (srcs := Ring.node_order g nodes randseed).
  pose proof (ring_node_order_range g nodes randseed) as Hsrcs. fold srcs in Hsrcs.
  assert (length (py_range groups) = Z.to_nat groups) as Hlg.
  { unfold py_range. by rewrite length_seqZ. }
  assert (∀ x, 0 ≤ x < groups →
            1 ≤ groupsize ∧ groups * groupsize ≤ Z.of_nat (length srcs)) as Hin.
  { intros x Hx. destruct Hok as [?|[? ?]]; [lia|]. split; [done|].
    unfold srcs. rewrite ring_node_order_length. nia. }
  destruct (for_each_count 1 (ring_flow nodes flowsize) fst
              (Ring.phase1_group srcs groupsize flowsize locality)
              (groupsize * (groupsize - 1))
              (λ pre (sg : state * list Z), length sg.2 = length pre)
              (py_range groups) (open_file nodes 0, []))
    as ([st1 ge] & Hrun1 & Hge & Hg1 & Hid1); [done| |].
  { intros pre x post sg Hxs Hl. apply py_range_split in Hxs as [_ Hx].
    destruct (Hin x Hx) as [H1 H2].
    destruct (ring_phase1_group_spec nodes flowsize srcs Hsrcs groupsize locality x sg)
      as (sg' & ? & Hl' & ? & ?); [lia|done|nia|].
    exists sg'. split_and!; try done. rewrite Hl', Hl, length_app. simpl. lia. }
  rewrite Hrun1. simpl in *.
  destruct (for_each_count 1 (ring_flow nodes flowsize) fst
              (Ring.phase2_group srcs groups groupsize flowsize ge) 1
              (λ pre (sl : state * list Z),
                 length sl.2 = length pre ∧
                 (groups = 1 → pre ≠ [] →
                  ∀ f, last (flows_of (file sl.1)) = Some f → src f = dst f))
              (py_range groups) (st1, []))
    as ([st2 lt] & Hrun2 & [Hlt Hself] & Hg2 & Hid2); [done| |].
  { intros pre x post sl Hxs [Hl _]. apply py_range_split in Hxs as [_ Hx].
    destruct (Hin x Hx) as [H1 H2].
    destruct (ring_phase2_group_spec nodes flowsize srcs Hsrcs groups groupsize ge x sl)
      as (sl' & ? & Hl' & ? & ? & Hs'); [lia|done|done|lia|].
    exists sl'. split_and!; try done.
    - rewrite Hl', Hl, length_app. simpl. lia.
    - intros Hg1' _ f Hf. by apply Hs'. }
  rewrite Hrun2. simpl in *.
  destruct (for_each_count 1 (ring_flow nodes flowsize) id
              (Ring.phase3_group srcs lt groupsize flowsize) (groupsize - 1)
              (λ _ _, True) (py_range groups) st2)
    as (st3 & Hrun3 & _ & Hg3 & Hid3); [done| |].
  { intros pre x post s1 Hxs _. apply py_range_split in Hxs as [_ Hx].
    destruct (Hin x Hx) as [H1 H2].
    destruct (ring_phase3_group_spec nodes flowsize srcs Hsrcs groups groupsize lt x s1)
      as (s2 & ? & ? & ?); [lia|done|done|lia|].
    by exists s2. }
  rewrite Hrun3. simpl in *.
  exists st1, st2, st3. split; [done|].
  rewrite Hlg in Hid1, Hid2, Hid3.
  split_and!; try done; try lia.
  intros Hone. apply Hself; [done|]. unfold py_range. rewrite Hone. done.
Qed.

Lemma py_index_Some_lt {A} (l : list A) i x :
  py_index l i = Some x → 0 ≤ i → i < Z.of_nat (length l).
Proof.
  unfold py_index. intros Hl Hi. rewrite decide_True in Hl by done.
  apply lookup_lt_Some in Hl. lia.
Qed.

Lemma ring_phases_None `{Random} g nodes conns groupsize flowsize locality randseed :
  groupsize = 0 ∨
  (1 ≤ conns `div` groupsize ∧ (groupsize < 0 ∨ nodes < conns `div` groupsize * groupsize)) →
  Ring.phases g nodes conns groupsize flowsize locality randseed = None.
Proof.
  intros Hbad. unfold Ring.phases, py_floordiv.
  destruct (decide (groupsize = 0)) as [|Hgs]; [done|]. simpl.
  destruct Hbad as [?|[Hg Hbad]]; [done|].
  set (groups := conns `div` groupsize) in *.
  set (srcs := Ring.node_order g nodes randseed).
  match goal with |- context [for_each ?b ?xs ?s] =>
    destruct (for_each b xs s) as [[st1 ge]|] eqn:Hrun1
  end; [|done].
  simpl. destruct (decide (groupsize < 0)) as [Hneg|Hpos].
  - match goal with |- context [for_each ?b ?xs ?s] =>
      destruct (for_each b xs s) as [[st2 lt]|] eqn:Hrun2
    end; [|done].
    simpl. rewrite (py_range_cons groups), for_each_cons by lia.
    assert (Ring.phase3_group srcs lt groupsize flowsize 0 st2 = None) as ->; [|done].
    unfold Ring.phase3_group, Ring.group_members, py_range.
    rewrite (seqZ_nil 0 groupsize) by lia. done.
  - exfalso. assert (nodes < groups * groupsize) as Hn by lia.
    rewrite (py_range_snoc groups) in Hrun1 by lia.
    apply for_each_split in Hrun1 as ([s1 l1] & sg2 & _ & Hbody & _).
    unfold Ring.phase1_group in Hbody.
    apply bind_Some in Hbody as (m & Hm & _).
    unfold Ring.group_members in Hm. apply mapM_Some_1 in Hm.
    assert (py_range groupsize !! Z.to_nat (groupsize - 1) = Some (groupsize - 1)) as Hl.
    { unfold py_range. apply lookup_seqZ. lia. }
    destruct (Forall2_lookup_l _ _ _ _ _ Hm Hl) as (y & _ & Hy).
    apply py_index_Some_lt in Hy; [|nia].
    unfold srcs in Hy. rewrite ring_node_order_length in Hy. nia.
Qed.

Lemma ring_phases_Some `{Random} g nodes conns groupsize flowsize locality randseed :
  is_Some (Ring.phases g nodes conns groupsize flowsize locality randseed) →
  groupsize ≠ 0 ∧
  (conns `div` groupsize ≤ 0 ∨ (1 ≤ groupsize ∧ conns `div` groupsize * groupsize ≤ nodes)).
Proof.
  intros [p Hp].
  destruct (decide (groupsize = 0)) as [H0|H0].
  { rewrite ring_phases_None in Hp; [done|by left]. }
  split; [done|].
  destruct (decide (conns `div` groupsize ≤ 0)) as [|Hg]; [by left|].
  destruct (decide (groupsize < 0)) as [Hneg|Hpos].
  { rewrite ring_phases_None in Hp; [done|]. right. split; [lia|by left]. }
  destruct (decide (nodes < conns `div` groupsize * groupsize)) as [Hn|Hn].
  { rewrite ring_phases_None in Hp; [done|]. right. split; [lia|by right]. }
  right. lia.
Qed.

Lemma ring_gen_out `{Random} g nodes conns groupsize flowsize locality randseed st1 st2 st :
  Ring.phases g nodes conns groupsize flowsize locality randseed = Some (st1, st2, st) →
  1 ≤ trig_id st →
  Ring.gen g nodes conns groupsize flowsize locality randseed
  = Some (insert_header (connections st) (trig_id st)
            ((file st ++ []) ++ (LTrigger <$> py_range2 1 (trig_id st + 1)))).
Proof.
  intros Hp Ht. unfold Ring.gen. rewrite Hp. simpl.
  rewrite <- (counted_section_out st Ht).
  by destruct (counted_trigger_section st).
Qed.

(** ** All four scripts: numbering, headers, declarations *)

Lemma tree_gen_triggers `{Random} g nodes branch_factor flowsize randseed out :
  Tree.gen g nodes branch_factor flowsize randseed = Some out →
  ∃ T, 1 ≤ T ∧ declared_triggers out = seqZ 1 T ∧ flows_ok 1 (T - 1) (flows_of out).
Proof.
  intros Hg.
  destruct (tree_gen_file _ _ _ _ _ _ Hg) as (st0 & st1 & st & Hp & Hfl & Hd).
  pose proof (tree_phases_ok _ _ _ _ _ _ Hp) as [Hok Ht].
  destruct (Tree.build nodes branch_factor) as [cp|] eqn:Hb.
  - destruct (tree_phases_spec nodes branch_factor flowsize cp Hb)
      as (s0 & s1 & s2 & down & Hp' & Hf0 & _ & Hgr & _).
    rewrite Hp in Hp'. simplify_eq.
    apply grows_file in Hgr as (_ & _ & _ & _ & _ & _ & _ & Hdecl & _).
    rewrite Hf0 in Hdecl. exists (trig_id s2). split; [done|].
    rewrite Hd, Hdecl, Hfl. split; [|done].
    unfold py_range2. simpl. f_equal. lia.
  - unfold Tree.phases in Hp. by rewrite Hb in Hp.
Qed.

Lemma counted_generated `{Random} out :
  ring_generated out ∨ supernode_generated out ∨ inc_generated out →
  ∃ nodes st notes,
    grows 1 (λ _, True) (open_file nodes 0) st ∧ Forall quiet notes ∧
    out = insert_header (connections st) (trig_id st)
            ((file st ++ notes) ++ (LTrigger <$> py_range2 1 (trig_id st + 1))).
Proof.
  intros [Hg|[Hg|Hg]].
  - destruct Hg as (g & nodes & conns & groupsize & flowsize & locality & randseed & Hg).
    destruct (Ring.phases g nodes conns groupsize flowsize locality randseed)
      as [[[st1 st2] st3]|] eqn:Hp; [|unfold Ring.gen in Hg; by rewrite Hp in Hg].
    destruct (ring_phases_Some g nodes conns groupsize flowsize locality randseed)
      as [Hgs Hok]; [by eexists|].
    destruct (ring_phases_spec g nodes conns groupsize flowsize locality randseed Hgs Hok)
      as (s1 & s2 & s3 & Hp' & Hg1 & Hg2 & Hg3 & _).
    rewrite Hp in Hp'. simplify_eq.
    assert (grows 1 (λ _, True) (open_file nodes 0) s3) as Hgr.
    { eapply grows_mono; [|eapply grows_trans; [exact Hg1|by eapply grows_trans]]. done. }
    pose proof Hgr as (_ & _ & _ & _ & _ & _ & Ht & _)%grows_file. simpl in Ht.
    rewrite (ring_gen_out _ _ _ _ _ _ _ _ _ _ Hp Ht) in Hg. injection Hg as <-.
    by exists nodes, s3, [].
  - destruct Hg as (g & nodes & flowsize & iterations & randseed & Hg).
    destruct (Supernode.body g nodes flowsize iterations randseed) as [st|] eqn:Hb;
      [|unfold Supernode.gen in Hg; by rewrite Hb in Hg].
    rewrite (supernode_gen_out _ _ _ _ _ _ Hb) in Hg. injection Hg as <-.
    exists nodes, st, []. split_and!; [|done|done]. by eapply supernode_body_grows.
  - destruct Hg as (g & nodes & k & flowsize & chunks & fid & iterations & window
                    & randseed & Hg).
    destruct (Inc.body nodes k flowsize chunks fid iterations window) as [v|] eqn:Hb;
      [|unfold Inc.gen in Hg; by rewrite Hb in Hg].
    rewrite (inc_gen_out _ _ _ _ _ _ _ _ _ _ Hb) in Hg. injection Hg as <-.
    exists nodes, (Inc.st v), [LBlank; LComment "--- TRIGGERS ---"]. split_and!; [| |done].
    + eapply grows_mono; [|by eapply inc_body_grows]. done.
    + apply Forall_cons. split; [by left|]. apply Forall_singleton. right. by eexists.
Qed.

Lemma counted_generated_file `{Random} out :
  ring_generated out ∨ supernode_generated out ∨ inc_generated out →
  fl_id <$> flows_of out = seqZ 1 (Z.of_nat (length (flows_of out))) ∧
  (∃ T, 1 ≤ T ∧ declared_triggers out = seqZ 1 T) ∧
  connections_header out = [Z.of_nat (length (flows_of out))] ∧
  triggers_header out = [Z.of_nat (length (declared_triggers out))].
Proof.
  intros (nodes & st & notes & Hgr & Hq & ->)%counted_generated.
  pose proof Hgr as (_ & _ & _ & _ & _ & _ & Ht & _)%grows_file. simpl in Ht.
  destruct (counted_file _ nodes st notes Hgr Ht Hq) as (_ & Hids & Hd & Hc & Htr).
  split_and!; try done. by exists (trig_id st).
Qed.

Lemma refs_declared_ok out lo hi T :
  1 ≤ lo → hi ≤ T → declared_triggers out = seqZ 1 T → flows_ok lo hi (flows_of out) →
  Forall (refs_declared out) (flows_of out).
Proof.
  intros Hlo Hhi Hd Hok. apply Forall_forall. intros f Hf.
  destruct (Hok f Hf) as [Hs Hg]. unfold refs_declared. rewrite Hd. split.
  - intros t Ht. apply elem_of_seqZ. specialize (Hs t Ht). lia.
  - intros t Ht. apply elem_of_seqZ. destruct (Hg t Ht) as [? _]. lia.
Qed.

(** ** Completion triggers increase along the file *)

Lemma completion_triggers_app l1 l2 :
  completion_triggers (l1 ++ l2) = completion_triggers l1 ++ completion_triggers l2.
Proof. unfold completion_triggers. by rewrite flows_of_app, omap_app. Qed.

Lemma fired_below_same b b' st st' :
  fired_below b st → b ≤ b' → flows_of (file st') = flows_of (file st) →
  fired_below b' st'.
Proof.
  intros [Hs Hb] Hle Hfl. unfold fired_below, completion_triggers in *. rewrite Hfl.
  split; [done|]. eapply Forall_impl; [done|]. simpl. intros. lia.
Qed.

Lemma fired_below_emit b b' st st' f :
  fired_below b st → file st' = file st ++ [LFlow f] → b ≤ b' →
  (∀ t, send_done_trigger f = Some t → b ≤ t < b') →
  fired_below b' st'.
Proof.
  intros [Hs Hb] Hfile Hle Hf. unfold fired_below. rewrite Hfile, completion_triggers_app.
  unfold completion_triggers at 2 4. simpl.
  destruct (send_done_trigger f) as [t|] eqn:Ht; simpl.
  - specialize (Hf t eq_refl). split.
    + apply StronglySorted_app; split_and!; [|done|repeat constructor].
      intros x y Hx ->%list_elem_of_singleton.
      rewrite Forall_forall in Hb. specialize (Hb x Hx). lia.
    + apply Forall_app. split; [|apply Forall_singleton; lia].
      eapply Forall_impl; [done|]. simpl. intros. lia.
  - rewrite app_nil_r. split; [done|].
    eapply Forall_impl; [done|]. simpl. intros. lia.
Qed.

Lemma fired_below_open nodes c b : fired_below b (open_file nodes c).
Proof. split; constructor. Qed.

(** Tree *)
Lemma tree_phases_fired nodes branch_factor flowsize st0 st1 st2 :
  Tree.phases nodes branch_factor flowsize = Some (st0, st1, st2) →
  fired_below (trig_id st2) st2.
Proof.
  unfold Tree.phases. intros Hp.
  apply bind_Some in Hp as ([children parents] & _ & Hp).
  apply bind_Some in Hp as (s1 & Hup & Hp).
  apply bind_Some in Hp as (s2 & Hdown & Hp). simplify_eq.
  assert (fired_below (trig_id st1) st1) as H1.
  { revert Hup. apply (for_each_inv0 _ (λ s, fired_below (trig_id s) s)).
    - split; constructor.
    - intros i sa sb _ HI Hstep. unfold Tree.up_step in Hstep. simplify_option_eq.
      eapply (fired_below_emit (trig_id sa) _ sa); [done|simpl; reflexivity|simpl; lia|].
      simpl. intros t [= <-]. lia. }
  revert Hdown. apply (for_each_inv0 _ (λ s, fired_below (trig_id s) s)).
  - eapply fired_below_same; [exact H1|done|]. apply flows_of_print_comment.
  - intros parent sa sb _ HI Hpar. unfold Tree.down_parent in Hpar.
    apply bind_Some in Hpar as (kids & _ & Hpar). revert Hpar.
    apply (for_each_inv0 _ (λ s, fired_below (trig_id s) s)); [done|].
    intros child sc sd _ HI' Hstep. unfold Tree.down_step in Hstep.
    apply bind_Some in Hstep as (lk & _ & Hstep).
    case_decide; simplify_eq.
    + eapply (fired_below_emit (trig_id sc) _ sc); [done|simpl; reflexivity|simpl; lia|].
      simpl. intros t [= <-]. lia.
    + eapply (fired_below_emit (trig_id sc) _ sc); [done|simpl; reflexivity|simpl; lia|].
      simpl. done.
Qed.

(** Supernode *)
Lemma supernode_body_fired `{Random} g nodes flowsize iterations randseed st :
  Supernode.body g nodes flowsize iterations randseed = Some st →
  fired_below (trig_id st + 1) st.
Proof.
  unfold Supernode.body. intros Hb.
  apply fmap_Some in Hb as ([st' nit'] & Hrun & ->). simpl.
  change st' with (st', nit').1. revert Hrun.
  apply (for_each_inv0 _ (λ sn : state * option Z, fired_below (trig_id sn.1 + 1) sn.1));
    [apply fired_below_open|].
  intros it [s1 n1] [s2 n2] _ HI Hbody. simpl in *.
  unfold Supernode.iteration_body in Hbody.
  apply bind_Some in Hbody as ([s3 l3] & Hp1 & Hbody).
  apply bind_Some in Hbody as (t & _ & Hp2).
  assert (fired_below (trig_id s3 + 1) s3) as H3.
  { change s3 with (s3, l3).1. revert Hp1.
    apply (for_each_inv0 _ (λ sl : state * list Z, fired_below (trig_id sl.1 + 1) sl.1));
      [done|].
    intros [i node] [sa la] [sb lb] _ HIa Hstep. simpl in *.
    unfold Supernode.phase1_step in Hstep. simplify_eq. simpl.
    eapply (fired_below_emit (trig_id sa + 1) _ sa); [done|simpl; reflexivity|lia|].
    simpl. intros ? [= <-]. lia. }
  change s2 with (s2, n2).1. revert Hp2.
  apply (for_each_inv0 _ (λ sl : state * option Z, fired_below (trig_id sl.1 + 1) sl.1));
    [done|].
  intros [i node] [sa oa] [sb ob] _ HIa Hstep. simpl in *.
  unfold Supernode.phase2_step in Hstep.
  repeat case_decide; simplify_eq; simpl;
    (eapply (fired_below_emit (trig_id sa + 1) _ sa); [done|simpl; reflexivity|lia|]);
    simpl; intros; simplify_eq; lia.
Qed.

(** Inc *)
Lemma or_synthetic_fired sl :
  fired_below (trig_id sl.1 + 1) sl.1 →
  fired_below (trig_id (Inc.or_synthetic sl).1 + 1) (Inc.or_synthetic sl).1.
Proof.
  destruct sl as [s [t|]]; unfold Inc.or_synthetic; simpl; [done|].
  intros HI. eapply fired_below_same; [exact HI|lia|done].
Qed.

Lemma inc_body_fired nodes k flowsize chunks fid iterations window v :
  Inc.body nodes k flowsize chunks fid iterations window = Some v →
  fired_below (trig_id (Inc.st v) + 1) (Inc.st v).
Proof.
  unfold Inc.body.
  apply (for_each_inv0 _ (λ v, fired_below (trig_id (Inc.st v) + 1) (Inc.st v)));
    [apply fired_below_open|].
  intros it v1 v2 _ HI Hbody. unfold Inc.iteration_body in Hbody.
  apply bind_Some in Hbody as (v3 & Hchunks & Hbody).
  apply bind_Some in Hbody as (t & _ & Hbody). simplify_eq. simpl.
  revert Hchunks.
  apply (for_each_inv0 _ (λ v, fired_below (trig_id (Inc.st v) + 1) (Inc.st v))).
  { simpl. eapply fired_below_same; [exact HI|lia|].
    simpl. rewrite !flows_of_app. simpl. by rewrite !app_nil_r. }
  intros c v4 v5 _ HI4 Hchunk. unfold Inc.chunk_body in Hchunk.
  apply bind_Some in Hchunk as (cst & _ & Hchunk).
  apply bind_Some in Hchunk as (dst_agg & _ & Hchunk).
  apply bind_Some in Hchunk as ([s1 o1] & Hup & Hchunk).
  assert (fired_below (trig_id s1 + 1) s1) as H1.
  { change s1 with (s1, o1).1. revert Hup.
    apply (for_each_inv0 _ (λ sl : state * option Z, fired_below (trig_id sl.1 + 1) sl.1));
      [done|].
    intros src [sa oa] [sb ob] _ HIa Hstep. simpl in *.
    unfold Inc.up_step in Hstep. case_decide; simplify_eq; [done|]. simpl.
    eapply (fired_below_emit (trig_id sa + 1) _ sa); [done|simpl; reflexivity|lia|].
    simpl. intros ? [= <-]. lia. }
  apply (or_synthetic_fired (s1, o1)) in H1.
  destruct (Inc.or_synthetic (s1, o1)) as [s2 lut]. simpl in H1.
  apply bind_Some in Hchunk as ([s3 o3] & Hdown & Hchunk).
  assert (fired_below (trig_id s3 + 1) s3) as H3.
  { change s3 with (s3, o3).1. revert Hdown.
    apply (for_each_inv0 _ (λ sl : state * option Z, fired_below (trig_id sl.1 + 1) sl.1));
      [done|].
    intros dst [sa oa] [sb ob] _ HIa Hstep. simpl in *.
    unfold Inc.down_step in Hstep. case_decide; simplify_eq; [done|]. simpl.
    eapply (fired_below_emit (trig_id sa + 1) _ sa); [done|simpl; reflexivity|lia|].
    simpl. intros ? [= <-]. lia. }
  apply (or_synthetic_fired (s3, o3)) in H3.
  destruct (Inc.or_synthetic (s3, o3)) as [s4 ldt]. simpl in H3.
  apply bind_Some in Hchunk as (l' & _ & Hchunk). by simplify_eq.
Qed.

(** Ring *)
Lemma ring_chain_fired groupsize flowsize groupsrcs s st st' :
  fired_below (trig_id st) st →
  for_each (Ring.step groupsize flowsize groupsrcs s) (py_range2 1 groupsize) st = Some st' →
  fired_below (trig_id st') st'.
Proof.
  intros H0 Hrun.
  pose (I := λ (pre : list Z) (s1 : state),
          if decide (pre = [] ∨ Z.of_nat (length pre) = groupsize - 1)
          then fired_below (trig_id s1) s1 else fired_below (trig_id s1 + 1) s1).
  assert (I (py_range2 1 groupsize) st') as HI.
  { revert Hrun. apply (for_each_inv _ I).
    - unfold I. rewrite decide_True by (by left). done.
    - intros pre d post s1 s2 Hxs HI1 Hstep.
      apply py_range2_split in Hxs as (Hd & Hdr & _).
      unfold Ring.step in Hstep.
      apply bind_Some in Hstep as (isrc & _ & Hstep).
      apply bind_Some in Hstep as (idst & _ & Hstep).
      apply bind_Some in Hstep as (a & _ & Hstep).
      apply bind_Some in Hstep as (b & _ & Hstep).
      unfold I in *. rewrite length_app. simpl.
      destruct (decide (d = 1)) as [Hd1|Hd1].
      + assert (pre = []) as -> by (destruct pre; simpl in *; [done|lia]).
        rewrite decide_True in HI1 by (by left). simpl.
        destruct (decide (d ≠ groupsize - 1)) as [Hl|Hl]; simplify_eq; simpl.
        * rewrite decide_False by (intros [?|?]; [done|lia]).
          eapply (fired_below_emit (trig_id s1) _ s1); [done|simpl; reflexivity|lia|].
          simpl. intros ? [= <-]. lia.
        * rewrite decide_True by (right; lia).
          eapply (fired_below_emit (trig_id s1) _ s1); [done|simpl; reflexivity|lia|].
          simpl. done.
      + rewrite decide_False in HI1.
        2:{ intros [->|?]; simpl in *; lia. }
        destruct (decide (d ≠ groupsize - 1)) as [Hl|Hl]; simplify_eq; simpl.
        * rewrite decide_False.
          2:{ intros [Hnil|?]; [|lia]. by destruct pre. }
          eapply (fired_below_emit (trig_id s1 + 1) _ s1); [done|simpl; reflexivity|lia|].
          simpl. intros ? [= <-]. lia.
        * rewrite decide_True by (right; lia).
          eapply (fired_below_emit (trig_id s1 + 1) _ s1); [done|simpl; reflexivity|lia|].
          simpl. done. }
  unfold I in HI. rewrite decide_True in HI; [done|].
  unfold py_range2. rewrite length_seqZ.
  destruct (decide (groupsize ≤ 1)).
  - left. by rewrite seqZ_nil by lia.
  - right. lia.
Qed.

Lemma ring_phases_fired `{Random} g nodes conns groupsize flowsize locality randseed st1 st2 st3 :
  Ring.phases g nodes conns groupsize flowsize locality randseed = Some (st1, st2, st3) →
  fired_below (trig_id st3 + 1) st3.
Proof.
  unfold Ring.phases. intros Hp.
  apply bind_Some in Hp as (groups & _ & Hp).
  apply bind_Some in Hp as ([s1 ge] & H1 & Hp).
  apply bind_Some in Hp as ([s2 lt] & H2 & Hp).
  apply bind_Some in Hp as (s3 & H3 & Hp). simplify_eq.
  assert (fired_below (trig_id st1) st1) as Hf1.
  { change st1 with (st1, ge).1. revert H1.
    apply (for_each_inv0 _ (λ sl : state * list Z, fired_below (trig_id sl.1) sl.1));
      [apply fired_below_open|].
    intros group [sa la] [sb lb] _ HIa Hgrp. simpl in *.
    unfold Ring.phase1_group in Hgrp.
    apply bind_Some in Hgrp as (m & _ & Hgrp).
    apply bind_Some in Hgrp as (sc & Hloop & Hgrp). simplify_eq. simpl.
    revert Hloop. apply (for_each_inv0 _ (λ s, fired_below (trig_id s) s)); [done|].
    intros s sd se _ HId Hchain. by eapply ring_chain_fired. }
  assert (fired_below (trig_id st2 + 1) st2) as Hf2.
  { change st2 with (st2, lt).1. revert H2.
    apply (for_each_inv0 _ (λ sl : state * list Z, fired_below (trig_id sl.1 + 1) sl.1)).
    { simpl. eapply fired_below_same; [exact Hf1|lia|done]. }
    intros group [sa la] [sb lb] _ HIa Hgrp. simpl in *.
    unfold Ring.phase2_group in Hgrp.
    apply bind_Some in Hgrp as (leader & _ & Hgrp).
    apply bind_Some in Hgrp as (m & _ & Hgrp).
    apply bind_Some in Hgrp as (next & _ & Hgrp).
    apply bind_Some in Hgrp as (gate & _ & Hgrp). simplify_eq. simpl.
    eapply (fired_below_emit (trig_id sa + 1) _ sa); [done|simpl; reflexivity|lia|].
    simpl. intros ? [= <-]. lia. }
  revert H3. apply (for_each_inv0 _ (λ s, fired_below (trig_id s + 1) s)); [done|].
  intros group sa sb _ HIa Hgrp. unfold Ring.phase3_group in Hgrp.
  apply bind_Some in Hgrp as (m & _ & Hgrp).
  apply bind_Some in Hgrp as (leader & _ & Hgrp).
  apply bind_Some in Hgrp as (ldt & _ & Hgrp).
  apply fmap_Some in Hgrp as ([sc tc] & Hloop & ->). simpl.
  change sc with (sc, tc).1. revert Hloop.
  apply (for_each_inv0 _ (λ sl : state * Z, fired_below (trig_id sl.1 + 1) sl.1)); [done|].
  intros s [sd td] [se te] _ HId Hstep. simpl in *.
  unfold Ring.phase3_step in Hstep.
  apply bind_Some in Hstep as (a & _ & Hstep).
  apply bind_Some in Hstep as (b & _ & Hstep).
  case_decide; simplify_eq; simpl;
    (eapply (fired_below_emit (trig_id sd + 1) _ sd); [done|simpl; reflexivity|lia|]);
    simpl; intros; simplify_eq; lia.
Qed.

(** ** Inc: who sends to whom *)

Lemma topology_app l1 l2 : topology (l1 ++ l2) = topology l1 ++ topology l2.
Proof. unfold topology. by rewrite flows_of_app, fmap_app. Qed.

Lemma or_synthetic_file sl : file (Inc.or_synthetic sl).1 = file sl.1.
Proof. by destruct sl as [s [t|]]. Qed.

Lemma inc_up_topology flowsize fid rid c dst_agg cst hosts st s' o' :
  for_each (Inc.up_step flowsize fid rid c dst_agg cst) hosts (st, None) = Some (s', o') →
  topology (file s')
  = topology (file st) ++ ((λ h, (h, dst_agg)) <$> filter (λ h, h ≠ dst_agg) hosts).
Proof.
  intros Hrun.
  change (topology (file (s', o').1)
          = topology (file st) ++ ((λ h, (h, dst_agg)) <$> filter (λ h, h ≠ dst_agg) hosts)).
  revert Hrun.
  apply (for_each_inv _ (λ pre (sl : state * option Z),
           topology (file sl.1)
           = topology (file st) ++ ((λ h, (h, dst_agg)) <$> filter (λ h, h ≠ dst_agg) pre))).
  - simpl. by rewrite app_nil_r.
  - intros pre src post [s1 o1] [s2 o2] _ HI Hstep. simpl in *.
    rewrite filter_app. unfold Inc.up_step in Hstep. case_decide; simplify_eq.
    + rewrite filter_cons_False by naive_solver. simpl. by rewrite app_nil_r.
    + rewrite filter_cons_True by done. simpl.
      rewrite topology_app, HI, fmap_app, <- app_assoc. done.
Qed.

Lemma inc_down_topology flowsize fid rid c dst_agg lut hosts st s' o' :
  for_each (Inc.down_step flowsize fid rid c dst_agg lut) hosts (st, None) = Some (s', o') →
  topology (file s')
  = topology (file st) ++ ((λ h, (dst_agg, h)) <$> filter (λ h, h ≠ dst_agg) hosts).
Proof.
  intros Hrun.
  change (topology (file (s', o').1)
          = topology (file st) ++ ((λ h, (dst_agg, h)) <$> filter (λ h, h ≠ dst_agg) hosts)).
  revert Hrun.
  apply (for_each_inv _ (λ pre (sl : state * option Z),
           topology (file sl.1)
           = topology (file st) ++ ((λ h, (dst_agg, h)) <$> filter (λ h, h ≠ dst_agg) pre))).
  - simpl. by rewrite app_nil_r.
  - intros pre dst post [s1 o1] [s2 o2] _ HI Hstep. simpl in *.
    rewrite filter_app. unfold Inc.down_step in Hstep. case_decide; simplify_eq.
    + rewrite filter_cons_False by naive_solver. simpl. by rewrite app_nil_r.
    + rewrite filter_cons_True by done. simpl.
      rewrite topology_app, HI, fmap_app, <- app_assoc. done.
Qed.

Lemma inc_chunk_topology_spec nodes k flowsize fid window rid c v v' :
  Inc.chunk_body (py_range nodes) k flowsize fid window rid c v = Some v' →
  topology (file (Inc.st v')) = topology (file (Inc.st v)) ++ inc_chunk_topology nodes k c.
Proof.
  intros Hbody. unfold Inc.chunk_body in Hbody.
  apply bind_Some in Hbody as (cst & _ & Hbody).
  apply bind_Some in Hbody as (dst_agg & Hagg & Hbody).
  rewrite chunk_to_agg_node_spec in Hagg. case_decide; [done|]. injection Hagg as <-.
  apply bind_Some in Hbody as ([s1 o1] & Hup & Hbody).
  pose proof (or_synthetic_file (s1, o1)) as Hf1.
  destruct (Inc.or_synthetic (s1, o1)) as [s2 lut].
  apply bind_Some in Hbody as ([s3 o3] & Hdown & Hbody).
  pose proof (or_synthetic_file (s3, o3)) as Hf3.
  destruct (Inc.or_synthetic (s3, o3)) as [s4 ldt].
  apply bind_Some in Hbody as (l' & _ & Hbody). simplify_eq. simpl in *.
  apply inc_up_topology in Hup. apply inc_down_topology in Hdown.
  rewrite Hf3, Hdown, Hf1, Hup. unfold inc_chunk_topology. by rewrite <- app_assoc.
Qed.

Lemma inc_body_topology nodes k flowsize chunks fid iterations window v :
  Inc.body nodes k flowsize chunks fid iterations window = Some v →
  topology (file (Inc.st v)) = inc_topology nodes k chunks iterations.
Proof.
  unfold Inc.body, inc_topology.
  apply (for_each_inv _ (λ pre v,
           topology (file (Inc.st v))
           = mjoin ((λ _ : Z, mjoin (inc_chunk_topology nodes k <$> py_range chunks)) <$> pre)));
    [done|].
  intros pre it post v1 v2 _ HI Hbody. unfold Inc.iteration_body in Hbody.
  apply bind_Some in Hbody as (v3 & Hchunks & Hbody).
  apply bind_Some in Hbody as (t & _ & Hbody). simplify_eq. simpl.
  rewrite fmap_app, join_app. simpl. rewrite app_nil_r, <- HI.
  revert Hchunks.
  apply (for_each_inv _ (λ pre' v,
           topology (file (Inc.st v))
           = topology (file (Inc.st v1)) ++ mjoin (inc_chunk_topology nodes k <$> pre'))).
  - simpl. rewrite !topology_app. unfold topology at 2 3. simpl. by rewrite !app_nil_r.
  - intros pre' c post' v4 v5 _ HI4 Hchunk.
    apply inc_chunk_topology_spec in Hchunk.
    rewrite Hchunk, HI4, fmap_app, join_app, <- app_assoc. simpl. by rewrite app_nil_r.
Qed.

(** ** Inc: with two hosts every chunk has a downlink flow *)

Lemma chunk_flows_app d r c fs1 fs2 :
  chunk_flows d r c (fs1 ++ fs2) = chunk_flows d r c fs1 ++ chunk_flows d r c fs2.
Proof. unfold chunk_flows. by rewrite filter_app. Qed.

Lemma chunk_flows_grows dc P d r c st st' :
  grows dc P st st' →
  chunk_flows d r c (flows_of (file st)) ≠ [] →
  chunk_flows d r c (flows_of (file st')) ≠ [].
Proof.
  intros (fs & -> & _)%grows_file Hne. rewrite chunk_flows_app.
  intros [? _]%app_eq_nil. done.
Qed.

Lemma inc_down_some flowsize fid rid c dst_agg lut hosts st s' o' :
  for_each (Inc.down_step flowsize fid rid c dst_agg lut) hosts (st, None) = Some (s', o') →
  (∃ h, h ∈ hosts ∧ h ≠ dst_agg) →
  chunk_flows DOWN rid c (flows_of (file s')) ≠ [].
Proof.
  intros Hrun.
  change ((∃ h, h ∈ hosts ∧ h ≠ dst_agg) →
          chunk_flows DOWN rid c (flows_of (file (s', o').1)) ≠ []).
  revert Hrun.
  apply (for_each_inv _ (λ pre (sl : state * option Z),
           (∃ h, h ∈ pre ∧ h ≠ dst_agg) →
           chunk_flows DOWN rid c (flows_of (file sl.1)) ≠ [])).
  - intros (h & Hh & _). by apply not_elem_of_nil in Hh.
  - intros pre dst post [s1 o1] [s2 o2] _ HI Hstep. simpl in *.
    unfold Inc.down_step in Hstep. case_decide; simplify_eq.
    + intros (h & [Hh|Hh%list_elem_of_singleton]%elem_of_app & Hne); [|by subst].
      apply HI. by exists h.
    + intros _. simpl. rewrite flows_of_app, chunk_flows_app. simpl.
      unfold chunk_flows at 2. rewrite filter_cons_True by done.
      intros [_ ?]%app_eq_nil. done.
Qed.

Lemma inc_chunk_down_some nodes k flowsize fid window rid c v v' :
  2 ≤ nodes →
  Inc.chunk_body (py_range nodes) k flowsize fid window rid c v = Some v' →
  chunk_flows DOWN rid c (flows_of (file (Inc.st v'))) ≠ [].
Proof.
  intros Hn Hbody. unfold Inc.chunk_body in Hbody.
  apply bind_Some in Hbody as (cst & _ & Hbody).
  apply bind_Some in Hbody as (dst_agg & _ & Hbody).
  apply bind_Some in Hbody as (up & _ & Hbody).
  destruct (Inc.or_synthetic up) as [s2 lut].
  apply bind_Some in Hbody as ([s3 o3] & Hdown & Hbody).
  pose proof (or_synthetic_file (s3, o3)) as Hf3.
  destruct (Inc.or_synthetic (s3, o3)) as [s4 ldt].
  apply bind_Some in Hbody as (l' & _ & Hbody). simplify_eq. simpl in *.
  rewrite Hf3. eapply inc_down_some; [exact Hdown|].
  destruct (decide (dst_agg = 0)) as [->|Hne].
  - exists 1. split; [apply elem_of_py_range; lia|done].
  - exists 0. split; [apply elem_of_py_range; lia|done].
Qed.

Lemma inc_body_down_some nodes k flowsize chunks fid iterations window v :
  2 ≤ nodes →
  Inc.body nodes k flowsize chunks fid iterations window = Some v →
  ∀ rid c, 1 ≤ rid ≤ iterations → 0 ≤ c < chunks →
    chunk_flows DOWN rid c (flows_of (file (Inc.st v))) ≠ [].
Proof.
  intros Hn Hb.
  cut (∀ rid c, 1 ≤ rid ≤ Z.of_nat (length (py_range iterations)) → 0 ≤ c < chunks →
         chunk_flows DOWN rid c (flows_of (file (Inc.st v))) ≠ []).
  { intros Hall rid c Hrid Hc. apply Hall; [|done].
    unfold py_range. rewrite length_seqZ. lia. }
  revert Hb. unfold Inc.body.
  apply (for_each_inv _ (λ pre v,
           ∀ rid c, 1 ≤ rid ≤ Z.of_nat (length pre) → 0 ≤ c < chunks →
             chunk_flows DOWN rid c (flows_of (file (Inc.st v))) ≠ [])).
  { simpl. intros. lia. }
  intros pre it post v1 v2 Hxs HI Hbody.
  apply py_range_split in Hxs as [Hit Hr].
  pose proof (inc_iteration_grows nodes k flowsize chunks fid iterations window it v1 v2
                ltac:(lia) Hbody) as Hgr.
  rewrite length_app. simpl. intros rid c Hrid Hc.
  destruct (decide (rid ≤ Z.of_nat (length pre))) as [Hold|Hnew].
  { eapply chunk_flows_grows; [exact Hgr|]. apply HI; lia. }
  assert (rid = it + 1) as -> by lia. clear Hit Hnew Hrid.
  unfold Inc.iteration_body in Hbody.
  apply bind_Some in Hbody as (v3 & Hchunks & Hbody).
  apply bind_Some in Hbody as (t & _ & Hbody). simplify_eq. simpl.
  cut (∀ j, 0 ≤ j < Z.of_nat (length (py_range chunks)) →
         chunk_flows DOWN (it + 1) j (flows_of (file (Inc.st v3))) ≠ []).
  { intros Hall. apply Hall. unfold py_range. rewrite length_seqZ. lia. }
  revert Hchunks.
  apply (for_each_inv _ (λ pre' v,
           ∀ j, 0 ≤ j < Z.of_nat (length pre') →
             chunk_flows DOWN (it + 1) j (flows_of (file (Inc.st v))) ≠ [])).
  { simpl. intros. lia. }
  intros pre' c' post' v4 v5 Hxs' HI' Hchunk.
  apply py_range_split in Hxs' as [Hc' Hr'].
  rewrite length_app. simpl. intros j Hj.
  destruct (decide (j < Z.of_nat (length pre'))) as [Hold|Hnew'].
  - eapply chunk_flows_grows; [|apply HI'; lia].
    eapply (inc_chunk_grows nodes k flowsize chunks fid iterations window (it + 1) c');
      [lia|lia|exact Hchunk].
  - assert (j = c') as -> by lia. by eapply inc_chunk_down_some.
Qed.

Lemma inc_chunk_key_range nodes k flowsize chunks fid iterations f d rid c :
  inc_flow_ok nodes k flowsize chunks fid iterations f →
  chunk_key f = Some (d, rid, c) → 1 ≤ rid ≤ iterations ∧ 0 ≤ c < chunks.
Proof.
  intros (_ & _ & rid' & cid' & Hrid & Hcid & Hsem) Hkey.
  unfold chunk_key in Hkey. simpl in Hsem.
  destruct Hsem as [(Hs & _)|(Hs & _)]; rewrite Hs in Hkey; simpl in Hkey;
    injection Hkey as _ <- <-; done.
Qed.

(** With [window >= 1]: the trigger an uplink flow of a chunk [c >= window]
    waits for, and, with two hosts or more, the downlink it belongs to. *)
Lemma inc_window_gated nodes k flowsize chunks fid iterations window v :
  1 ≤ window →
  Inc.body nodes k flowsize chunks fid iterations window = Some v →
  window_gated window (flows_of (file (Inc.st v))) ∧
  (2 ≤ nodes → window_gated_strict window (flows_of (file (Inc.st v)))).
Proof.
  intros Hw Hb.
  pose proof (inc_body_inv _ _ _ _ _ _ _ _ Hb) as [_ Hu]. specialize (Hu Hw).
  assert (window_gated window (flows_of (file (Inc.st v)))) as Hweak.
  { intros rid c f Hc Hf.
    apply list_elem_of_filter in Hf as [Hkey Hin]. exact (Hu f rid c Hin Hkey Hc). }
  split; [done|].
  intros Hn rid c f Hc Hf.
  destruct (Hweak rid c f Hc Hf) as (t & Ht & Hlast).
  pose proof Hf as [Hkey Hin]%list_elem_of_filter.
  pose proof (inc_body_grows _ _ _ _ _ _ _ _ Hb) as (fs & Hfs & HP & _)%grows_file.
  simpl in Hfs. rewrite Hfs in Hin. rewrite Forall_forall in HP.
  destruct (inc_chunk_key_range _ _ _ _ _ _ _ _ _ _ (HP f Hin) Hkey) as [Hrid Hcr].
  pose proof (inc_body_down_some _ _ _ _ _ _ _ _ Hn Hb rid (c - window) Hrid ltac:(lia))
    as Hne.
  apply last_is_Some in Hne as [d Hd].
  exists d, t. split_and!; [done| |done]. by apply Hlast.
Qed.

(** ** The example runs of C8 *)








(** In the run with three hosts the first half of C8 holds. *)
Lemma inc_3_window1_gated : window_gated_strict 1 (flows_of inc_3_window1).
Proof.
  assert (Inc.gen (H:=Replay) [] 3 2 1000 2 7 1 1 0 = Some inc_3_window1) as Hg
    by (vm_compute; reflexivity).
  apply inc_gen_file in Hg as (v & Hb & -> & _).
  by apply (inc_window_gated 3 2 1000 2 7 1 1 v) in Hb as [_ Hs]; [apply Hs|].
Qed.


(** * The claims *)

(** C1 (amended). In every file of the IncHierarchical generator, every
    downlink flow of a chunk waits for the completion trigger of the last
    uplink flow of that chunk of that iteration. *)
Theorem C1_downlinks_wait_for_last_uplink `{Random} (out : list line) (rid cid : Z) (f : flow) :
  inc_generated out → f ∈ chunk_flows DOWN rid cid (flows_of out) →
  ∃ u t, last (chunk_flows UP rid cid (flows_of out)) = Some u ∧
         send_done_trigger u = Some t ∧ start f = Trigger t.
Proof.
  intros (g & nodes & k & flowsize & chunks & fid & iterations & window & randseed & Hg) Hf.
  apply inc_gen_file in Hg as (v & Hb & Hfl & _). rewrite Hfl in *.
  apply inc_body_inv in Hb as [Hd _].
  apply list_elem_of_filter in Hf as [Hkey Hin]. exact (Hd f rid cid Hin Hkey).
Qed.

Lemma C1_downlinks_wait_for_last_uplink_witness :
  ∃ u t, last (chunk_flows UP 1 0 (flows_of inc_3_2)) = Some u ∧
         send_done_trigger u = Some t ∧
         start {| src := 0; dst := 2; fl_id := 4; start := Trigger 3; size := 1000;
                  send_done_trigger := Some 5;
                  sem := Some {| sem_dir := DOWN; sem_fid := 7; sem_rid := 1;
                                 sem_cid := 0 |} |} = Trigger t.
Proof.
  apply (C1_downlinks_wait_for_last_uplink (H:=Replay)).
  - exists ([] : list nat), 3, 2, 1000, 1, 7, 1, 1, 0. vm_compute. reflexivity.
  - vm_compute. right. left.
Defined.

(** C1 as stated fails on nodes=3, k=2, one chunk, one iteration: the second
    downlink waits for trigger 3, not for the completion trigger 4 of the
    first downlink. *)
Lemma C1_counterexample : ¬ downlinks_chained (flows_of inc_3_2).
Proof.
  intros Hc. specialize (Hc 1 0 0%nat).
  vm_compute in Hc. destruct (Hc _ _ eq_refl eq_refl) as (t & [= <-] & [=]).
Qed.

(** C2 (amended). With one group of size 4 ([conns // 4 = 1] on at least 4
    nodes) the Ring generator completes; phase 1 writes 12 intra-ring flows
    (a chain of 3 from each of the 4 positions), phase 2 writes 1 leader
    flow and phase 3 writes 3 broadcast flows. *)
Theorem C2_ring_one_group_of_four `{Random} (g : rng)
    (nodes conns flowsize locality randseed : Z) :
  4 ≤ nodes → conns `div` 4 = 1 →
  ∃ p1 p2 p3,
    Ring.phase_flows g nodes conns 4 flowsize locality randseed = Some (p1, p2, p3) ∧
    length p1 = 12%nat ∧ length p2 = 1%nat ∧ length p3 = 3%nat.
Proof.
  intros Hn Hc.
  destruct (ring_one_group g nodes conns flowsize locality randseed Hn Hc)
    as (p1 & p2 & p3 & Hp & H1 & H2 & H3).
  exists p1, p2, p3. split; [done|].
  apply (f_equal length) in H1, H2, H3. rewrite length_fmap in H1, H2, H3. done.
Qed.

Lemma C2_ring_one_group_of_four_witness :
  ∃ p1 p2 p3,
    Ring.phase_flows (H:=Replay) [] 4 4 4 1000 0 0 = Some (p1, p2, p3) ∧
    length p1 = 12%nat ∧ length p2 = 1%nat ∧ length p3 = 3%nat.
Proof. apply (C2_ring_one_group_of_four (H:=Replay)); [lia|reflexivity]. Defined.

(** C2 as stated fails on groups=1, groupSize=4 over 4 nodes: phase 1 does
    not write 3 flows. *)
Lemma C2_counterexample : ¬ ring_1x4_counts_3_1_3 (H:=Replay) [] 4 4 1000 0 0.
Proof.
  intros (p1 & p2 & p3 & Hp & H1 & _).
  vm_compute in Hp. injection Hp as <- <- <-. discriminate H1.
Qed.

(** C3 (amended). Whatever the state of the random generator at start-up
    ([g1], [g2]): the Tree, IncHierarchical and Supernode generators write
    the same file for the same parameters, for every seed, and the
    Supernode generator with seed 0 keeps the regular nodes in the order
    0 .. nodes-2; the Ring generator writes the same file whenever the seed
    is not 0. *)
Theorem C3_determinism `{Random} (g1 g2 : rng)
    (nodes branch_factor flowsize iterations k chunks fid window conns groupsize locality
     randseed : Z) :
  same_output (Tree.gen g1 nodes branch_factor flowsize randseed)
              (Tree.gen g2 nodes branch_factor flowsize randseed) ∧
  same_output (Inc.gen g1 nodes k flowsize chunks fid iterations window randseed)
              (Inc.gen g2 nodes k flowsize chunks fid iterations window randseed) ∧
  same_output (Supernode.gen g1 nodes flowsize iterations randseed)
              (Supernode.gen g2 nodes flowsize iterations randseed) ∧
  Supernode.node_order g1 nodes 0 = py_range (nodes - 1) ∧
  (randseed ≠ 0 →
   same_output (Ring.gen g1 nodes conns groupsize flowsize locality randseed)
               (Ring.gen g2 nodes conns groupsize flowsize locality randseed)).
Proof.
  assert (∀ o1 o2 : option (list line), o1 = o2 → same_output o1 o2) as Hsame.
  { intros o1 o2 ->. by split. }
  split_and!.
  - by apply Hsame.
  - by apply Hsame.
  - by apply Hsame.
  - done.
  - intros Hseed. apply Hsame.
    unfold Ring.gen, Ring.phases, Ring.node_order. by rewrite !decide_True.
Qed.

Lemma C3_determinism_witness :
  same_output (Ring.gen (H:=Replay) [0%nat] 4 4 2 1000 0 7)
              (Ring.gen (H:=Replay) [1%nat] 4 4 2 1000 0 7).
Proof.
  apply (C3_determinism (H:=Replay) [0%nat] [1%nat] 4 2 1000 1 2 1 7 1 4 2 0 7). lia.
Defined.

(** C3 as stated fails for the Ring generator with seed 0: the node order
    is shuffled, and two runs that differ only in the state of the random
    generator connect different nodes. *)
Lemma C3_counterexample :
  Ring.node_order (H:=Replay) [0%nat] 2 0 ≠ py_range 2 ∧
  topology (ran (Ring.gen (H:=Replay) [0%nat] 2 2 2 1000 0 0))
    ≠ topology (ran (Ring.gen (H:=Replay) [1%nat] 2 2 2 1000 0 0)).
Proof. split; by vm_compute. Qed.

(** C4 (failing input: Tree, nodes=4, branchFactor=2). The header says
    [Triggers 6] and the file declares 5 triggers; the [Connections 6]
    header does match the 6 flow lines. *)
Theorem C4_tree_trigger_header_mismatch `{Random} (g : rng) (flowsize randseed : Z) :
  ∃ out,
    Tree.gen g 4 2 flowsize randseed = Some out ∧
    triggers_header out = [6] ∧ declared_triggers out = [1; 2; 3; 4; 5] ∧
    connections_header out = [6] ∧ length (flows_of out) = 6%nat.
Proof. eexists. split; [vm_compute; reflexivity|]. by vm_compute. Qed.

(** C5 (failing input: one ring of size 3). The six phase-1 flows and the
    leader flow of phase 2: the leader flow waits for trigger 3, the
    completion trigger of flow 5 and the start gate of the final phase-1
    flow 6, which attaches no completion trigger. *)
Theorem C5_ring_reduction_done_is_not_final_completion `{Random} (g : rng)
    (flowsize locality randseed : Z) :
  ∃ p1 p2 p3,
    Ring.phase_flows g 3 3 3 flowsize locality randseed = Some (p1, p2, p3) ∧
    wiring <$> p1 =
      [(1, Start0, Some 1); (2, Trigger 1, None);
       (3, Start0, Some 2); (4, Trigger 2, None);
       (5, Start0, Some 3); (6, Trigger 3, None)] ∧
    wiring <$> p2 = [(7, Trigger 3, Some 5)] ∧
    send_done_trigger <$> last p1 = Some None.
Proof.
  unfold Ring.phase_flows, Ring.phases.
  pose proof (ring_node_order_length g 3 randseed) as Hlen.
  destruct (Ring.node_order g 3 randseed) as [|a [|b [|c [|]]]]; simpl in Hlen; try lia.
  simpl mbind.
  pose proof (ring_local_order_length locality [a; b; c]) as Hlo.
  destruct (Ring.local_order locality [a; b; c]) as [|x [|y [|z [|]]]];
    simpl in Hlo; try lia.
  eexists _, _, _. split; [vm_compute; reflexivity|]. vm_compute. done.
Qed.

(** C6 (failing input: one ring of size 2). The leader flow waits for
    trigger 0, and the file declares the triggers 1 and 2 only. *)
Theorem C6_ring_gate_not_declared `{Random} (g : rng) (flowsize locality randseed : Z) :
  ∃ out,
    Ring.gen g 2 2 2 flowsize locality randseed = Some out ∧
    wiring <$> flows_of out =
      [(1, Start0, None); (2, Start0, None); (3, Trigger 0, Some 2); (4, Trigger 2, None)] ∧
    declared_triggers out = [1; 2].
Proof.
  unfold Ring.gen, Ring.phases.
  pose proof (ring_node_order_length g 2 randseed) as Hlen.
  destruct (Ring.node_order g 2 randseed) as [|a [|b [|]]]; simpl in Hlen; try lia.
  simpl mbind.
  pose proof (ring_local_order_length locality [a; b]) as Hlo.
  destruct (Ring.local_order locality [a; b]) as [|x [|y [|]]]; simpl in Hlo; try lia.
  eexists. split; [vm_compute; reflexivity|]. vm_compute. done.
Qed.

(** C7. For every schedule written by one of the four generators, the
    graph with an edge from flow X to flow Y whenever the completion trigger
    of X is the start gate of Y has no cycle. *)
Theorem C7_acyclic `{Random} (out : list line) :
  generated out → acyclic (flows_of out).
Proof.
  intros Hg. destruct (generated_flows_ok out Hg) as (lo & hi & Hok).
  by eapply flows_ok_acyclic.
Qed.

Lemma C7_acyclic_witness : acyclic (flows_of tree_4_2).
Proof.
  apply (C7_acyclic (H:=Replay)). right. left.
  exists ([] : list nat), 4, 2, 1000, 0. vm_compute. reflexivity.
Defined.




(** C9. The Tree generator on nodes=4, branchFactor=2: the parent map is
    {1:0, 2:0, 3:1}; the upward phase writes exactly the flows 3->1, 2->0,
    1->0, each with [start 0]; the downward phase writes exactly the flows
    0->1, 0->2, 1->3; the file holds 6 flows. *)
Theorem C9_tree_4_2 `{Random} (g : rng) (flowsize randseed : Z) :
  snd <$> Tree.build 4 2 = Some ({[1 := 0; 2 := 0; 3 := 1]} : gmap Z Z) ∧
  ∃ st0 st1 st2 out,
    Tree.phases 4 2 flowsize = Some (st0, st1, st2) ∧
    (λ f, (src f, dst f, start f)) <$> flows_of (added st0 st1)
      = [(3, 1, Start0); (2, 0, Start0); (1, 0, Start0)] ∧
    (λ f, (src f, dst f)) <$> flows_of (added st1 st2) = [(0, 1); (0, 2); (1, 3)] ∧
    Tree.gen g 4 2 flowsize randseed = Some out ∧
    length (flows_of out) = 6%nat ∧ connections_header out = [6].
Proof.
  split; [by vm_compute|].
  eexists _, _, _, _. split; [vm_compute; reflexivity|].
  split; [by vm_compute|]. split; [by vm_compute|].
  split; [vm_compute; reflexivity|]. by vm_compute.
Qed.

(** C10. Every completed run of the Supernode or IncHierarchical generator
    declares trigger 1, which no flow attaches as completion trigger and no
    flow waits for; every completed run of the Tree generator declares a
    final trigger ID with the same property. *)
Theorem C10_unused_trigger `{Random} (out : list line) :
  (supernode_generated out ∨ inc_generated out → unused_trigger out 1) ∧
  (tree_generated out →
   ∃ t, last (declared_triggers out) = Some t ∧ unused_trigger out t).
Proof.
  split.
  - intros [Hg|Hg].
    + destruct Hg as (g & nodes & flowsize & iterations & randseed & Hg).
      apply supernode_gen_file in Hg as (st & Hb & Hf & Hd).
      apply supernode_body_ok in Hb as [Ht Hok].
      apply (unused_outside 2 (trig_id st)); [by rewrite Hf| |lia].
      rewrite Hd. apply elem_of_app. right. apply elem_of_py_range2. lia.
    + destruct Hg as (g & nodes & k & flowsize & chunks & fid & iterations & window
                      & randseed & Hg).
      apply inc_gen_file in Hg as (v & Hb & Hf & Hd).
      apply inc_body_ok in Hb as ([Ht Hok] & _).
      apply (unused_outside 2 (trig_id (Inc.st v))); [by rewrite Hf| |lia].
      rewrite Hd. apply elem_of_app. right. apply elem_of_py_range2. lia.
  - intros (g & nodes & bf & flowsize & randseed & Hg).
    apply tree_gen_file in Hg as (st0 & st1 & st & Hp & Hf & Hd).
    apply tree_phases_ok in Hp as [Hok Ht]. unfold tree_ok in Hok.
    exists (trig_id st). split.
    + rewrite Hd, last_app, last_py_range2; done.
    + apply (unused_outside 1 (trig_id st - 1)); [by rewrite Hf| |lia].
      rewrite Hd. apply elem_of_app. right. apply elem_of_py_range2. lia.
Qed.

Lemma C10_unused_trigger_witness :
  unused_trigger supernode_5_1 1 ∧ unused_trigger inc_3_2 1 ∧
  ∃ t, last (declared_triggers tree_4_2) = Some t ∧ unused_trigger tree_4_2 t.
Proof.
  split_and!.
  - apply (C10_unused_trigger (H:=Replay)). left.
    exists ([] : list nat), 5, 1000, 1, 0. vm_compute. reflexivity.
  - apply (C10_unused_trigger (H:=Replay)). right.
    exists ([] : list nat), 3, 2, 1000, 1, 7, 1, 1, 0. vm_compute. reflexivity.
  - apply (C10_unused_trigger (H:=Replay)).
    exists ([] : list nat), 4, 2, 1000, 0. vm_compute. reflexivity.
Defined.

(** * Further properties of the generators *)

(** X1: the set-up of the Tree script gives every node [i >= 1] the
    parent [(i - 1) // branch_factor], which is a node, and every node the
    list, in increasing order, of the nodes it is the parent of. *)
Theorem tree_build_parents_children (nodes branch_factor : Z) cp :
  Tree.build nodes branch_factor = Some cp →
  (∀ i, cp.2 !! i =
        if decide (1 ≤ i < nodes) then Some ((i - 1) `div` branch_factor) else None) ∧
  (∀ p, cp.1 !! p =
        if decide (0 ≤ p < nodes)
        then Some (filter (λ i, (i - 1) `div` branch_factor = p) (py_range2 1 nodes))
        else None) ∧
  (∀ i, 1 ≤ i < nodes → 0 ≤ (i - 1) `div` branch_factor < nodes).
Proof.
  intros (Hch & Hps & Hr)%tree_build_built. split_and!.
  - intros i. rewrite Hps. unfold tree_parent.
    destruct (decide (1 ≤ i < nodes)) as [Hi|Hi].
    + rewrite decide_True; [done|]. by apply elem_of_py_range2.
    + rewrite decide_False; [done|]. by rewrite elem_of_py_range2.
  - intros p. by rewrite Hch.
  - intros i Hi. apply Hr. by apply elem_of_py_range2.
Qed.

Lemma tree_build_parents_children_witness :
  (∀ i, (default (∅, ∅) (Tree.build 4 2)).2 !! i =
        if decide (1 ≤ i < 4) then Some ((i - 1) `div` 2) else None) ∧
  (∀ p, (default (∅, ∅) (Tree.build 4 2)).1 !! p =
        if decide (0 ≤ p < 4)
        then Some (filter (λ i, (i - 1) `div` 2 = p) (py_range2 1 4))
        else None) ∧
  (∀ i, 1 ≤ i < 4 → 0 ≤ (i - 1) `div` 2 < 4).
Proof. apply (tree_build_parents_children 4 2). vm_compute. reflexivity. Defined.

(** X2: the Tree script raises exactly when there are two nodes or more
    and the branch factor is 0 (ZeroDivisionError), or three nodes or more
    and the branch factor is negative (KeyError: the parent of node 2 is
    -1); in every other case it completes. *)
Theorem tree_gen_raises `{Random} (g : rng) (nodes branch_factor flowsize randseed : Z) :
  Tree.gen g nodes branch_factor flowsize randseed = None ↔
  2 ≤ nodes ∧ (branch_factor = 0 ∨ (branch_factor < 0 ∧ 3 ≤ nodes)).
Proof.
  rewrite <- tree_build_None. split.
  - intros Hg. destruct (Tree.build nodes branch_factor) as [cp|] eqn:Hb; [|done].
    destruct (tree_gen_spec g nodes branch_factor flowsize randseed cp Hb)
      as (out & down & Hout & _). congruence.
  - apply tree_gen_None.
Qed.

(** X3: the flows of a Tree file are, first, one upward flow for every
    node from [nodes - 1] down to 1, from the node to its parent, with
    [start 0], id [nodes - i] and completion trigger [nodes - i]; then one
    downward flow for every node 1 .. [nodes - 1], from its parent to the
    node, waiting for a trigger [>= 1]. *)
Theorem tree_flows `{Random} (g : rng) (nodes branch_factor flowsize randseed : Z) out :
  Tree.gen g nodes branch_factor flowsize randseed = Some out →
  ∃ down,
    flows_of out
      = (tree_up_flow nodes branch_factor flowsize <$> reverse (py_range2 1 nodes)) ++ down ∧
    dst <$> down ≡ₚ py_range2 1 nodes ∧
    Forall (tree_down_flow nodes branch_factor flowsize) down.
Proof.
  intros Hg. destruct (Tree.build nodes branch_factor) as [cp|] eqn:Hb.
  - destruct (tree_gen_spec g nodes branch_factor flowsize randseed cp Hb)
      as (out' & down & Hout & Hfl & Hd & HP & _).
    assert (out' = out) as -> by congruence.
    exists down. split_and!; [done| |done].
    rewrite Hd. by eapply tree_children_order_perm.
  - by rewrite tree_gen_None in Hg.
Qed.

Lemma tree_flows_witness :
  ∃ down,
    flows_of tree_4_2 = (tree_up_flow 4 2 1000 <$> reverse (py_range2 1 4)) ++ down ∧
    dst <$> down ≡ₚ py_range2 1 4 ∧
    Forall (tree_down_flow 4 2 1000) down.
Proof. apply (tree_flows (H:=Replay) [] 4 2 1000 0). vm_compute. reflexivity. Defined.

(** X4: the Connections header of a Tree file is [(nodes - 1) * 2], and
    the file holds [2 * max(nodes - 1, 0)] flows: the header is the number
    of flows exactly when there is at least one node. *)
Theorem tree_connections_header `{Random} (g : rng) (nodes branch_factor flowsize randseed : Z)
    out :
  Tree.gen g nodes branch_factor flowsize randseed = Some out →
  connections_header out = [(nodes - 1) * 2] ∧
  Z.of_nat (length (flows_of out)) = 2 * Z.max (nodes - 1) 0.
Proof.
  intros Hg. destruct (Tree.build nodes branch_factor) as [cp|] eqn:Hb.
  - destruct (tree_gen_spec g nodes branch_factor flowsize randseed cp Hb)
      as (out' & down & Hout & Hfl & Hd & _ & _ & Hch & _).
    assert (out' = out) as -> by congruence.
    split; [done|].
    apply (f_equal length) in Hd.
    rewrite (Permutation_length (tree_children_order_perm _ _ _ Hb)) in Hd.
    rewrite length_fmap in Hd.
    rewrite Hfl, length_app, length_fmap, length_reverse, Hd.
    unfold py_range2. rewrite length_seqZ. lia.
  - by rewrite tree_gen_None in Hg.
Qed.

Lemma tree_connections_header_witness :
  connections_header tree_4_2 = [(4 - 1) * 2] ∧
  Z.of_nat (length (flows_of tree_4_2)) = 2 * Z.max (4 - 1) 0.
Proof. apply (tree_connections_header (H:=Replay) [] 4 2 1000 0). vm_compute. reflexivity. Defined.

(** X5: in a Tree file every upward flow completes with one of the
    triggers 1 .. nodes - 1 and every downward flow waits for one of these;
    the completion triggers of the downward flows are [nodes] or larger, so
    no flow waits for the completion of a downward flow. *)
Theorem tree_down_gates `{Random} (g : rng) (nodes branch_factor flowsize randseed : Z) out :
  Tree.gen g nodes branch_factor flowsize randseed = Some out →
  Forall (tree_gate_ok nodes) (flows_of out).
Proof.
  intros Hg. destruct (Tree.build nodes branch_factor) as [cp|] eqn:Hb.
  - destruct (tree_gen_spec g nodes branch_factor flowsize randseed cp Hb)
      as (out' & down & Hout & Hfl & Hd & HP & Hids & _).
    assert (out' = out) as -> by congruence.
    assert (Z.of_nat (length (flows_of out)) = 2 * Z.max (nodes - 1) 0) as Hlen.
    { apply (f_equal length) in Hd.
      rewrite (Permutation_length (tree_children_order_perm _ _ _ Hb)) in Hd.
      rewrite length_fmap in Hd.
      rewrite Hfl, length_app, length_fmap, length_reverse, Hd.
      unfold py_range2. rewrite length_seqZ. lia. }
    apply Forall_forall. intros f Hf.
    assert (1 ≤ fl_id f ≤ 2 * Z.max (nodes - 1) 0) as Hid.
    { apply (list_elem_of_fmap_2 fl_id) in Hf. rewrite Hids in Hf.
      apply elem_of_seqZ in Hf. lia. }
    rewrite Hfl in Hf. apply elem_of_app in Hf as [Hf|Hf].
    + apply list_elem_of_fmap in Hf as (i & -> & Hi).
      apply elem_of_reverse, elem_of_py_range2 in Hi.
      unfold tree_gate_ok. simpl. eexists. split; [done|]. lia.
    + rewrite Forall_forall in HP.
      destruct (HP f Hf) as (_ & _ & _ & (gt & Hgt & Hg1) & Hs).
      unfold tree_gate_ok. rewrite Hgt. split; [lia|done].
  - by rewrite tree_gen_None in Hg.
Qed.

Lemma tree_down_gates_witness : Forall (tree_gate_ok 4) (flows_of tree_4_2).
Proof. apply (tree_down_gates (H:=Replay) [] 4 2 1000 0). vm_compute. reflexivity. Defined.



(** X6: the order in which the Ring and the Supernode scripts take the
    nodes is a permutation of [range(nodes)] and of [range(nodes - 1)], for
    every seed and every behaviour of the random generator. *)
Theorem node_order_permutation `{Random} (g : rng) (nodes randseed : Z) :
  Ring.node_order g nodes randseed ≡ₚ py_range nodes ∧
  Supernode.node_order g nodes randseed ≡ₚ py_range (nodes - 1).
Proof. split; [apply ring_node_order_perm|apply supernode_node_order_perm]. Qed.

(** X7: the Supernode script raises exactly when it is asked for at least
    one iteration and there is no regular node ([nodes <= 1]: IndexError on
    [phase1_send_done_triggers[-1]]). *)
Theorem supernode_gen_raises `{Random} (g : rng) (nodes flowsize iterations randseed : Z) :
  Supernode.gen g nodes flowsize iterations randseed = None ↔ nodes ≤ 1 ∧ 1 ≤ iterations.
Proof.
  rewrite <- (supernode_node_order_nil g nodes randseed).
  pose proof (supernode_body_spec g nodes flowsize iterations randseed) as Hs.
  simpl in Hs. case_decide as Hc.
  - split; [done|]. intros _. unfold Supernode.gen. by rewrite Hs.
  - destruct Hs as (st & Hb & _). rewrite (supernode_gen_out _ _ _ _ _ _ Hb).
    split; [done|]. intros ?. done.
Qed.

(** X8: the flows of a Supernode file are, iteration after iteration, one
    uplink from every regular node to the supernode and then one downlink
    from the supernode to every regular node, in the node order, with the
    ids, start conditions and completion triggers of [supernode_uplink]
    and [supernode_downlink]; the file declares the triggers 1 .. N, N the
    number of flows (trigger 1 alone when there is no flow). *)
Theorem supernode_flows `{Random} (g : rng) (nodes flowsize iterations randseed : Z) out :
  Supernode.gen g nodes flowsize iterations randseed = Some out →
  flows_of out
    = supernode_schedule (Supernode.node_order g nodes randseed) (nodes - 1) flowsize iterations ∧
  Z.of_nat (length (flows_of out)) = 2 * Z.max (nodes - 1) 0 * Z.max iterations 0 ∧
  declared_triggers out = seqZ 1 (Z.max (Z.of_nat (length (flows_of out))) 1).
Proof.
  intros Hg.
  pose proof (supernode_body_spec g nodes flowsize iterations randseed) as Hs.
  simpl in Hs. case_decide as Hc.
  - unfold Supernode.gen in Hg. by rewrite Hs in Hg.
  - destruct Hs as (st & Hb & Hfl & Htr & Hlen).
    pose proof (supernode_body_grows _ _ _ _ _ _ Hb) as Hgr.
    rewrite (supernode_gen_out _ _ _ _ _ _ Hb) in Hg. injection Hg as <-.
    destruct (counted_file (λ _, True) nodes st [] Hgr ltac:(lia) ltac:(done))
      as (Hf & _ & Hd & _).
    rewrite Hf, Hd, Hfl, <- Hfl. split_and!; [done| |by rewrite Htr].
    rewrite Hlen.
    pose proof (Permutation_length (supernode_node_order_perm g nodes randseed)) as Hp.
    rewrite Hp. unfold py_range. rewrite length_seqZ.
    by replace (Z.of_nat (Z.to_nat (nodes - 1))) with (Z.max (nodes - 1) 0) by lia.
Qed.

Lemma supernode_flows_witness :
  flows_of supernode_5_1
    = supernode_schedule (Supernode.node_order (H:=Replay) [] 5 0) (5 - 1) 1000 1 ∧
  Z.of_nat (length (flows_of supernode_5_1)) = 2 * Z.max (5 - 1) 0 * Z.max 1 0 ∧
  declared_triggers supernode_5_1 = seqZ 1 (Z.max (Z.of_nat (length (flows_of supernode_5_1))) 1).
Proof. apply (supernode_flows (H:=Replay) [] 5 1000 1 0). vm_compute. reflexivity. Defined.



(** X10: the aggregator of chunk [cid] is node [cid mod (k * k // 4)] of
    the first pod, so the chunks go round the pod; with an empty pod
    ([-1 <= k <= 1]) the mapping raises ZeroDivisionError. *)
Theorem chunk_to_agg_node_round_robin (k cid : Z) :
  (-1 ≤ k ≤ 1 → Inc.chunk_to_agg_node k cid = None) ∧
  (¬ -1 ≤ k ≤ 1 →
   Inc.chunk_to_agg_node k cid = Some (cid `mod` ((k * k) `div` 4)) ∧
   0 ≤ cid `mod` ((k * k) `div` 4) < (k * k) `div` 4 ∧
   Inc.chunk_to_agg_node k (cid + (k * k) `div` 4) = Inc.chunk_to_agg_node k cid).
Proof.
  rewrite !chunk_to_agg_node_spec. split; intros Hk.
  - by rewrite decide_True.
  - rewrite !decide_False by done. fold (Inc.nodes_per_pod k).
    pose proof (nodes_per_pod_zero k) as Hz. pose proof (nodes_per_pod_nonneg k) as Hn.
    assert (0 < Inc.nodes_per_pod k) as Hpos
      by (destruct (decide (Inc.nodes_per_pod k = 0)); [tauto|lia]).
    split_and!; [done|by apply Z.mod_pos_bound..|].
    f_equal. rewrite <- (Z.mul_1_l (Inc.nodes_per_pod k)) at 1.
    by rewrite Z.mod_add by lia.
Qed.

(** X11: the Inc script raises exactly when it is asked for at least one
    iteration and there is no chunk (IndexError on
    [last_downlink_trigger[chunks - 1]]), or the pod is empty
    (ZeroDivisionError in [chunk_to_agg_node]), or the window is negative
    (IndexError on [last_downlink_trigger[c - window]]). *)
Theorem inc_gen_raises `{Random} (g : rng)
    (nodes k flowsize chunks fid iterations window randseed : Z) :
  Inc.gen g nodes k flowsize chunks fid iterations window randseed = None ↔
  1 ≤ iterations ∧ (chunks ≤ 0 ∨ -1 ≤ k ≤ 1 ∨ window < 0).
Proof.
  rewrite <- (inc_body_None_iff nodes k flowsize chunks fid iterations window).
  destruct (Inc.body nodes k flowsize chunks fid iterations window) as [v|] eqn:Hb.
  - rewrite (inc_gen_out _ _ _ _ _ _ _ _ _ _ Hb). done.
  - unfold Inc.gen. by rewrite Hb.
Qed.

(** X12: every flow of an Inc file carries the flow size, a completion
    trigger and the annotation of its chunk: an iteration in
    1 .. iterations and a chunk in 0 .. chunks - 1; an uplink goes from a
    host other than the chunk's aggregator to the aggregator, a downlink
    from the aggregator to a host other than the aggregator and waits for
    a trigger.  No flow has the same source and destination. *)
Theorem inc_flows `{Random} (g : rng)
    (nodes k flowsize chunks fid iterations window randseed : Z) out :
  Inc.gen g nodes k flowsize chunks fid iterations window randseed = Some out →
  Forall (inc_flow_ok nodes k flowsize chunks fid iterations) (flows_of out) ∧
  Forall (λ f, src f ≠ dst f) (flows_of out).
Proof.
  intros Hg.
  destruct (Inc.body nodes k flowsize chunks fid iterations window) as [v|] eqn:Hb.
  - rewrite (inc_gen_out _ _ _ _ _ _ _ _ _ _ Hb) in Hg. injection Hg as <-.
    pose proof (inc_body_grows _ _ _ _ _ _ _ _ Hb) as Hgr.
    pose proof Hgr as Hgr'.
    apply grows_file in Hgr' as (fs & Hfs & HP & _ & _ & _ & Ht & _). simpl in Hfs, Ht.
    destruct (counted_file _ nodes (Inc.st v) [LBlank; LComment "--- TRIGGERS ---"] Hgr)
      as (Hf & _); [lia| |].
    { apply Forall_cons. split; [by left|]. apply Forall_singleton. right. by eexists. }
    rewrite Hf, Hfs. split; [done|].
    eapply Forall_impl; [exact HP|].
    intros f (_ & _ & rid & cid & _ & _ & [(_ & -> & _ & Hne)|(_ & -> & _ & Hne & _)]); done.
  - unfold Inc.gen in Hg. by rewrite Hb in Hg.
Qed.

Lemma inc_flows_witness :
  Forall (inc_flow_ok 3 2 1000 1 7 1) (flows_of inc_3_2) ∧
  Forall (λ f, src f ≠ dst f) (flows_of inc_3_2).
Proof. apply (inc_flows (H:=Replay) [] 3 2 1000 1 7 1 1 0). vm_compute. reflexivity. Defined.

(** X13: the Ring script raises exactly when the group size is 0
    (ZeroDivisionError), or there is at least one group
    ([conns // groupsize >= 1]) and the group size is negative or the groups
    need more nodes than there are (IndexError on [srcs]). *)
Theorem ring_gen_raises `{Random} (g : rng)
    (nodes conns groupsize flowsize locality randseed : Z) :
  Ring.gen g nodes conns groupsize flowsize locality randseed = None ↔
  groupsize = 0 ∨
  (1 ≤ conns `div` groupsize ∧ (groupsize < 0 ∨ nodes < conns `div` groupsize * groupsize)).
Proof.
  split.
  - intros Hnone.
    destruct (decide (groupsize = 0)) as [|Hgs]; [by left|]. right.
    destruct (decide (1 ≤ conns `div` groupsize)) as [Hg|Hg].
    + split; [done|].
      destruct (decide (groupsize < 0)) as [|Hpos]; [by left|]. right.
      destruct (decide (nodes < conns `div` groupsize * groupsize)) as [|Hn]; [done|].
      exfalso.
      destruct (ring_phases_spec g nodes conns groupsize flowsize locality randseed Hgs)
        as (st1 & st2 & st3 & Hp & _); [right; lia|].
      unfold Ring.gen in Hnone. rewrite Hp in Hnone. simpl in Hnone.
      by destruct (counted_trigger_section st3).
    + exfalso.
      destruct (ring_phases_spec g nodes conns groupsize flowsize locality randseed Hgs)
        as (st1 & st2 & st3 & Hp & _); [left; lia|].
      unfold Ring.gen in Hnone. rewrite Hp in Hnone. simpl in Hnone.
      by destruct (counted_trigger_section st3).
  - intros Hbad. unfold Ring.gen. by rewrite ring_phases_None.
Qed.

(** X14: a Ring run over G groups of size s writes s * (s - 1) * G flows
    in phase 1, G flows in phase 2 and (s - 1) * G flows in phase 3; every
    flow goes from a node to a node, and has the flow size or, for the
    leader flows, a tenth of it. *)
Theorem ring_phase_counts `{Random} (g : rng)
    (nodes conns groupsize flowsize locality randseed : Z) p1 p2 p3 :
  Ring.phase_flows g nodes conns groupsize flowsize locality randseed = Some (p1, p2, p3) →
  Z.of_nat (length p1) = groupsize * (groupsize - 1) * Z.max (conns `div` groupsize) 0 ∧
  Z.of_nat (length p2) = Z.max (conns `div` groupsize) 0 ∧
  Z.of_nat (length p3) = (groupsize - 1) * Z.max (conns `div` groupsize) 0 ∧
  Forall (ring_flow nodes flowsize) (p1 ++ p2 ++ p3).
Proof.
  intros Hpf. unfold Ring.phase_flows in Hpf.
  apply bind_Some in Hpf as ([[st1 st2] st3] & Hp & Hpf). simplify_eq.
  destruct (ring_phases_Some g nodes conns groupsize flowsize locality randseed)
    as [Hgs Hok]; [by eexists|].
  destruct (ring_phases_spec g nodes conns groupsize flowsize locality randseed Hgs Hok)
    as (s1 & s2 & s3 & Hp' & Hg1 & Hg2 & Hg3 & Hid1 & Hid2 & Hid3 & _).
  rewrite Hp in Hp'. simplify_eq.
  apply grows_added in Hg1 as (_ & HP1 & Hl1).
  apply grows_added in Hg2 as (_ & HP2 & Hl2).
  apply grows_added in Hg3 as (_ & HP3 & Hl3).
  simpl in Hl1. split_and!; try lia.
  rewrite !Forall_app. done.
Qed.

Lemma ring_phase_counts_witness :
  Z.of_nat (length ring_3_3.1.1) = 3 * (3 - 1) * Z.max (3 `div` 3) 0 ∧
  Z.of_nat (length ring_3_3.1.2) = Z.max (3 `div` 3) 0 ∧
  Z.of_nat (length ring_3_3.2) = (3 - 1) * Z.max (3 `div` 3) 0 ∧
  Forall (ring_flow 3 1000) (ring_3_3.1.1 ++ ring_3_3.1.2 ++ ring_3_3.2).
Proof. apply (ring_phase_counts (H:=Replay) [] 3 3 3 1000 0 0). vm_compute. reflexivity. Defined.

(** X15: with a single group, the leader flow of phase 2 of the Ring
    script goes from the leader to itself. *)
Theorem ring_one_group_leader_flow `{Random} (g : rng)
    (nodes conns groupsize flowsize locality randseed : Z) p1 p2 p3 :
  Ring.phase_flows g nodes conns groupsize flowsize locality randseed = Some (p1, p2, p3) →
  conns `div` groupsize = 1 →
  ∃ f, p2 = [f] ∧ src f = dst f.
Proof.
  intros Hpf Hone. unfold Ring.phase_flows in Hpf.
  apply bind_Some in Hpf as ([[st1 st2] st3] & Hp & Hpf). simplify_eq.
  destruct (ring_phases_Some g nodes conns groupsize flowsize locality randseed)
    as [Hgs Hok]; [by eexists|].
  destruct (ring_phases_spec g nodes conns groupsize flowsize locality randseed Hgs Hok)
    as (s1 & s2 & s3 & Hp' & _ & Hg2 & _ & _ & Hid2 & _ & Hself).
  rewrite Hp in Hp'. simplify_eq.
  apply grows_added in Hg2 as (Hfl & _ & Hl2).
  destruct (flows_of (added s1 s2)) as [|f [|f' l]] eqn:Hadd; simpl in Hl2; try lia.
  exists f. split; [done|]. apply Hself; [done|]. by rewrite Hfl, last_snoc.
Qed.

Lemma ring_one_group_leader_flow_witness : ∃ f, ring_3_3.1.2 = [f] ∧ src f = dst f.
Proof.
  apply (ring_one_group_leader_flow (H:=Replay) [] 3 3 3 1000 0 0 ring_3_3.1.1 _ ring_3_3.2).
  - vm_compute. reflexivity.
  - vm_compute. reflexivity.
Defined.

(** X16: in the file of every script the flows carry the ids 1, 2, ... in
    the order of the file, and the trigger section declares the triggers
    1, 2, ..., T in order, each once, with T >= 1. *)
Theorem generated_numbering `{Random} (out : list line) :
  generated out →
  fl_id <$> flows_of out = seqZ 1 (Z.of_nat (length (flows_of out))) ∧
  ∃ T, 1 ≤ T ∧ declared_triggers out = seqZ 1 T.
Proof.
  intros [Hg|[Hg|Hg]].
  - destruct (counted_generated_file out) as (? & ? & _); auto.
  - destruct Hg as (g & nodes & bf & flowsize & randseed & Hg).
    destruct (tree_gen_triggers _ _ _ _ _ _ Hg) as (T & HT & Hd & _).
    split; [|by exists T].
    destruct (Tree.build nodes bf) as [cp|] eqn:Hb.
    + destruct (tree_gen_spec g nodes bf flowsize randseed cp Hb)
        as (out' & down & Hout & _ & _ & _ & Hids & _).
      by assert (out' = out) as -> by congruence.
    + by rewrite tree_gen_None in Hg.
  - destruct (counted_generated_file out) as (? & ? & _); auto.
Qed.

Lemma generated_numbering_witness :
  fl_id <$> flows_of tree_4_2 = seqZ 1 (Z.of_nat (length (flows_of tree_4_2))) ∧
  ∃ T, 1 ≤ T ∧ declared_triggers tree_4_2 = seqZ 1 T.
Proof.
  apply (generated_numbering (H:=Replay)). right. left.
  exists ([] : list nat), 4, 2, 1000, 0. vm_compute. reflexivity.
Defined.

(** X17: the Ring, Supernode and Inc scripts count what they wrote: the
    file has one Connections header, the number of its flow lines, and one
    Triggers header, the number of its trigger declarations. *)
Theorem counted_headers `{Random} (out : list line) :
  ring_generated out ∨ supernode_generated out ∨ inc_generated out →
  connections_header out = [Z.of_nat (length (flows_of out))] ∧
  triggers_header out = [Z.of_nat (length (declared_triggers out))].
Proof. intros Hg. by destruct (counted_generated_file out Hg) as (_ & _ & ? & ?). Qed.

Lemma counted_headers_witness :
  connections_header inc_3_2 = [Z.of_nat (length (flows_of inc_3_2))] ∧
  triggers_header inc_3_2 = [Z.of_nat (length (declared_triggers inc_3_2))].
Proof.
  apply (counted_headers (H:=Replay)). right. right.
  exists ([] : list nat), 3, 2, 1000, 1, 7, 1, 1, 0. vm_compute. reflexivity.
Defined.

(** X18: in a Tree, Supernode or Inc file every trigger a flow names, as
    its completion trigger or as its start gate, is declared, and no
    trigger is declared twice. *)
Theorem referenced_triggers_declared `{Random} (out : list line) :
  tree_generated out ∨ supernode_generated out ∨ inc_generated out →
  NoDup (declared_triggers out) ∧ Forall (refs_declared out) (flows_of out).
Proof.
  intros [Hg|Hg].
  - destruct Hg as (g & nodes & bf & flowsize & randseed & Hg).
    destruct (tree_gen_triggers _ _ _ _ _ _ Hg) as (T & HT & Hd & Hok).
    split; [rewrite Hd; apply NoDup_seqZ|].
    eapply (refs_declared_ok out 1 (T - 1) T); [lia|lia|done|done].
  - destruct (counted_generated_file out) as (_ & (T & HT & Hd) & _); [tauto|].
    split; [rewrite Hd; apply NoDup_seqZ|].
    assert (∃ st, flows_of out = flows_of (file st) ∧
                  declared_triggers out
                    = declared_triggers (file st) ++ py_range2 1 (trig_id st + 1) ∧
                  file_ok 2 st) as (st & Hfl & Hd' & [Ht Hok]).
    { destruct Hg as [Hg|Hg].
      - destruct Hg as (g & nodes & flowsize & iterations & randseed & Hg).
        apply supernode_gen_file in Hg as (st & Hb & ? & ?).
        exists st. split_and!; [done..|]. by eapply supernode_body_ok.
      - destruct Hg as (g & nodes & k & flowsize & chunks & fid & iterations & window
                        & randseed & Hg).
        apply inc_gen_file in Hg as (v & Hb & ? & ?).
        exists (Inc.st v). split_and!; [done..|]. by apply inc_body_ok in Hb as [? _]. }
    eapply (refs_declared_ok out 2 (trig_id st) T); [lia| |done|by rewrite Hfl].
    assert (trig_id st ∈ declared_triggers out) as Hin.
    { rewrite Hd'. apply elem_of_app. right. apply elem_of_py_range2. lia. }
    rewrite Hd in Hin. apply elem_of_seqZ in Hin. lia.
Qed.

Lemma referenced_triggers_declared_witness :
  NoDup (declared_triggers supernode_5_1) ∧
  Forall (refs_declared supernode_5_1) (flows_of supernode_5_1).
Proof.
  apply (referenced_triggers_declared (H:=Replay)). right. left.
  exists ([] : list nat), 5, 1000, 1, 0. vm_compute. reflexivity.
Defined.

(** X19: in the file of every script the completion triggers of the flows
    increase strictly in the order of the file, so no trigger is the
    completion trigger of two flows. *)
Theorem completion_triggers_increase `{Random} (out : list line) :
  generated out → StronglySorted Z.lt (completion_triggers out).
Proof.
  unfold completion_triggers. intros [Hg|[Hg|[Hg|Hg]]].
  - destruct Hg as (g & nodes & conns & groupsize & flowsize & locality & randseed & Hg).
    apply ring_gen_file in Hg as (st1 & st2 & st & Hp & -> & _).
    by apply ring_phases_fired in Hp as [? _].
  - destruct Hg as (g & nodes & bf & flowsize & randseed & Hg).
    apply tree_gen_file in Hg as (st0 & st1 & st & Hp & -> & _).
    by apply tree_phases_fired in Hp as [? _].
  - destruct Hg as (g & nodes & flowsize & iterations & randseed & Hg).
    apply supernode_gen_file in Hg as (st & Hb & -> & _).
    by apply supernode_body_fired in Hb as [? _].
  - destruct Hg as (g & nodes & k & flowsize & chunks & fid & iterations & window
                    & randseed & Hg).
    apply inc_gen_file in Hg as (v & Hb & -> & _).
    by apply inc_body_fired in Hb as [? _].
Qed.

Lemma completion_triggers_increase_witness :
  StronglySorted Z.lt (completion_triggers inc_3_2).
Proof.
  apply (completion_triggers_increase (H:=Replay)). right. right. right.
  exists ([] : list nat), 3, 2, 1000, 1, 7, 1, 1, 0. vm_compute. reflexivity.
Defined.

(** X20: in an Inc file, for every iteration and, within it, for every
    chunk in order, every host other than the chunk's aggregator sends to
    the aggregator, in the order of the hosts, and then the aggregator
    sends to every host other than itself, in the same order. *)
Theorem inc_who_sends_to_whom `{Random} (g : rng)
    (nodes k flowsize chunks fid iterations window randseed : Z) out :
  Inc.gen g nodes k flowsize chunks fid iterations window randseed = Some out →
  topology out = inc_topology nodes k chunks iterations.
Proof.
  intros Hg. apply inc_gen_file in Hg as (v & Hb & Hfl & _).
  unfold topology. rewrite Hfl. by apply inc_body_topology in Hb.
Qed.

Lemma inc_who_sends_to_whom_witness : topology inc_3_2 = inc_topology 3 2 1 1.
Proof.
  apply (inc_who_sends_to_whom (H:=Replay) [] 3 2 1000 1 7 1 1 0). vm_compute. reflexivity.
Defined.
